(** * SpecForge CLI: template rendering and cross-agent synchronisation

    A shallow embedding of the core of [src/forge_cli/__init__.py]:
    the context synchroniser, the working-tree synchroniser, the
    shared-resource updater, the placeholder substitution of the
    template renderer, the bundled path rewrite and the JSON deep merge.

    Conventions of the embedding.
    - A Python [str] (and [bytes]) is a Rocq [string]; every character is
      one code point below 256.
    - A [pathlib.Path] is the list of its components; [a / b] is [a ++ b].
      Paths are taken as already resolved: the file system has no
      symbolic links, so [Path.resolve] is the identity.
    - A modification time ([st_mtime]) is an integer number of ticks.
    - The file system is a finite map from paths to regular files. *)

From Stdlib Require Import ZArith Lia Bool Ascii String DecimalString.
From stdpp Require Import base option list strings gmap fin_maps.

Open Scope string_scope.
Open Scope Z_scope.

(** ** Python string primitives *)

Module PyStr.

(** The one-character string ["\n"]. *)
Definition nl : string := String "010" EmptyString.

(** [s.startswith(p)] *)
Definition startswith (s p : string) : bool := String.prefix p s.

(** [s[n:]] for [0 <= n] *)
Fixpoint drop (n : nat) (s : string) : string :=
  match n, s with
  | O, _ => s
  | S _, EmptyString => EmptyString
  | S k, String _ s' => drop k s'
  end.

(** Lowest index at which [sub] occurs in [s], as [s.find(sub)] does;
    [None] stands for the result [-1]. *)
Fixpoint find (sub s : string) : option nat :=
  if String.prefix sub s then Some O
  else match s with
       | EmptyString => None
       | String _ s' => S <$> find sub s'
       end.

(** [s.find(sub, start)] *)
Definition find_from (sub s : string) (start : nat) : option nat :=
  if decide (start <= String.length s)%nat
  then (fun i => (start + i)%nat) <$> find sub (drop start s)
  else None.

(** [s.lstrip("\n")] *)
Fixpoint lstrip_nl (s : string) : string :=
  match s with
  | String c s' => if decide (c = "010"%char) then lstrip_nl s' else s
  | EmptyString => EmptyString
  end.

(** [s.rstrip("/")] *)
Fixpoint rstrip_slash (s : string) : string :=
  match s with
  | EmptyString => EmptyString
  | String c s' =>
    match rstrip_slash s' with
    | EmptyString => if decide (c = "/"%char) then EmptyString else String c EmptyString
    | r => String c r
    end
  end.


(** [max(xs, key=key)] on a non-empty sequence [x :: xs]: the running
    maximum is replaced only by a strictly greater key, so the first
    maximal element is returned. *)
Fixpoint max_by {A : Type} (key : A -> Z) (x : A) (xs : list A) : A :=
  match xs with
  | [] => x
  | y :: ys => max_by key (if key x <? key y then y else x) ys
  end.

End PyStr.

(** ** Files *)

Record file := File { content : string; mtime : Z }.

#[global] Instance file_eq_dec : EqDecision file.
Proof. solve_decision. Defined.

(** A Python [dict] as the list of its items in insertion order. *)
Fixpoint dict_get {K V : Type} `{EqDecision K} (k : K) (d : list (K * V)) : option V :=
  match d with
  | [] => None
  | (k', v) :: d' => if decide (k' = k) then Some v else dict_get k d'
  end.

(** ** The agent registry *)

Definition AGENT_CONTEXT_PATHS : list (string * list string) :=
  [ ("claude", ["CLAUDE.md"]);
    ("gemini", ["GEMINI.md"]);
    ("copilot", [".github"; "agents"; "copilot-instructions.md"]);
    ("cursor-agent", [".cursor"; "rules"; "specify-rules.mdc"]);
    ("qwen", ["QWEN.md"]);
    ("opencode", ["AGENTS.md"]);
    ("codex", ["AGENTS.md"]);
    ("windsurf", [".windsurf"; "rules"; "specify-rules.md"]);
    ("kilocode", [".kilocode"; "rules"; "specify-rules.md"]);
    ("auggie", [".augment"; "rules"; "specify-rules.md"]);
    ("codebuddy", ["CODEBUDDY.md"]);
    ("qoder", ["QODER.md"]);
    ("roo", [".roo"; "rules"; "specify-rules.md"]);
    ("q", ["AGENTS.md"]);
    ("amp", ["AGENTS.md"]);
    ("shai", ["SHAI.md"]);
    ("bob", ["AGENTS.md"]) ].

(** The fields of [AGENT_CONFIG] that the renderer and the
    synchronisers read. *)
Record agent_cfg := AgentCfg {
  cfg_name : string;
  cfg_folder : string;
  cfg_context_file : string;
  cfg_context_glob : string;
  cfg_project_dir_env : string
}.

Definition AGENT_CONFIG : list (string * agent_cfg) :=
  [ ("copilot", AgentCfg "GitHub Copilot" ".github/" "copilot-instructions.md"
                  "**/*copilot-instructions.md" "$PWD");
    ("claude", AgentCfg "Claude Code" ".claude/" "CLAUDE.md" "**/*CLAUDE.md"
                 "$CLAUDE_PROJECT_DIR");
    ("gemini", AgentCfg "Gemini CLI" ".gemini/" "GEMINI.md" "**/*GEMINI.md" "$PWD");
    ("cursor-agent", AgentCfg "Cursor" ".cursor/" "specify-rules.mdc"
                       "**/*specify-rules.mdc" "$PWD");
    ("qwen", AgentCfg "Qwen Code" ".qwen/" "QWEN.md" "**/*QWEN.md" "$PWD");
    ("opencode", AgentCfg "opencode" ".opencode/" "AGENTS.md" "**/*AGENTS.md" "$PWD");
    ("codex", AgentCfg "Codex CLI" ".codex/" "AGENTS.md" "**/*AGENTS.md" "$PWD");
    ("windsurf", AgentCfg "Windsurf" ".windsurf/" "specify-rules.md"
                   "**/*specify-rules.md" "$PWD");
    ("kilocode", AgentCfg "Kilo Code" ".kilocode/" "specify-rules.md"
                   "**/*specify-rules.md" "$PWD");
    ("auggie", AgentCfg "Auggie CLI" ".augment/" "specify-rules.md"
                 "**/*specify-rules.md" "$PWD");
    ("codebuddy", AgentCfg "CodeBuddy" ".codebuddy/" "CODEBUDDY.md"
                    "**/*CODEBUDDY.md" "$PWD");
    ("qoder", AgentCfg "Qoder CLI" ".qoder/" "QODER.md" "**/*QODER.md" "$PWD");
    ("roo", AgentCfg "Roo Code" ".roo/" "specify-rules.md" "**/*specify-rules.md" "$PWD");
    ("q", AgentCfg "Amazon Q Developer CLI" ".amazonq/" "AGENTS.md" "**/*AGENTS.md" "$PWD");
    ("amp", AgentCfg "Amp" ".agents/" "AGENTS.md" "**/*AGENTS.md" "$PWD");
    ("shai", AgentCfg "SHAI" ".shai/" "SHAI.md" "**/*SHAI.md" "$PWD");
    ("bob", AgentCfg "IBM Bob" ".bob/" "AGENTS.md" "**/*AGENTS.md" "$PWD") ].

(** [AGENT_CONFIG[agent_key]["folder"].rstrip("/")]; [None] stands for
    the [KeyError] of an unknown key. *)
Definition agent_folder (agent_key : string) : option string :=
  cfg ← dict_get agent_key AGENT_CONFIG; Some (PyStr.rstrip_slash (cfg_folder cfg)).


(** [AGENT_COMMAND_DIRS]: command directory (as path components), file
    extension and argument format of every agent. *)
Definition AGENT_COMMAND_DIRS : list (string * (list string * string * string)) :=
  [ ("claude", ([".claude"; "commands"], "md", "$ARGUMENTS"));
    ("gemini", ([".gemini"; "commands"], "toml", "{{args}}"));
    ("copilot", ([".github"; "agents"], "agent.md", "$ARGUMENTS"));
    ("cursor-agent", ([".cursor"; "commands"], "md", "$ARGUMENTS"));
    ("qwen", ([".qwen"; "commands"], "toml", "{{args}}"));
    ("opencode", ([".opencode"; "command"], "md", "$ARGUMENTS"));
    ("windsurf", ([".windsurf"; "workflows"], "md", "$ARGUMENTS"));
    ("codex", ([".codex"; "prompts"], "md", "$ARGUMENTS"));
    ("kilocode", ([".kilocode"; "workflows"], "md", "$ARGUMENTS"));
    ("auggie", ([".augment"; "commands"], "md", "$ARGUMENTS"));
    ("roo", ([".roo"; "commands"], "md", "$ARGUMENTS"));
    ("codebuddy", ([".codebuddy"; "commands"], "md", "$ARGUMENTS"));
    ("amp", ([".agents"; "commands"], "md", "$ARGUMENTS"));
    ("shai", ([".shai"; "commands"], "md", "$ARGUMENTS"));
    ("q", ([".amazonq"; "prompts"], "md", "$ARGUMENTS"));
    ("qoder", ([".qoder"; "commands"], "md", "$ARGUMENTS"));
    ("bob", ([".bob"; "commands"], "md", "$ARGUMENTS")) ].


(** ** Context synchroniser *)

Module ContextSync.

(** [_extract_markdown_body] *)
Definition _extract_markdown_body (content : string) : string :=
  if PyStr.startswith content "---" then
    match PyStr.find_from "---" content 3 with
    | Some end_idx => PyStr.lstrip_nl (PyStr.drop (end_idx + 3) content)
    | None => content
    end
  else content.

(** The literal before [{body}] in the f-string of
    [_format_context_for_agent]. *)
Definition cursor_header : string :=
  "---" +:+ PyStr.nl +:+ "description: SpecForge project context" +:+ PyStr.nl +:+
  "globs: " +:+ PyStr.nl +:+ "---" +:+ PyStr.nl +:+ PyStr.nl.

(** [_format_context_for_agent] *)
Definition _format_context_for_agent (agent_key body : string) : string :=
  if decide (agent_key = "cursor-agent") then cursor_header +:+ body else body.

(** First loop of [sync_context_files]: the existing context files with
    their modification times, in agent order, one per resolved path. *)
Fixpoint discover (fs : gmap (list string) file) (project_path : list string)
    (installed_agents : list string) (seen_paths : gset (list string))
  : list (string * (list string * Z)) :=
  match installed_agents with
  | [] => []
  | agent_key :: rest =>
    match dict_get agent_key AGENT_CONTEXT_PATHS with
    | None => discover fs project_path rest seen_paths
    | Some rel_path =>
      let full_path := (project_path ++ rel_path)%list in
      match fs !! full_path with
      | None => discover fs project_path rest seen_paths
      | Some f =>
        if decide (full_path ∈ seen_paths)
        then discover fs project_path rest seen_paths
        else (agent_key, (full_path, mtime f))
               :: discover fs project_path rest ({[full_path]} ∪ seen_paths)
      end
    end
  end.

(** What the propagation loop has done so far. [writes] lists the
    [write_text] calls, oldest first. *)
Record pass := Pass {
  files : gmap (list string) file;
  synced_targets : gset (list string);
  synced_count : nat;
  created_count : nat;
  writes : list (list string * string)
}.

(** Second loop of [sync_context_files]. [stamp n] is the modification
    time the file system gives to the [n]-th write of the pass. *)
Fixpoint propagate (stamp : nat -> Z) (project_path newest_path : list string)
    (body_content : string) (installed_agents : list string) (st : pass) : pass :=
  match installed_agents with
  | [] => st
  | agent_key :: rest =>
    match dict_get agent_key AGENT_CONTEXT_PATHS with
    | None => propagate stamp project_path newest_path body_content rest st
    | Some rel_path =>
      let target_path := (project_path ++ rel_path)%list in
      if decide (target_path = newest_path)
      then propagate stamp project_path newest_path body_content rest st
      else if decide (target_path ∈ synced_targets st)
      then propagate stamp project_path newest_path body_content rest st
      else
        let is_new := bool_decide (files st !! target_path = None) in
        let formatted := _format_context_for_agent agent_key body_content in
        propagate stamp project_path newest_path body_content rest
          {| files := <[target_path := File formatted (stamp (synced_count st))]> (files st);
             synced_targets := {[target_path]} ∪ synced_targets st;
             synced_count := S (synced_count st);
             created_count := if is_new then S (created_count st) else created_count st;
             writes := (writes st ++ [(target_path, formatted)])%list |}
    end
  end.

(** The outcome of one call: the file system afterwards, the agent
    named in the tracker message (if anything was synced from) and the
    counters of that message. *)
Record outcome := Outcome {
  out_files : gmap (list string) file;
  newest_agent : option string;
  out_synced : nat;
  out_created : nat;
  out_writes : list (list string * string)
}.

(** [sync_context_files] *)
Definition sync_context_files (stamp : nat -> Z) (installed_agents : list string)
    (project_path : list string) (fs : gmap (list string) file) : outcome :=
  match discover fs project_path installed_agents ∅ with
  | [] => Outcome fs None 0 0 []
  | c :: cs =>
    let newest := PyStr.max_by (fun e => snd (snd e)) c cs in
    let newest_path := fst (snd newest) in
    match fs !! newest_path with
    | None => Outcome fs None 0 0 []
    | Some f =>
      let body_content := _extract_markdown_body (content f) in
      let st := propagate stamp project_path newest_path body_content
                  installed_agents (Pass fs ∅ 0 0 []) in
      Outcome (files st) (Some (fst newest)) (synced_count st)
              (created_count st) (writes st)
    end
  end.

End ContextSync.

(** ** Working-tree synchroniser *)

Module WorkingSync.

(** One entry of [all_files[rel_str]]: agent key, full path and
    modification time. *)
Definition source : Type := string * list string * Z.


(** [project_path / agent_folder / subdir] *)
Definition working_dir (project_path : list string) (agent_folder : string)
    (subdir : list string) : list string :=
  (project_path ++ agent_folder :: subdir)%list.

(** [file_path.relative_to(working_dir)] for a path below [working_dir]. *)
Fixpoint relative_to (file_path working_dir : list string) : option (list string) :=
  match working_dir, file_path with
  | [], _ => Some file_path
  | d :: ds, c :: cs => if decide (c = d) then relative_to cs ds else None
  | _ :: _, [] => None
  end.

(** [if k not in d: d[k] = []] followed by [d[k].append(v)] *)
Fixpoint dict_append {K V : Type} `{EqDecision K} (k : K) (v : V)
    (d : list (K * list V)) : list (K * list V) :=
  match d with
  | [] => [(k, [v])]
  | (k', vs) :: d' =>
    if decide (k' = k) then (k', (vs ++ [v])%list) :: d'
    else (k', vs) :: dict_append k v d'
  end.

(** The walk [working_dir.rglob("*")] of one agent, over the files
    [entries] of the file system: every file strictly below
    [working_dir] is filed under its relative path. *)
Fixpoint collect_agent (agent_key : string) (wd : list string)
    (entries : list (list string * file))
    (all_files : list (list string * list source)) : list (list string * list source) :=
  match entries with
  | [] => all_files
  | (file_path, f) :: rest =>
    match relative_to file_path wd with
    | Some (c :: rel) =>
      collect_agent agent_key wd rest
        (dict_append (c :: rel) (agent_key, file_path, mtime f) all_files)
    | _ => collect_agent agent_key wd rest all_files
    end
  end.

(** First loop over the agents, for one [subdir]. *)
Fixpoint collect (fs : gmap (list string) file) (project_path subdir : list string)
    (installed_agents : list string) (all_files : list (list string * list source))
  : option (list (list string * list source)) :=
  match installed_agents with
  | [] => Some all_files
  | agent_key :: rest =>
    folder ← agent_folder agent_key;
    collect fs project_path subdir rest
      (collect_agent agent_key (working_dir project_path folder subdir)
         (map_to_list fs) all_files)
  end.

(** The loop "copy to all other agent dirs" for one relative path. The
    state is the file system and [total_synced]. *)
Fixpoint copy_to_others (project_path subdir rel : list string)
    (newest_agent : string) (newest_path : list string) (newest_mtime : Z)
    (newest_content : string) (installed_agents : list string)
    (st : gmap (list string) file * nat) : option (gmap (list string) file * nat) :=
  match installed_agents with
  | [] => Some st
  | agent_key :: rest =>
    if decide (agent_key = newest_agent)
    then copy_to_others project_path subdir rel newest_agent newest_path
           newest_mtime newest_content rest st
    else
      folder ← agent_folder agent_key;
      let target_path := (working_dir project_path folder subdir ++ rel)%list in
      let up_to_date :=
        match st.1 !! target_path with
        | Some tf => bool_decide (mtime tf >= newest_mtime)
        | None => false
        end in
      if up_to_date
      then copy_to_others project_path subdir rel newest_agent newest_path
             newest_mtime newest_content rest st
      else
        (* write_bytes, then copystat from the source as it is now *)
        nf ← st.1 !! newest_path;
        copy_to_others project_path subdir rel newest_agent newest_path
          newest_mtime newest_content rest
          (<[target_path := File newest_content (mtime nf)]> st.1, S st.2)
  end.

(** The body of the loop over [all_files.items()]. [max] of an empty
    list and reading a missing file raise. *)
Definition sync_one (project_path subdir : list string) (installed_agents : list string)
    (rel : list string) (sources : list source)
    (st : gmap (list string) file * nat) : option (gmap (list string) file * nat) :=
  match sources with
  | [] => None
  | s :: ss =>
    let '(newest_agent, newest_path, newest_mtime) := PyStr.max_by (fun x => x.2) s ss in
    nf ← st.1 !! newest_path;
    copy_to_others project_path subdir rel newest_agent newest_path newest_mtime
      (content nf) installed_agents st
  end.

Fixpoint sync_all (project_path subdir : list string) (installed_agents : list string)
    (all_files : list (list string * list source))
    (st : gmap (list string) file * nat) : option (gmap (list string) file * nat) :=
  match all_files with
  | [] => Some st
  | (rel, sources) :: rest =>
    st' ← sync_one project_path subdir installed_agents rel sources st;
    sync_all project_path subdir installed_agents rest st'
  end.

(** One iteration of [for subdir in sync_subdirs]. *)
Definition sync_subdir (project_path : list string) (installed_agents : list string)
    (subdir : list string) (st : gmap (list string) file * nat)
  : option (gmap (list string) file * nat) :=
  all_files ← collect st.1 project_path subdir installed_agents [];
  sync_all project_path subdir installed_agents all_files st.

(** [sync_agent_working_files]: the file system afterwards and
    [total_synced], or [None] when the call raises. *)
Definition sync_agent_working_files (installed_agents : list string)
    (project_path : list string) (fs : gmap (list string) file)
  : option (gmap (list string) file * nat) :=
  st ← sync_subdir project_path installed_agents ["skills"] (fs, O);
  sync_subdir project_path installed_agents ["agents"; "specforge"] st.

End WorkingSync.


(** ** Agent detection and the agent list of [update] *)

Module Update.

(** Some entry of directory [dir] has a name accepted by [name_ok]. An
    entry is the first component below [dir] of a file of the tree, so
    a sub-directory counts when it holds a file. *)
Definition has_entry (fs : gmap (list string) file) (dir : list string)
    (name_ok : string -> bool) : bool :=
  existsb (fun e => match WorkingSync.relative_to e.1 dir with
                    | Some (name :: _) => name_ok name
                    | _ => false
                    end) (map_to_list fs).

(** [detect_installed_agents]: the agents whose command directory has
    an entry matching [specforge.*], in the order of
    [AGENT_COMMAND_DIRS]. *)
Definition detect_installed_agents (project_path : list string)
    (fs : gmap (list string) file) : list string :=
  omap (fun entry : string * (list string * string * string) =>
          let '(agent_key, (cmd_dir, _, _)) := entry in
          if has_entry fs (project_path ++ cmd_dir)%list
               (fun name => String.prefix "specforge." name)
          then Some agent_key else None)
       AGENT_COMMAND_DIRS.

(** [list(dict.fromkeys(l))]: the first occurrence of every element,
    in order. [acc] holds the keys inserted so far. *)
Fixpoint fromkeys (acc l : list string) : list string :=
  match l with
  | [] => acc
  | x :: l' => fromkeys (if decide (x ∈ acc) then acc else (acc ++ [x])%list) l'
  end.

(** The loop over [add] of [update]: [None] stands for
    [typer.Exit(1)] on an agent that is not in [AGENT_CONFIG]. *)
Fixpoint agents_to_add (installed add : list string) (acc : list string)
  : option (list string) :=
  match add with
  | [] => Some acc
  | agent_key :: rest =>
    match dict_get agent_key AGENT_CONFIG with
    | None => None
    | Some _ =>
      if decide (agent_key ∈ installed)
      then agents_to_add installed rest acc
      else agents_to_add installed rest (acc ++ [agent_key])%list
    end
  end.

(** [all_agents] of [update], from the detected agents and [--add]. *)
Definition all_agents (installed add : list string) : option (list string) :=
  to_add ← agents_to_add installed add [];
  Some (fromkeys [] (installed ++ to_add)%list).

End Update.


(** ** Shared-resource updater *)

Module SharedResources.

(** The file system with its directories: regular files by path, and
    the set of directories. Every directory that exists is in [dirs]. *)
Record tree := Tree {
  files : gmap (list string) file;
  dirs : gset (list string)
}.

Definition is_file (t : tree) (p : list string) : bool :=
  bool_decide (is_Some (files t !! p)).

Definition is_dir (t : tree) (p : list string) : bool :=
  bool_decide (p ∈ dirs t).

(** [p.exists()] *)
Definition path_exists (t : tree) (p : list string) : bool :=
  is_file t p || is_dir t p.

(** A computation on the file system that returns a value or raises;
    the file system is kept in both cases. *)
Definition M (A : Type) : Type := tree -> option A * tree.

Definition ret {A : Type} (a : A) : M A := fun t => (Some a, t).
Definition raise {A : Type} : M A := fun t => (None, t).
Definition bind {A B : Type} (m : M A) (k : A -> M B) : M B :=
  fun t => match m t with
           | (Some a, t') => k a t'
           | (None, t') => (None, t')
           end.
Definition get : M tree := fun t => (Some t, t).

(** [try: m; except OSError: record the error], the result telling
    whether [m] went through. *)
Definition attempt {A : Type} (m : M A) : M bool :=
  fun t => match m t with
           | (Some _, t') => (Some true, t')
           | (None, t') => (Some false, t')
           end.

(** Run [body] on every element, one after the other; the first
    exception ends the loop. *)
Fixpoint for_each {A : Type} (l : list A) (body : A -> M unit) : M unit :=
  match l with
  | [] => ret tt
  | x :: l' => bind (body x) (fun _ => for_each l' body)
  end.

(** Run [body] on every element and tell whether all went through. *)
Fixpoint for_all {A : Type} (l : list A) (body : A -> M bool) : M bool :=
  match l with
  | [] => ret true
  | x :: l' => bind (body x) (fun ok => bind (for_all l' body) (fun oks => ret (ok && oks)))
  end.

(** The non-empty prefixes of a path, the path last. *)
Definition ancestors_and_self (p : list string) : list (list string) :=
  map (fun n => take n p) (seq 1 (length p)).

(** [p.mkdir(parents=True, exist_ok=True)] and [os.makedirs(p,
    exist_ok=True)]: raises when [p] or one of its parents is a file. *)
Definition mkdir_p (p : list string) : M unit :=
  fun t =>
    if existsb (is_file t) (ancestors_and_self p) then (None, t)
    else (Some tt, Tree (files t) (dirs t ∪ list_to_set (ancestors_and_self p))).

(** [shutil.rmtree(p)]: everything at and below [p] goes; raises when
    [p] is not a directory. *)
Definition rmtree (p : list string) : M unit :=
  fun t =>
    if is_dir t p
    then (Some tt, Tree (filter (fun kv => ¬ p `prefix_of` kv.1) (files t))
                        (filter (fun d => ¬ p `prefix_of` d) (dirs t)))
    else (None, t).

Definition parent (p : list string) : list string := take (length p - 1) p.

(** [shutil.copy2(src, dst)]: into [dst] when [dst] is a directory,
    onto [dst] otherwise, content and times together. Raises when [src]
    is no file, when the target is [src] itself or a directory, and when
    the directory of the target is missing. *)
Definition copy2 (src dst : list string) : M unit :=
  fun t =>
    let target := if is_dir t dst
                  then match last src with
                       | Some name => (dst ++ [name])%list
                       | None => dst
                       end
                  else dst in
    match files t !! src with
    | None => (None, t)
    | Some f =>
      if bool_decide (src = target) || is_dir t target || negb (is_dir t (parent target))
      then (None, t)
      else (Some tt, Tree (<[target := f]> (files t)) (dirs t))
    end.

(** The names of the files directly in [d]. *)
Definition child_files (t : tree) (d : list string) : list string :=
  omap (fun e => match WorkingSync.relative_to e.1 d with
                 | Some [name] => Some name
                 | _ => None
                 end) (map_to_list (files t)).

(** The names of the directories directly in [d]. *)
Definition child_dirs (t : tree) (d : list string) : list string :=
  omap (fun q => match WorkingSync.relative_to q d with
                 | Some [name] => Some name
                 | _ => None
                 end) (elements (dirs t)).

(** [shutil.copytree(src, dst, dirs_exist_ok=True)] for a source at most
    [depth] directories deep: list [src], make [dst], copy every file
    with [copy2] and every directory by a nested call, collecting the
    errors of the entries and raising at the end if there was one. *)
Fixpoint copytree_depth (depth : nat) (src dst : list string) : M unit :=
  match depth with
  | O => raise
  | S n =>
    bind get (fun t =>
    if negb (is_dir t src) then raise else
    let names := child_files t src in
    let subdirs := child_dirs t src in
    bind (mkdir_p dst) (fun _ =>
    bind (for_all names (fun name =>
            attempt (copy2 (src ++ [name])%list (dst ++ [name])%list))) (fun ok1 =>
    bind (for_all subdirs (fun name =>
            attempt (copytree_depth n (src ++ [name])%list (dst ++ [name])%list))) (fun ok2 =>
    if ok1 && ok2 then ret tt else raise))))
  end.

(** No directory lies deeper than the longest path of the tree. *)
Definition depth_bound (t : tree) : nat :=
  S (foldr (fun d n => max (length d) n) O (elements (dirs t))).

Definition copytree (src dst : list string) : M unit :=
  fun t => copytree_depth (depth_bound t) src dst t.

(** "Copy any root-level script files" *)
Definition copy_root_files (src_dir dest_dir : list string) : M unit :=
  bind get (fun t =>
  if negb (is_dir t src_dir) then raise else
  for_each (child_files t src_dir) (fun name =>
    copy2 (src_dir ++ [name])%list (dest_dir ++ [name])%list)).

(** The loop over [templates_dir.iterdir()]: files by [copy2],
    directories by [copytree], the names in [skip] left out. *)
Definition copy_items (skip : list string) (src_dir dest_dir : list string) : M unit :=
  bind get (fun t =>
  if negb (is_dir t src_dir) then raise else
  bind (for_each (filter (fun name => name ∉ skip) (child_files t src_dir)) (fun name =>
          copy2 (src_dir ++ [name])%list (dest_dir ++ [name])%list)) (fun _ =>
  for_each (filter (fun name => name ∉ skip) (child_dirs t src_dir)) (fun name =>
    copytree (src_dir ++ [name])%list (dest_dir ++ [name])%list))).

(** [if p.exists(): m] *)
Definition when_exists (p : list string) (m : M unit) : M unit :=
  bind get (fun t => if path_exists t p then m else ret tt).

(** The branch of [update_shared_resources] taken with a bundle. *)
Definition update_from_bundle (project_path : list string) (script_type : string)
    (bundled_path : list string) : M bool :=
  let specify_dir := (project_path ++ [".specforge"])%list in
  let templates_dir := (bundled_path ++ ["templates"])%list in
  let scripts_dir := (bundled_path ++ ["scripts"])%list in
  let scripts_dest := (specify_dir ++ ["scripts"])%list in
  let templates_dest := (specify_dir ++ ["templates"])%list in
  bind (when_exists scripts_dir
          (bind (when_exists scripts_dest (rmtree scripts_dest)) (fun _ =>
           bind (mkdir_p scripts_dest) (fun _ =>
           bind (if decide (script_type = "sh")
                 then when_exists (scripts_dir ++ ["bash"])%list
                        (copytree (scripts_dir ++ ["bash"])%list
                                  (scripts_dest ++ ["bash"])%list)
                 else if decide (script_type = "ps")
                 then when_exists (scripts_dir ++ ["powershell"])%list
                        (copytree (scripts_dir ++ ["powershell"])%list
                                  (scripts_dest ++ ["powershell"])%list)
                 else ret tt) (fun _ =>
           copy_root_files scripts_dir scripts_dest))))) (fun _ =>
  bind (when_exists templates_dir
          (bind (mkdir_p templates_dest) (fun _ =>
           copy_items ["commands"; "vscode-settings.json"] templates_dir templates_dest)))
       (fun _ => ret true)).

(** The branch that downloads: [extracted] is [source_dir], the root of
    the unpacked archive, already in the file system, or [None] when
    fetching or unpacking raised. Any exception gives [False]. *)
Definition update_from_download (project_path : list string)
    (extracted : option (list string)) : M bool :=
  let specify_dir := (project_path ++ [".specforge"])%list in
  let scripts_dest := (specify_dir ++ ["scripts"])%list in
  let templates_dest := (specify_dir ++ ["templates"])%list in
  fun t =>
    match extracted with
    | None => (Some false, t)
    | Some source_dir =>
      let specforge_source := (source_dir ++ [".specforge"])%list in
      if negb (path_exists t specforge_source) then (Some false, t)
      else
        match bind (when_exists (specforge_source ++ ["scripts"])%list
                      (bind (when_exists scripts_dest (rmtree scripts_dest)) (fun _ =>
                       copytree (specforge_source ++ ["scripts"])%list scripts_dest)))
                (fun _ =>
                 when_exists (specforge_source ++ ["templates"])%list
                   (bind (mkdir_p templates_dest) (fun _ =>
                    copy_items [] (specforge_source ++ ["templates"])%list templates_dest)))
                t with
        | (Some _, t') => (Some true, t')
        | (None, t') => (Some false, t')
        end
    end.

(** [update_shared_resources]: the result is [Some b] for [return b]
    and [None] for an exception, with the file system left behind. *)
Definition update_shared_resources (project_path : list string) (script_type : string)
    (bundled_path : option (list string)) (force_download : bool)
    (extracted : option (list string)) : M bool :=
  match bundled_path with
  | Some bundled =>
    if force_download then update_from_download project_path extracted
    else update_from_bundle project_path script_type bundled
  | None => update_from_download project_path extracted
  end.

End SharedResources.


(** ** JSON deep merge *)

Module JsonMerge.

(** The values [json.load] returns. A number is kept as its literal. *)
Inductive json : Type :=
| JNull
| JBool (b : bool)
| JNum (literal : string)
| JStr (s : string)
| JArr (items : list json)
| JObj (members : list (string * json)).

(** [d[k] = v] on a dictionary kept in insertion order. *)
Fixpoint dict_set {V : Type} (k : string) (v : V) (d : list (string * V))
  : list (string * V) :=
  match d with
  | [] => [(k, v)]
  | (k', v') :: d' =>
    if decide (k' = k) then (k', v) :: d' else (k', v') :: dict_set k v d'
  end.

(** The value stored under a key by one iteration of the loop of
    [deep_merge]: [old] is [result.get(key)], [value] the new value.
    Two dictionaries are merged by the same loop, anything else is
    replaced by [value]. *)
Fixpoint merge_value (value : json) (old : option json) {struct value} : json :=
  match value with
  | JObj update =>
    match old with
    | Some (JObj base) =>
      JObj ((fix loop (upd : list (string * json)) (result : list (string * json))
               {struct upd} : list (string * json) :=
               match upd with
               | [] => result
               | (key, v) :: rest =>
                 loop rest (dict_set key (merge_value v (dict_get key result)) result)
               end) update base)
    | _ => value
    end
  | _ => value
  end.

(** [deep_merge(base, update)]: [result = base.copy()], then one
    assignment per item of [update]. *)
Fixpoint deep_merge (base update : list (string * json)) {struct update}
  : list (string * json) :=
  match update with
  | [] => base
  | (key, value) :: rest =>
    deep_merge (dict_set key (merge_value value (dict_get key base)) base) rest
  end.

(** What opening and parsing [existing_path] gives. *)
Inductive existing_file : Type :=
| Missing                 (* FileNotFoundError *)
| Invalid                 (* json.JSONDecodeError *)
| Parsed (j : json).

(** [merge_json_files]; [None] stands for an exception that leaves the
    function: [base.copy()] on a value without [copy], or a string
    index into a list. *)
Definition merge_json_files (existing : existing_file)
    (new_content : list (string * json)) : option json :=
  match existing with
  | Missing | Invalid => Some (JObj new_content)
  | Parsed (JObj existing_content) => Some (JObj (deep_merge existing_content new_content))
  | Parsed (JArr items) =>
    match new_content with
    | [] => Some (JArr items)
    | _ :: _ => None
    end
  | Parsed _ => None
  end.

End JsonMerge.


(** ** Template renderer: substitutions *)

Module Renderer.

(** [s.replace(old, new)] for a non-empty [old], scanning left to right:
    [skip] counts the characters of the current occurrence still to be
    dropped. *)
Fixpoint replace_from (old new : string) (skip : nat) (s : string) : string :=
  match s with
  | EmptyString => EmptyString
  | String c s' =>
    match skip with
    | S k => replace_from old new k s'
    | O =>
      if String.prefix old s
      then new +:+ replace_from old new (String.length old - 1) s'
      else String c (replace_from old new O s')
    end
  end.

(** [s.replace("", new)] puts [new] before every character and at the
    end. *)
Fixpoint intersperse (new s : string) : string :=
  match s with
  | EmptyString => new
  | String c s' => new +:+ String c (intersperse new s')
  end.

(** [s.replace(old, new)] *)
Definition replace (old new s : string) : string :=
  match old with
  | EmptyString => intersperse new s
  | String _ _ => replace_from old new O s
  end.

(** The placeholders of [generate_agent_commands] with their values, in
    the order of the [content.replace] statements. *)
Definition agent_placeholders (ai_assistant : string) (agent_cfg : agent_cfg)
  : list (string * string) :=
  [ ("__AGENT_DIR__", PyStr.rstrip_slash (cfg_folder agent_cfg));
    ("__AGENT_NAME__", cfg_name agent_cfg);
    ("__AGENT_CONTEXT_FILE__", cfg_context_file agent_cfg);
    ("__AGENT_CONTEXT_GLOB__", cfg_context_glob agent_cfg);
    ("__AGENT_PROJECT_DIR_ENV__", cfg_project_dir_env agent_cfg);
    ("__AGENT__", ai_assistant) ].

(** The statements from [content.replace("__AGENT_DIR__", agent_dir)] to
    [content.replace("__AGENT__", ai_assistant)]. *)
Definition substitute_agent_placeholders (ai_assistant : string) (agent_cfg : agent_cfg)
    (content : string) : string :=
  fold_left (fun content ph => replace ph.1 ph.2 content)
            (agent_placeholders ai_assistant agent_cfg) content.

(** The class [\s] of [re] on [str] patterns, for code points below
    256: TAB to CR, FS to US, space, NEL and NBSP. *)
Definition is_space (c : ascii) : bool :=
  let n := nat_of_ascii c in
  ((9 <=? n) && (n <=? 13) || (28 <=? n) && (n <=? 32)
   || (n =? 133) || (n =? 160))%nat.

(** [^] under [re.MULTILINE]: the start of the text or just after a
    newline. The argument is the character before the position. *)
Definition line_start (prev : option ascii) : bool :=
  match prev with
  | None => true
  | Some c => bool_decide (c = "010"%char)
  end.

(** The lookbehind: the character before is in [\s], a backtick, a
    double quote or a single quote. *)
Definition after_delimiter (prev : option ascii) : bool :=
  match prev with
  | None => false
  | Some c => is_space c || bool_decide (c = "`"%char)
              || bool_decide (c = "034"%char) || bool_decide (c = "'"%char)
  end.

(** The length of the match of [(/?){path}/] at the head of [s], the
    optional slash being tried first. *)
Definition match_len (path s : string) : option nat :=
  if String.prefix ("/" +:+ path +:+ "/") s then Some (String.length path + 2)%nat
  else if String.prefix (path +:+ "/") s then Some (String.length path + 1)%nat
  else None.

(** [re.sub] of one of the two patterns by [.specforge/{path}/]:
    [anchor] is the zero-width test before [(/?){path}/], [prev] the
    character before the position, [skip] the characters of the current
    match still to be passed. *)
Fixpoint sub_path (anchor : option ascii -> bool) (path : string) (skip : nat)
    (prev : option ascii) (s : string) : string :=
  match s with
  | EmptyString => EmptyString
  | String c s' =>
    match skip with
    | S k => sub_path anchor path k (Some c) s'
    | O =>
      match (if anchor prev then match_len path s else None) with
      | Some n => ".specforge/" +:+ path +:+ "/" +:+ sub_path anchor path (n - 1) (Some c) s'
      | None => String c (sub_path anchor path O (Some c) s')
      end
    end
  end.

(** [_rewrite_paths_for_bundled] *)
Definition _rewrite_paths_for_bundled (content : string) : string :=
  fold_left (fun content path =>
               let content := sub_path line_start path O None content in
               sub_path after_delimiter path O None content)
            ["memory"; "scripts"; "templates"] content.

End Renderer.


(** ** Step tracker *)

Module StepTracker.

(** One entry of [self.steps]. *)
Record step := Step { key : string; label : string; status : string; detail : string }.

(** The methods act on [self.steps]. The refresh callback is left out:
    [_maybe_refresh] swallows what it raises. *)
Definition add (k l : string) (steps : list step) : list step :=
  if decide (k ∈ map key steps) then steps
  else (steps ++ [Step k l "pending" ""])%list.

(** [_update]: the first step with the key gets the status, and the
    detail when it is not empty; without such a step one is appended,
    labelled by its key. *)
Fixpoint _update (k st d : string) (steps : list step) : list step :=
  match steps with
  | [] => [Step k k st d]
  | s :: rest =>
    if decide (key s = k)
    then Step (key s) (label s) st (if decide (d = "") then detail s else d) :: rest
    else s :: _update k st d rest
  end.

Definition start (k d : string) : list step -> list step := _update k "running" d.
Definition complete (k d : string) : list step -> list step := _update k "done" d.
Definition error (k d : string) : list step -> list step := _update k "error" d.
Definition skip (k d : string) : list step -> list step := _update k "skipped" d.

(** A call of one of the five methods. *)
Inductive call : Type :=
| Add (k l : string)
| Start (k d : string)
| Complete (k d : string)
| Error (k d : string)
| Skip (k d : string).

Definition call_key (c : call) : string :=
  match c with
  | Add k _ | Start k _ | Complete k _ | Error k _ | Skip k _ => k
  end.

(** The status a call sets; [add] sets none on a step that exists. *)
Definition call_status (c : call) : option string :=
  match c with
  | Add _ _ => None
  | Start _ _ => Some "running"
  | Complete _ _ => Some "done"
  | Error _ _ => Some "error"
  | Skip _ _ => Some "skipped"
  end.

Definition call_detail (c : call) : string :=
  match c with
  | Add _ _ => ""
  | Start _ d | Complete _ d | Error _ d | Skip _ d => d
  end.

Definition apply_call (c : call) (steps : list step) : list step :=
  match c with
  | Add k l => add k l steps
  | Start k d => start k d steps
  | Complete k d => complete k d steps
  | Error k d => error k d steps
  | Skip k d => skip k d steps
  end.

(** A tracker after a sequence of calls, from [StepTracker(title)]. *)
Definition run (calls : list call) : list step :=
  fold_left (fun steps c => apply_call c steps) calls [].

(** The step of a key: the first one that has it. *)
Fixpoint step_of (k : string) (steps : list step) : option step :=
  match steps with
  | [] => None
  | s :: rest => if decide (key s = k) then Some s else step_of k rest
  end.

End StepTracker.



(** ** Execute bits of the shell scripts *)

Module ExecutableScripts.

(** A regular file as [ensure_executable_scripts] reads it: its bytes
    and its [st_mode]. There are no symbolic links. *)
Record script := Script { data : string; st_mode : Z }.

(** [s.endswith(suffix)] *)
Definition endswith (s suffix : string) : bool :=
  (String.length suffix <=? String.length s)%nat
  && bool_decide (PyStr.drop (String.length s - String.length suffix) s = suffix).

(** The regular files that [scripts_root.rglob("*.sh")] yields: below
    the root, with a name that ends in [.sh]. *)
Definition rglob_sh (scripts_root p : list string) : bool :=
  bool_decide (scripts_root `prefix_of` p)
  && match last (drop (length scripts_root) p) with
     | Some name => endswith name ".sh"
     | None => false
     end.

(** The tests of the loop body before the mode is computed: the file
    starts with [#!] and [mode & 0o111] is zero. *)
Definition needs_chmod (f : script) : bool :=
  String.prefix "#!" (data f) && bool_decide (Z.land (st_mode f) 73 = 0).

(** [new_mode]: 0o400 is 256, 0o100 is 64, 0o040 is 32, 0o010 is 8,
    0o004 is 4, 0o001 is 1. *)
Definition new_mode (mode : Z) : Z :=
  let new_mode := mode in
  let new_mode := if decide (Z.land mode 256 <> 0) then Z.lor new_mode 64 else new_mode in
  let new_mode := if decide (Z.land mode 32 <> 0) then Z.lor new_mode 8 else new_mode in
  let new_mode := if decide (Z.land mode 4 <> 0) then Z.lor new_mode 1 else new_mode in
  if decide (Z.land new_mode 64 = 0) then Z.lor new_mode 64 else new_mode.

(** The files that reach [os.chmod]. [may_chmod] tells for which paths
    [os.chmod] returns; for the others it raises and the path is
    appended to [failures]. *)
Definition reaches_chmod (scripts_root : list string) (p : list string) (f : script) : bool :=
  rglob_sh scripts_root p && needs_chmod f.

Definition count (sel : list string -> script -> bool) (fs : gmap (list string) script) : nat :=
  length (filter (fun e : list string * script => sel e.1 e.2) (map_to_list fs)).

(** [updated] at the end of the loop. *)
Definition updated_count (may_chmod : list string -> bool) (scripts_root : list string)
    (fs : gmap (list string) script) : nat :=
  count (fun p f => reaches_chmod scripts_root p f && may_chmod p) fs.

(** [len(failures)] at the end of the loop. *)
Definition failure_count (may_chmod : list string -> bool) (scripts_root : list string)
    (fs : gmap (list string) script) : nat :=
  count (fun p f => reaches_chmod scripts_root p f && negb (may_chmod p)) fs.

(** The files after the loop. Every file is visited once and on its
    own, so the order of [rglob] does not show in the result. *)
Definition chmod_scripts (may_chmod : list string -> bool) (scripts_root : list string)
    (fs : gmap (list string) script) : gmap (list string) script :=
  map_imap (fun p f =>
              Some (if reaches_chmod scripts_root p f && may_chmod p
                    then Script (data f) (new_mode (st_mode f)) else f)) fs.

(** [f"{n}"] *)
Definition show (n : nat) : string := NilEmpty.string_of_uint (Nat.to_uint n).

(** [ensure_executable_scripts]: [posix] is [os.name != "nt"], [dirs]
    the directories, [tracker] the steps of the tracker when one is
    given. The console output of the other case is left out. *)
Definition ensure_executable_scripts (posix : bool) (may_chmod : list string -> bool)
    (project_path : list string) (tracker : option (list StepTracker.step))
    (dirs : gset (list string)) (fs : gmap (list string) script)
  : gmap (list string) script * option (list StepTracker.step) :=
  if negb posix then (fs, tracker) else
  let scripts_root := (project_path ++ [".specforge"; "scripts"])%list in
  if negb (bool_decide (scripts_root ∈ dirs)) then (fs, tracker) else
  let updated := updated_count may_chmod scripts_root fs in
  let failures := failure_count may_chmod scripts_root fs in
  let fs := chmod_scripts may_chmod scripts_root fs in
  match tracker with
  | Some steps =>
    let detail := show updated +:+ " updated"
                  +:+ (if (failures =? 0)%nat then ""
                       else ", " +:+ show failures +:+ " failed") in
    let steps := StepTracker.add "chmod" "Set script permissions recursively" steps in
    (fs, Some ((if (failures =? 0)%nat then StepTracker.complete else StepTracker.error)
                 "chmod" detail steps))
  | None => (fs, None)
  end.

End ExecutableScripts.



(** ** Command generation *)

Module Generate.
Import SharedResources.

(** *** Text of a template *)

Definition cr : string := String "013" EmptyString.
Definition dq : string := String "034" EmptyString.
Definition backslash : string := String "092" EmptyString.

(** [s.lstrip()] *)
Fixpoint lstrip (s : string) : string :=
  match s with
  | String c s' => if Renderer.is_space c then lstrip s' else s
  | EmptyString => EmptyString
  end.

(** [s.rstrip()] *)
Fixpoint rstrip (s : string) : string :=
  match s with
  | EmptyString => EmptyString
  | String c s' =>
    match rstrip s' with
    | EmptyString => if Renderer.is_space c then EmptyString else String c EmptyString
    | r => String c r
    end
  end.

(** [s.strip()] *)
Definition strip (s : string) : string := rstrip (lstrip s).

(** The characters up to the end of the line. *)
Fixpoint line_of (s : string) : string :=
  match s with
  | EmptyString => EmptyString
  | String c s' => if decide (c = "010"%char) then EmptyString else String c (line_of s')
  end.

(** The length of the longest run of white space at the head. *)
Fixpoint space_run (s : string) : nat :=
  match s with
  | String c s' => if Renderer.is_space c then S (space_run s') else O
  | EmptyString => O
  end.

(** [\s*(.+)$] under [re.MULTILINE] at the head of [s], the value of
    group 1: [\s*] has taken [m] characters and gives them back one by
    one until [.] finds a character that is not a newline; [.+] then
    runs to the end of the line. *)
Fixpoint value_after (m : nat) (s : string) : option string :=
  let here := match PyStr.drop m s with
              | String c r =>
                if decide (c = "010"%char) then None else Some (line_of (String c r))
              | EmptyString => None
              end in
  match here, m with
  | Some g, _ => Some g
  | None, S m' => value_after m' s
  | None, O => None
  end.

Definition group1 (s : string) : option string := value_after (space_run s) s.

(** [re.search] under [re.MULTILINE] of a pattern that starts with [^]:
    [rest] matches what follows [^] at a position and gives group 1;
    the positions are tried from the left, [at_start] telling whether
    the current one starts a line. *)
Fixpoint search_lines (rest : string -> option string) (at_start : bool) (s : string)
  : option string :=
  match (if at_start then rest s else None) with
  | Some g => Some g
  | None =>
    match s with
    | EmptyString => None
    | String c s' => search_lines rest (bool_decide (c = "010"%char)) s'
    end
  end.

(** [description], from [^description:\s*(.+)$]. *)
Definition description_of (content : string) : string :=
  match search_lines (fun s => if String.prefix "description:" s
                               then group1 (PyStr.drop 12 s) else None) true content with
  | Some g => strip g
  | None => ""
  end.

(** [script_command], from [^\s*{script_variant}:\s*(.+)$]. The variant
    is taken as literal text, as it is for [sh] and [ps], which have no
    character that is special in a pattern. *)
Definition script_command_of (script_variant content : string) : string :=
  match search_lines (fun s =>
                        let s := PyStr.drop (space_run s) s in
                        if String.prefix (script_variant +:+ ":") s
                        then group1 (PyStr.drop (String.length script_variant + 1) s)
                        else None) true content with
  | Some g => strip g
  | None => ""
  end.

(** [s.split("\n")] *)
Fixpoint split_nl (s : string) : list string :=
  match s with
  | EmptyString => [EmptyString]
  | String c s' =>
    if decide (c = "010"%char) then EmptyString :: split_nl s'
    else match split_nl s' with
         | line :: rest => String c line :: rest
         | [] => [String c EmptyString]
         end
  end.

(** ["\n".join(lines)] *)
Fixpoint join_nl (lines : list string) : string :=
  match lines with
  | [] => EmptyString
  | [line] => line
  | line :: rest => line +:+ PyStr.nl +:+ join_nl rest
  end.

Fixpoint all_space (s : string) : bool :=
  match s with
  | EmptyString => true
  | String c s' => Renderer.is_space c && all_space s'
  end.

(** [re.match(r'^key\s*$', line)] on a line without newline. *)
Definition is_header (key line : string) : bool :=
  String.prefix key line && all_space (PyStr.drop (String.length key) line).

(** The loop that drops the [scripts:] and [agent_scripts:] sections. *)
Fixpoint filter_sections (skip_section : bool) (lines : list string) : list string :=
  match lines with
  | [] => []
  | line :: rest =>
    if is_header "scripts:" line || is_header "agent_scripts:" line
    then filter_sections true rest
    else if skip_section && String.prefix "  " line
    then filter_sections skip_section rest
    else
      let skip_section :=
        if skip_section
           && (String.prefix "---" line
               || (negb (bool_decide (line = "")) && negb (String.prefix " " line)))
        then false else skip_section in
      if skip_section then filter_sections skip_section rest
      else line :: filter_sections skip_section rest
  end.

(** The body of the loop over the templates, from the normalisation of
    the line endings to [_rewrite_paths_for_bundled]: the description
    and the content. *)
Definition render_template (ai_assistant script_variant arg_format : string)
    (cfg : agent_cfg) (content : string) : string * string :=
  let content := Renderer.replace cr PyStr.nl
                   (Renderer.replace (cr +:+ PyStr.nl) PyStr.nl content) in
  let description := description_of content in
  let script_command := script_command_of script_variant content in
  let content := Renderer.replace "{SCRIPT}" script_command content in
  let content := join_nl (filter_sections false (split_nl content)) in
  let content := Renderer.replace "{ARGS}" arg_format content in
  let content := Renderer.substitute_agent_placeholders ai_assistant cfg content in
  let content := Renderer._rewrite_paths_for_bundled content in
  (description, content).

(** "Write output file": the name and the content of the artifact. *)
Definition artifact (file_ext name description content : string) : string * string :=
  if decide (file_ext = "toml") then
    ("specforge." +:+ name +:+ ".toml",
     "description = " +:+ dq +:+ description +:+ dq +:+ PyStr.nl +:+ PyStr.nl
     +:+ "prompt = " +:+ dq +:+ dq +:+ dq +:+ PyStr.nl
     +:+ Renderer.replace backslash (backslash +:+ backslash) content +:+ PyStr.nl
     +:+ dq +:+ dq +:+ dq +:+ PyStr.nl)
  else if decide (file_ext = "agent.md") then
    ("specforge." +:+ name +:+ ".agent.md", content)
  else
    ("specforge." +:+ name +:+ ".md", content).

(** *** Paths *)

(** [name.rfind(".")] *)
Fixpoint rfind_dot (s : string) : option nat :=
  match s with
  | EmptyString => None
  | String c s' =>
    match rfind_dot s' with
    | Some i => Some (S i)
    | None => if decide (c = "."%char) then Some O else None
    end
  end.

(** [path.stem]: the name up to its last dot, when that dot is neither
    its first nor its last character. *)
Definition stem (name : string) : string :=
  match rfind_dot name with
  | Some i =>
    if ((0 <? i) && (i <? String.length name - 1))%nat
    then String.substring 0 i name else name
  | None => name
  end.

(** [directory.glob(pattern)] for a pattern without separator: the
    entries of the directory, files and directories, whose name
    matches; nothing when [directory] is no directory. The entries are
    taken in the order of the file map, files first. *)
Definition glob (directory : list string) (matches : string -> bool) : M (list string) :=
  fun t => (Some (filter (fun name => matches name)
                         (child_files t directory ++ child_dirs t directory)%list), t).

(** [fnmatch] of [*.md] *)
Definition is_md (name : string) : bool := ExecutableScripts.endswith name ".md".

(** [fnmatch] of [specforge.*.agent.md] *)
Definition is_agent_md (name : string) : bool :=
  String.prefix "specforge." name && ExecutableScripts.endswith name ".agent.md"
  && (19 <=? String.length name)%nat.

(** [p.read_text()]: raises when [p] is no file. *)
Definition read_text (p : list string) : M string :=
  fun t => match files t !! p with
           | Some f => (Some (content f), t)
           | None => (None, t)
           end.

(** [p.write_text(s)] at time [now]: raises when [p] is a directory or
    its parent is none. *)
Definition write_text (now : Z) (p : list string) (s : string) : M unit :=
  fun t =>
    if is_dir t p || negb (is_dir t (parent p)) then (None, t)
    else (Some tt, Tree (<[p := File s now]> (files t)) (dirs t)).

Section Codec.

(** [json.load] on the text of a file, [None] for [JSONDecodeError],
    and [json.dump(_, indent=4)]. *)
Variable json_load : string -> option JsonMerge.json.
Variable json_dump : JsonMerge.json -> string.

(** What [merge_json_files] finds at [existing_path]; opening a
    directory raises. *)
Definition load_existing (existing_path : list string) : M JsonMerge.existing_file :=
  fun t =>
    match files t !! existing_path with
    | Some f =>
      (Some (match json_load (content f) with
             | Some j => JsonMerge.Parsed j
             | None => JsonMerge.Invalid
             end), t)
    | None => if is_dir t existing_path then (None, t) else (Some JsonMerge.Missing, t)
    end.

(** [merge_json_files] on new settings that need not be a dictionary:
    without a parsed existing file they are returned, with one
    [update.items()] raises. *)
Definition merge_settings (existing : JsonMerge.existing_file) (new_settings : JsonMerge.json)
  : option JsonMerge.json :=
  match new_settings with
  | JsonMerge.JObj new_content => JsonMerge.merge_json_files existing new_content
  | _ =>
    match existing with
    | JsonMerge.Parsed _ => None
    | _ => Some new_settings
    end
  end.

(** [handle_vscode_settings]: whatever the [try] block raises, the file
    is copied instead. *)
Definition handle_vscode_settings (now : Z) (sub_item dest_file : list string) : M unit :=
  fun t =>
    match bind (read_text sub_item) (fun text =>
            match json_load text with
            | None => raise
            | Some new_settings =>
              bind get (fun t =>
              if path_exists t dest_file then
                bind (load_existing dest_file) (fun existing =>
                match merge_settings existing new_settings with
                | None => raise
                | Some merged => write_text now dest_file (json_dump merged +:+ PyStr.nl)
                end)
              else copy2 sub_item dest_file)
            end) t with
    | (Some _, t') => (Some tt, t')
    | (None, t') => copy2 sub_item dest_file t'
    end.

(** "Handle copilot-specific prompt files" and "Create VS Code
    settings". *)
Definition copilot_files (now : Z) (target_dir templates_dir output_dir : list string)
  : M unit :=
  let prompts_dir := (target_dir ++ [".github"; "prompts"])%list in
  let vscode_dir := (target_dir ++ [".vscode"])%list in
  let vscode_settings := (templates_dir ++ ["vscode-settings.json"])%list in
  bind (mkdir_p prompts_dir) (fun _ =>
  bind (glob output_dir is_agent_md) (fun agent_files =>
  bind (for_each agent_files (fun file_name =>
          let basename := Renderer.replace ".agent" "" (stem file_name) in
          write_text now (prompts_dir ++ [basename +:+ ".prompt.md"])%list
            ("---" +:+ PyStr.nl +:+ "agent: " +:+ basename +:+ PyStr.nl
             +:+ "---" +:+ PyStr.nl))) (fun _ =>
  bind (mkdir_p vscode_dir) (fun _ =>
  when_exists vscode_settings
    (handle_vscode_settings now vscode_settings (vscode_dir ++ ["settings.json"])%list))))).

(** "Copy agent-specific files" *)
Definition agent_specific_files (ai_assistant : string)
    (target_dir agent_templates_dir : list string) : M unit :=
  when_exists agent_templates_dir
    (when_exists (agent_templates_dir ++ [ai_assistant])%list
       (copy_root_files (agent_templates_dir ++ [ai_assistant])%list target_dir)).

(** The body of the loop over the templates. *)
Definition generate_one (now : Z) (ai_assistant script_type : string)
    (commands_source output_dir : list string) (file_ext arg_format : string)
    (file_name : string) : M unit :=
  bind (read_text (commands_source ++ [file_name])%list) (fun content =>
  match dict_get ai_assistant AGENT_CONFIG with
  | None => raise
  | Some cfg =>
    let '(description, content) :=
      render_template ai_assistant script_type arg_format cfg content in
    let '(out_name, out_content) :=
      artifact file_ext (stem file_name) description content in
    write_text now (output_dir ++ [out_name])%list out_content
  end).

(** [generate_agent_commands]: [Some b] for [return b], [None] for an
    exception, with the file system left behind; [now] is the time of
    the writes. *)
Definition generate_agent_commands (now : Z) (ai_assistant script_type : string)
    (target_dir bundled_path : list string) : M bool :=
  let templates_dir := (bundled_path ++ ["templates"])%list in
  let agent_templates_dir := (bundled_path ++ ["agent_templates"])%list in
  let commands_source := (templates_dir ++ ["commands"])%list in
  bind get (fun t =>
  if negb (path_exists t commands_source) then ret false else
  match dict_get ai_assistant AGENT_COMMAND_DIRS with
  | None => ret false
  | Some (cmd_dir, file_ext, arg_format) =>
    let output_dir := (target_dir ++ cmd_dir)%list in
    bind (mkdir_p output_dir) (fun _ =>
    bind (glob commands_source is_md) (fun templates =>
    bind (for_each templates
            (generate_one now ai_assistant script_type commands_source output_dir
               file_ext arg_format)) (fun _ =>
    bind (if decide (ai_assistant = "copilot")
          then copilot_files now target_dir templates_dir output_dir
          else ret tt) (fun _ =>
    bind (agent_specific_files ai_assistant target_dir agent_templates_dir) (fun _ =>
    ret true)))))
  end).

(** [build_template_from_bundled]: every exception after the first
    test gives [False]. The tracker and the console are left out. *)
Definition build_template_from_bundled (now : Z) (ai_assistant script_type : string)
    (target_dir bundled_path : list string) : M bool :=
  let templates_dir := (bundled_path ++ ["templates"])%list in
  let scripts_dir := (bundled_path ++ ["scripts"])%list in
  let memory_dir := (bundled_path ++ ["memory"])%list in
  let specify_dir := (target_dir ++ [".specforge"])%list in
  let scripts_dest := (specify_dir ++ ["scripts"])%list in
  let templates_dest := (specify_dir ++ ["templates"])%list in
  bind get (fun t =>
  if negb (path_exists t templates_dir) then ret false else
  fun t =>
    match bind (mkdir_p specify_dir) (fun _ =>
          bind (when_exists memory_dir
                  (copytree memory_dir (specify_dir ++ ["memory"])%list)) (fun _ =>
          bind (when_exists scripts_dir
                  (bind (mkdir_p scripts_dest) (fun _ =>
                   bind (if decide (script_type = "sh")
                         then when_exists (scripts_dir ++ ["bash"])%list
                                (copytree (scripts_dir ++ ["bash"])%list
                                          (scripts_dest ++ ["bash"])%list)
                         else if decide (script_type = "ps")
                         then when_exists (scripts_dir ++ ["powershell"])%list
                                (copytree (scripts_dir ++ ["powershell"])%list
                                          (scripts_dest ++ ["powershell"])%list)
                         else ret tt) (fun _ =>
                   copy_root_files scripts_dir scripts_dest)))) (fun _ =>
          bind (mkdir_p templates_dest) (fun _ =>
          bind (copy_items ["commands"; "vscode-settings.json"]
                  templates_dir templates_dest) (fun _ =>
          generate_agent_commands now ai_assistant script_type target_dir bundled_path)))))
          t with
    | (Some ok, t') => (Some ok, t')
    | (None, t') => (Some false, t')
    end).

End Codec.

End Generate.



(** ** Migration: merging [.specify] into [.specforge] *)

Module Migrate.
Import SharedResources.

(** The files below [d], by their path relative to [d]: what
    [d.rglob("*")] yields and [is_file] keeps. *)
Definition files_below (t : tree) (d : list string) : list (list string) :=
  omap (fun e => match WorkingSync.relative_to e.1 d with
                 | Some (name :: rest) => Some (name :: rest)
                 | _ => None
                 end) (map_to_list (files t)).

(** [str(rel).startswith("memory")]: the components are joined by
    slashes, and none is empty or holds a slash. *)
Definition starts_with_memory (rel : list string) : bool :=
  match rel with
  | name :: _ => String.prefix "memory" name
  | [] => false
  end.

(** The body of the loop over [old_specify_dir.rglob("*")]. *)
Definition merge_item (old_specify_dir new_specforge_dir rel : list string) : M unit :=
  let item := (old_specify_dir ++ rel)%list in
  let dest := (new_specforge_dir ++ rel)%list in
  bind get (fun t =>
  if negb (is_file t item) then ret tt
  else if starts_with_memory rel && path_exists t dest then ret tt
  else bind (mkdir_p (parent dest)) (fun _ => copy2 item dest)).

(** Step 1 of [migrate] when both directories exist: the old one is
    merged into the new one and removed. *)
Definition merge_specify_dir (project_path : list string) : M unit :=
  let old_specify_dir := (project_path ++ [".specify"])%list in
  let new_specforge_dir := (project_path ++ [".specforge"])%list in
  bind get (fun t =>
  bind (for_each (files_below t old_specify_dir)
          (merge_item old_specify_dir new_specforge_dir)) (fun _ =>
  rmtree old_specify_dir)).

(** The replacements of step 3 on the content of a command file. *)
Definition migrate_content (content : string) : string :=
  let new_content := Renderer.replace "/speckit." "/specforge." content in
  let new_content := Renderer.replace "speckit." "specforge." new_content in
  let new_content := Renderer.replace ".specify/" ".specforge/" new_content in
  Renderer.replace "SPECIFY_FEATURE" "SPECFORGE_FEATURE" new_content.

End Migrate.


(** ** GitHub token *)

Module GithubToken.

(** [a or b] on strings that may be [None]. *)
Definition or_else (a : option string) (b : string) : string :=
  match a with
  | Some (String c s) => String c s
  | _ => b
  end.

(** [_github_token]: [GH_TOKEN] and [GITHUB_TOKEN] are what
    [os.getenv] returns. *)
Definition _github_token (cli_token GH_TOKEN GITHUB_TOKEN : option string)
  : option string :=
  match Generate.strip (or_else cli_token (or_else GH_TOKEN (or_else GITHUB_TOKEN ""))) with
  | EmptyString => None
  | token => Some token
  end.

(** [_github_auth_headers], as the list of its items. *)
Definition _github_auth_headers (cli_token GH_TOKEN GITHUB_TOKEN : option string)
  : list (string * string) :=
  match _github_token cli_token GH_TOKEN GITHUB_TOKEN with
  | Some token => [("Authorization", "Bearer " +:+ token)]
  | None => []
  end.

End GithubToken.



(** * Facts about the Python primitives *)

Module PyStrFacts.

Lemma max_by_keep {A : Type} (key : A -> Z) (e : A) (l : list A) :
  (forall y, y ∈ l -> key y <= key e) -> PyStr.max_by key e l = e.
Proof.
  induction l as [|y l IH]; intros Hle; simpl; [done|].
  assert (key y <= key e) by (apply Hle; left).
  destruct (Z.ltb_spec (key e) (key y)); [lia|].
  apply IH. intros z Hz. apply Hle. by right.
Qed.

Lemma max_by_reach {A : Type} (key : A -> Z) (x : A) (l1 : list A) (e : A) (l2 : list A) :
  key x < key e ->
  (forall y, y ∈ l1 -> key y < key e) ->
  (forall y, y ∈ l2 -> key y <= key e) ->
  PyStr.max_by key x (l1 ++ e :: l2)%list = e.
Proof.
  revert x. induction l1 as [|y l1 IH]; intros x Hx H1 H2; simpl.
  - destruct (Z.ltb_spec (key x) (key e)); [|lia]. by apply max_by_keep.
  - apply IH; [|intros z Hz; apply H1; by right|done].
    assert (key y < key e) by (apply H1; left). by destruct (_ <? _).
Qed.

(** The first element of a non-empty sequence whose key is maximal is
    the result of [max]. *)
Lemma max_by_first {A : Type} (key : A -> Z) (c : A) (cs l1 l2 : list A) (e : A) :
  c :: cs = (l1 ++ e :: l2)%list ->
  (forall y, y ∈ l1 -> key y < key e) ->
  (forall y, y ∈ l2 -> key y <= key e) ->
  PyStr.max_by key c cs = e.
Proof.
  intros Heq H1 H2. destruct l1 as [|y l1]; simpl in Heq.
  - injection Heq as -> ->. by apply max_by_keep.
  - injection Heq as -> ->. apply max_by_reach; [apply H1; left| |done].
    intros z Hz. apply H1. by right.
Qed.

Lemma max_by_elem {A : Type} (key : A -> Z) (x : A) (xs : list A) :
  PyStr.max_by key x xs ∈ x :: xs.
Proof.
  revert x. induction xs as [|y ys IH]; intros x; simpl; [left|].
  specialize (IH (if key x <? key y then y else x)).
  apply elem_of_cons in IH as [->|IH].
  - destruct (_ <? _); [right; left|left].
  - right. by right.
Qed.



(** ** Strings *)

Lemma str_app_cons (x : ascii) (a b : string) : String x a +:+ b = String x (a +:+ b).
Proof. reflexivity. Qed.

Lemma str_app_nil_l (b : string) : "" +:+ b = b.
Proof. reflexivity. Qed.

Lemma str_app_assoc (a b c : string) : (a +:+ b) +:+ c = a +:+ (b +:+ c).
Proof. induction a as [|x a IH]; [done|]. rewrite !str_app_cons. by rewrite IH. Qed.

Lemma str_app_nil_r (a : string) : a +:+ "" = a.
Proof. induction a as [|x a IH]; [done|]. rewrite str_app_cons. by rewrite IH. Qed.

Lemma str_length_app (a b : string) :
  String.length (a +:+ b) = (String.length a + String.length b)%nat.
Proof. induction a as [|x a IH]; [done|]. rewrite str_app_cons. simpl. by rewrite IH. Qed.

Lemma str_prefix_nil (s : string) : String.prefix "" s = true.
Proof. by destruct s. Qed.

Lemma str_prefix_cons (a b : ascii) (p s : string) :
  String.prefix (String a p) (String b s)
  = if decide (a = b) then String.prefix p s else false.
Proof. simpl. destruct (ascii_dec a b); by case_decide. Qed.

Lemma str_prefix_cons_nil (a : ascii) (p : string) : String.prefix (String a p) "" = false.
Proof. reflexivity. Qed.

Lemma str_prefix_app_same (a p s : string) :
  String.prefix (a +:+ p) (a +:+ s) = String.prefix p s.
Proof.
  induction a as [|x a IH]; [done|].
  by rewrite !str_app_cons, str_prefix_cons, decide_True.
Qed.

Lemma str_prefix_split (p s : string) :
  String.prefix p s = true -> exists r, s = p +:+ r.
Proof.
  revert s. induction p as [|a p IH]; intros s Hp.
  - by exists s.
  - destruct s as [|b s]; [done|]. rewrite str_prefix_cons in Hp.
    case_decide; [|done]. subst b. destruct (IH s Hp) as [r ->]. by exists r.
Qed.

Lemma str_prefix_app_l (p r : string) : String.prefix p (p +:+ r) = true.
Proof. rewrite <- (str_app_nil_r p) at 1. rewrite str_prefix_app_same. apply str_prefix_nil. Qed.

(** The last character of [a], or [c] when [a] is empty. *)
Fixpoint last_char (c : ascii) (a : string) : ascii :=
  match a with
  | EmptyString => c
  | String x a' => last_char x a'
  end.

Lemma last_char_app (c : ascii) (a b : string) :
  last_char c (a +:+ b) = last_char (last_char c a) b.
Proof.
  revert c. induction a as [|x a IH]; intros c; [done|].
  rewrite str_app_cons. simpl. apply IH.
Qed.

(** Every character of [s] passes the test [f]. *)
Fixpoint all_chars (f : ascii -> bool) (s : string) : bool :=
  match s with
  | EmptyString => true
  | String c s' => f c && all_chars f s'
  end.

Lemma all_chars_app (f : ascii -> bool) (a b : string) :
  all_chars f (a +:+ b) = all_chars f a && all_chars f b.
Proof.
  induction a as [|x a IH]; [done|].
  rewrite str_app_cons. simpl. by rewrite IH, andb_assoc.
Qed.

End PyStrFacts.

(** * Properties of the context synchroniser *)

Module ContextSyncProps.
Import ContextSync PyStrFacts.

(** The resolved context paths of a list of agents. *)
Fixpoint context_paths (project_path : list string) (agents : list string)
  : gset (list string) :=
  match agents with
  | [] => ∅
  | a :: rest =>
    match dict_get a AGENT_CONTEXT_PATHS with
    | None => context_paths project_path rest
    | Some rel => {[ (project_path ++ rel)%list ]} ∪ context_paths project_path rest
    end
  end.

Lemma elem_of_context_paths project_path agents p :
  p ∈ context_paths project_path agents <->
  exists a rel, a ∈ agents /\ dict_get a AGENT_CONTEXT_PATHS = Some rel
                /\ p = (project_path ++ rel)%list.
Proof.
  induction agents as [|b rest IH]; cbn [context_paths].
  - split; [set_solver|]. intros (a & rel & Ha & _). by apply elem_of_nil in Ha.
  - destruct (dict_get b AGENT_CONTEXT_PATHS) as [r|] eqn:Hb.
    + rewrite elem_of_union, elem_of_singleton, IH. split.
      * intros [->|(a & rel & Ha & Hrel & ->)].
        -- exists b, r. split_and!; [left|done|done].
        -- exists a, rel. split_and!; [by right|done|done].
      * intros (a & rel & Ha & Hrel & ->).
        apply elem_of_cons in Ha as [->|Ha].
        -- left. congruence.
        -- right. by exists a, rel.
    + rewrite IH. split.
      * intros (a & rel & Ha & Hrel & ->). exists a, rel. split_and!; [by right|done|done].
      * intros (a & rel & Ha & Hrel & ->).
        apply elem_of_cons in Ha as [->|Ha]; [congruence|]. by exists a, rel.
Qed.

(** What [discover] keeps: an existing file, not seen before, owned by
    the first agent of the list that resolves to it. *)
Lemma discover_elem fs project_path agents seen a p t :
  (a, (p, t)) ∈ discover fs project_path agents seen ->
  (p ∉ seen) /\
  exists l1 l2 rel f,
    agents = (l1 ++ a :: l2)%list /\
    dict_get a AGENT_CONTEXT_PATHS = Some rel /\
    p = (project_path ++ rel)%list /\
    fs !! p = Some f /\ t = mtime f /\
    forall b r, b ∈ l1 -> dict_get b AGENT_CONTEXT_PATHS = Some r ->
                (project_path ++ r)%list <> p.
Proof.
  revert seen. induction agents as [|b rest IH]; intros seen; cbn [discover].
  { intros H. by apply elem_of_nil in H. }
  assert (Hskip : forall seen',
    seen ⊆ seen' ->
    (forall r, dict_get b AGENT_CONTEXT_PATHS = Some r ->
       is_Some (fs !! (project_path ++ r)%list) -> (project_path ++ r)%list ∈ seen') ->
    (a, (p, t)) ∈ discover fs project_path rest seen' ->
    (p ∉ seen) /\
    exists l1 l2 rel f,
      (b :: rest) = (l1 ++ a :: l2)%list /\
      dict_get a AGENT_CONTEXT_PATHS = Some rel /\
      p = (project_path ++ rel)%list /\
      fs !! p = Some f /\ t = mtime f /\
      forall b' r, b' ∈ l1 -> dict_get b' AGENT_CONTEXT_PATHS = Some r ->
                  (project_path ++ r)%list <> p).
  { intros seen' Hsub Hb Hin.
    destruct (IH _ Hin) as (Hns & l1 & l2 & rel & f & -> & Hrel & -> & Hf & -> & Hfirst).
    split; [set_solver|].
    exists (b :: l1), l2, rel, f. split_and!; try done.
    intros b' r Hb' Hr Heq. apply elem_of_cons in Hb' as [->|Hb'].
    - apply Hns. rewrite <- Heq. apply Hb; [done|]. rewrite Heq. eauto.
    - by apply (Hfirst b' r). }
  destruct (dict_get b AGENT_CONTEXT_PATHS) as [rb|] eqn:Hb.
  2:{ apply Hskip; [done|]. intros r Hr. congruence. }
  destruct (fs !! (project_path ++ rb)%list) as [fb|] eqn:Hfb.
  2:{ apply Hskip; [done|]. intros r Hr [x Hx].
      assert (r = rb) as -> by congruence. congruence. }
  destruct (decide ((project_path ++ rb)%list ∈ seen)) as [Hseen|Hseen].
  { apply Hskip; [done|]. intros r Hr _. assert (r = rb) as -> by congruence. done. }
  intros Hin. apply elem_of_cons in Hin as [Heq|Hin].
  - injection Heq as -> -> ->. split; [done|].
    exists [], rest, rb, fb. split_and!; try done.
    intros b' r Hb'. by apply elem_of_nil in Hb'.
  - revert Hin. apply Hskip; [set_solver|].
    intros r Hr _. assert (r = rb) as -> by congruence. set_solver.
Qed.



(** The counter and the write log agree. *)
Lemma propagate_count_writes stamp project_path newest_path body agents st :
  synced_count st = length (writes st) ->
  synced_count (propagate stamp project_path newest_path body agents st)
  = length (writes (propagate stamp project_path newest_path body agents st)).
Proof.
  revert st. induction agents as [|a rest IH]; intros st Hst; cbn [propagate].
  { done. }
  destruct (dict_get a AGENT_CONTEXT_PATHS) as [rel|]; [|by apply IH].
  destruct (decide _); [by apply IH|].
  destruct (decide _); [by apply IH|].
  apply IH. cbn [writes synced_count]. rewrite length_app. simpl. lia.
Qed.

(** ** C3 *)



(** ** Winner selection *)

(** The candidates keep the order of the installed agents. *)
Lemma discover_sublist fs project_path agents seen :
  map fst (discover fs project_path agents seen) `sublist_of` agents.
Proof.
  revert seen. induction agents as [|b rest IH]; intros seen; cbn [discover].
  { constructor. }
  destruct (dict_get b AGENT_CONTEXT_PATHS) as [rb|]; [|by apply sublist_cons].
  destruct (fs !! (project_path ++ rb)%list) as [fb|]; [|by apply sublist_cons].
  destruct (decide _); [by apply sublist_cons|].
  simpl. by apply sublist_skip.
Qed.

(** The agent the pass syncs from, in terms of the candidates. *)
Lemma sync_newest_agent (stamp : nat -> Z) (agents project_path : list string)
    (fs : gmap (list string) file) c cs :
  discover fs project_path agents ∅ = c :: cs ->
  newest_agent (sync_context_files stamp agents project_path fs)
  = Some (fst (PyStr.max_by (fun e => snd (snd e)) c cs)).
Proof.
  intros Hd. unfold sync_context_files. rewrite Hd.
  pose proof (max_by_elem (fun e : string * (list string * Z) => snd (snd e)) c cs) as Hin.
  rewrite <- Hd in Hin.
  destruct (PyStr.max_by _ c cs) as [a [p t]] eqn:Hm.
  apply discover_elem in Hin as (_ & l1 & l2 & rel & f & _ & _ & _ & Hf & _ & _).
  simpl. by rewrite Hf.
Qed.

(** ** C10 *)

(** C10. The candidates are listed in the order of the installed
    agents, and when several of them share the maximal modification
    time the pass syncs from the first of these. *)
Theorem C10_tie_goes_to_first_agent (stamp : nat -> Z)
    (installed_agents project_path : list string) (fs : gmap (list string) file) :
  map fst (discover fs project_path installed_agents ∅) `sublist_of` installed_agents /\
  forall l1 a p t l2,
    discover fs project_path installed_agents ∅ = (l1 ++ (a, (p, t)) :: l2)%list ->
    (forall e, e ∈ l1 -> snd (snd e) < t) ->
    (forall e, e ∈ l2 -> snd (snd e) <= t) ->
    newest_agent (sync_context_files stamp installed_agents project_path fs) = Some a.
Proof.
  split; [apply discover_sublist|].
  intros l1 a p t l2 Hd H1 H2.
  destruct (discover fs project_path installed_agents ∅) as [|c cs] eqn:Hc.
  { by destruct l1. }
  rewrite (sync_newest_agent _ _ _ _ c cs Hc).
  by rewrite (max_by_first _ c cs l1 l2 (a, (p, t)) Hd H1 H2).
Qed.


(** A project with three context files, the last two written in the
    same tick. *)
Definition tie_fs : gmap (list string) file :=
  <[ ["CLAUDE.md"] := File "old" 5 ]>
  (<[ ["GEMINI.md"] := File "from gemini" 7 ]>
  (<[ ["QWEN.md"] := File "from qwen" 7 ]> ∅)).

Lemma C10_tie_goes_to_first_agent_witness :
  newest_agent (sync_context_files (fun _ => 9) ["claude"; "gemini"; "qwen"] [] tie_fs)
  = Some "gemini".
Proof.
  apply (proj2 (C10_tie_goes_to_first_agent (fun _ => 9) ["claude"; "gemini"; "qwen"] [] tie_fs)
           [("claude", (["CLAUDE.md"], 5))] "gemini" ["GEMINI.md"] 7
           [("qwen", (["QWEN.md"], 7))]).
  - vm_compute. reflexivity.
  - intros e He. apply list_elem_of_singleton in He. subst e. simpl. lia.
  - intros e He. apply list_elem_of_singleton in He. subst e. simpl. lia.
Defined.


(** ** Propagation *)






(** ** C4 *)





(** ** Repeated runs *)






(** ** C2 *)






(** ** Further properties of the context synchroniser *)

Lemma propagate_frame stamp project_path newest_path body agents st q :
  q ∉ context_paths project_path agents ->
  files (propagate stamp project_path newest_path body agents st) !! q = files st !! q.
Proof.
  revert st. induction agents as [|x rest IH]; intros st Hq; cbn [propagate]; [done|].
  cbn [context_paths] in Hq.
  destruct (dict_get x AGENT_CONTEXT_PATHS) as [rx|]; [|by apply IH].
  apply not_elem_of_union in Hq as [Hq1 Hq2].
  destruct (decide _); [by apply IH|].
  destruct (decide _); [by apply IH|].
  rewrite IH by done. cbn [files]. apply lookup_insert_ne. set_solver.
Qed.

(** A pass changes no path other than the context paths of the
    installed agents. *)
Theorem sync_context_files_touches_only_context_paths (stamp : nat -> Z)
    (installed_agents project_path : list string) (fs : gmap (list string) file)
    (q : list string) :
  out_files (sync_context_files stamp installed_agents project_path fs) !! q = fs !! q \/
  q ∈ context_paths project_path installed_agents.
Proof.
  destruct (decide (q ∈ context_paths project_path installed_agents)) as [|Hq];
    [by right|left].
  unfold sync_context_files.
  destruct (discover _ _ _ _) as [|c cs]; [done|].
  destruct (fs !! _); [|done]. cbn [out_files]. by rewrite propagate_frame.
Qed.



(** The counter behind "(n created)" counts the written targets that
    did not exist before the pass. *)
Lemma propagate_created (stamp : nat -> Z) (project_path newest_path : list string)
    (body : string) (agents : list string) (fs0 : gmap (list string) file) (st : pass) :
  (forall p, p ∉ synced_targets st -> files st !! p = fs0 !! p) ->
  created_count st
  = length (filter (fun w => fs0 !! w.1 = None) (writes st)) ->
  created_count (propagate stamp project_path newest_path body agents st)
  = length (filter (fun w => fs0 !! w.1 = None)
              (writes (propagate stamp project_path newest_path body agents st))).
Proof.
  revert st. induction agents as [|x rest IH]; intros st Hagree Hcount;
    cbn [propagate]; [done|].
  destruct (dict_get x AGENT_CONTEXT_PATHS) as [rx|]; [|by apply IH].
  destruct (decide _); [by apply IH|].
  destruct (decide _) as [|Hnew]; [by apply IH|].
  apply IH; cbn [files synced_targets created_count writes].
  - intros p Hp. rewrite lookup_insert_ne by set_solver. apply Hagree. set_solver.
  - rewrite filter_app, length_app, <- Hcount, filter_cons, filter_nil. cbn [fst].
    rewrite (Hagree _ Hnew).
    destruct (fs0 !! (project_path ++ rx)%list) eqn:Hfs.
    + rewrite bool_decide_false by done. rewrite decide_False by done. simpl. lia.
    + rewrite bool_decide_true by done. rewrite decide_True by done. simpl. lia.
Qed.

(** The [created] counter of a pass is the number of written targets
    that did not exist before the pass, and it never exceeds the
    [synced] counter. *)
Theorem sync_context_files_created_count (stamp : nat -> Z)
    (installed_agents project_path : list string) (fs : gmap (list string) file) :
  let r := sync_context_files stamp installed_agents project_path fs in
  out_created r = length (filter (fun w => fs !! w.1 = None) (out_writes r)) /\
  (out_created r <= out_synced r)%nat.
Proof.
  intros r. assert (H1 : out_created r
                         = length (filter (fun w => fs !! w.1 = None) (out_writes r))).
  { subst r. unfold sync_context_files.
    destruct (discover _ _ _ _) as [|c cs]; [done|].
    destruct (fs !! _); [|done]. cbn [out_created out_writes].
    by apply propagate_created. }
  split; [done|]. rewrite H1.
  assert (out_synced r = length (out_writes r)) as ->.
  { subst r. unfold sync_context_files.
    destruct (discover _ _ _ _) as [|c cs]; [done|].
    destruct (fs !! _); [|done]. cbn [out_synced out_writes].
    by apply propagate_count_writes. }
  apply length_filter.
Qed.

(** The wrapper written for an agent is removed again by
    [_extract_markdown_body]: what a pass writes for an agent yields the
    same body when a later pass syncs from it, for a body that starts
    neither with the frontmatter marker nor with a newline. *)
Theorem extract_after_format (agent_key body : string) :
  PyStr.startswith body "---" = false ->
  PyStr.lstrip_nl body = body ->
  _extract_markdown_body (_format_context_for_agent agent_key body) = body.
Proof.
  intros Hfm Hnl. unfold _format_context_for_agent. case_decide.
  - rewrite <- Hnl at 2. vm_compute. reflexivity.
  - unfold _extract_markdown_body. by rewrite Hfm.
Qed.

Lemma extract_after_format_witness :
  _extract_markdown_body (_format_context_for_agent "cursor-agent" "# Project")
  = "# Project".
Proof. apply extract_after_format; reflexivity. Defined.

Lemma context_path_not_memory (project_path : list string) (a : string)
    (rel q : list string) :
  dict_get a AGENT_CONTEXT_PATHS = Some rel ->
  (project_path ++ [".specforge"; "memory"])%list `prefix_of` q ->
  q <> (project_path ++ rel)%list.
Proof.
  unfold AGENT_CONTEXT_PATHS. cbn [dict_get]. intros Hrel [r ->] Heq.
  rewrite <- app_assoc in Heq. apply app_inv_head in Heq. revert Hrel.
  repeat (case_decide; [intros [= <-]; discriminate|]). discriminate.
Qed.

(** [sync_context_files] never touches [.specforge/memory]: whatever
    the agents and the files, every path at or below the memory
    directory of the project holds after the pass what it held
    before. *)
Theorem sync_context_files_keeps_memory (stamp : nat -> Z)
    (installed_agents project_path : list string) (fs : gmap (list string) file)
    (q : list string) :
  (project_path ++ [".specforge"; "memory"])%list `prefix_of` q ->
  out_files (sync_context_files stamp installed_agents project_path fs) !! q = fs !! q.
Proof.
  intros Hq.
  assert (q ∉ context_paths project_path installed_agents) as Hout.
  { intros (a & rel & _ & Hrel & Heq)%elem_of_context_paths.
    by apply (context_path_not_memory project_path a rel q). }
  unfold sync_context_files.
  destruct (discover _ _ _ _) as [|c cs]; [done|].
  destruct (fs !! _); [|done]. cbn [out_files]. by rewrite propagate_frame.
Qed.

Definition memory_fs : gmap (list string) file :=
  <[ ["p"; ".specforge"; "memory"; "constitution.md"] := File "mine" 3 ]>
    (<[ ["p"; "CLAUDE.md"] := File "hi" 1 ]> ∅).

Lemma sync_context_files_keeps_memory_witness :
  out_files (sync_context_files (fun n => 10 + Z.of_nat n) ["claude"; "gemini"] ["p"] memory_fs)
    !! ["p"; ".specforge"; "memory"; "constitution.md"]
  = memory_fs !! ["p"; ".specforge"; "memory"; "constitution.md"].
Proof.
  apply (sync_context_files_keeps_memory (fun n => 10 + Z.of_nat n) ["claude"; "gemini"] ["p"]).
  exists ["constitution.md"]. reflexivity.
Defined.


End ContextSyncProps.

(** * Properties of the working-tree synchroniser *)

Module WorkingSyncProps.
Import WorkingSync PyStrFacts.

(** ** Dictionaries *)

Section Dict.
Context {K V : Type} `{EqDecision K}.

Lemma dict_get_elem (d : list (K * V)) (k : K) (v : V) :
  dict_get k d = Some v -> (k, v) ∈ d.
Proof.
  induction d as [|[k' v'] d IH]; simpl; [done|].
  case_decide as Hk; [intros [= ->]; subst; left|intros Hd; right; auto].
Qed.




End Dict.


(** Well-formed [all_files]: distinct keys, no empty list. *)
Definition wf_dict {K V : Type} (d : list (K * list V)) : Prop :=
  NoDup (map fst d) /\ Forall (fun kv => kv.2 <> []) d.

Section DictAppend.
Context {K V : Type} `{EqDecision K}.






Lemma wf_dict_get_nonempty (d : list (K * list V)) (k : K) (vs : list V) :
  wf_dict d -> dict_get k d = Some vs -> vs <> [].
Proof.
  intros [_ Hne] Hk. apply dict_get_elem in Hk.
  rewrite Forall_forall in Hne. apply (Hne _ Hk).
Qed.

End DictAppend.


(** ** Paths and folders *)

Lemma relative_to_Some (p wd rel : list string) :
  relative_to p wd = Some rel <-> p = (wd ++ rel)%list.
Proof.
  revert p. induction wd as [|d wd IH]; intros p; simpl.
  - destruct p; simpl; split; congruence.
  - destruct p as [|c p]; simpl; [split; discriminate|].
    case_decide as Hc.
    + subst c. rewrite IH. split; congruence.
    + split; [discriminate|]. intros [= ? ?]. done.
Qed.



(** ** Collecting the sources *)











(** ** Copying one relative path *)













(** ** One relative path *)




(** ** All relative paths of one subtree *)





(** ** One subtree *)



(** ** A second run *)






(** ** The whole call *)






(** ** C5 *)


Definition skill_fs : gmap (list string) file :=
  <[ ["p"; ".claude"; "skills"; "x"; "y.txt"] := File "v1" 5 ]> ∅.



(** ** Further properties of the working-tree synchroniser *)



Lemma collect_unknown (fs : gmap (list string) file) (project_path subdir agents : list string)
    (d : list (list string * list source)) (a : string) :
  a ∈ agents -> agent_folder a = None ->
  collect fs project_path subdir agents d = None.
Proof.
  revert d. induction agents as [|x agents IH]; intros d Ha Hnone.
  { by apply elem_of_nil in Ha. }
  cbn [collect]. destruct (agent_folder x) as [folder|] eqn:Hx; [|done].
  cbn [mbind option_bind]. apply IH; [|done].
  apply elem_of_cons in Ha as [->|Ha]; [congruence|done].
Qed.

(** An installed agent that is not a key of [AGENT_CONFIG] makes the
    call raise before anything is written: there is no result and no
    file system after it to speak of. *)
Theorem sync_working_files_unknown_agent (installed_agents project_path : list string)
    (fs : gmap (list string) file) (a : string) :
  a ∈ installed_agents -> dict_get a AGENT_CONFIG = None ->
  sync_agent_working_files installed_agents project_path fs = None /\
  collect fs project_path ["skills"] installed_agents [] = None.
Proof.
  intros Ha Hnone.
  assert (Hf : agent_folder a = None) by (unfold agent_folder; by rewrite Hnone).
  assert (Hc : collect fs project_path ["skills"] installed_agents [] = None)
    by by apply (collect_unknown _ _ _ _ _ a).
  split; [|done]. unfold sync_agent_working_files, sync_subdir. cbn [fst].
  by rewrite Hc.
Qed.

Lemma sync_working_files_unknown_agent_witness :
  sync_agent_working_files ["claude"; "nobody"] ["p"] skill_fs = None /\
  collect skill_fs ["p"] ["skills"] ["claude"; "nobody"] [] = None.
Proof.
  apply (sync_working_files_unknown_agent ["claude"; "nobody"] ["p"] skill_fs "nobody").
  - right; left.
  - reflexivity.
Defined.





End WorkingSyncProps.

(** * Properties of the JSON merge *)

Module JsonMergeProps.
Import JsonMerge.

Lemma dict_get_set_eq {V : Type} (k : string) (v : V) (d : list (string * V)) :
  dict_get k (dict_set k v d) = Some v.
Proof.
  induction d as [|[k' v'] d IH]; simpl.
  - by rewrite decide_True.
  - case_decide; simpl; [by rewrite decide_True|by rewrite decide_False].
Qed.

Lemma dict_get_set_ne {V : Type} (k k' : string) (v : V) (d : list (string * V)) :
  k <> k' -> dict_get k' (dict_set k v d) = dict_get k' d.
Proof.
  intros Hne. induction d as [|[k0 v0] d IH]; simpl.
  - by rewrite decide_False.
  - case_decide; simpl.
    + subst k0. by rewrite !decide_False.
    + case_decide; [done|apply IH].
Qed.

(** The inner loop of [merge_value] is [deep_merge]. *)
Lemma merge_value_obj (update base : list (string * json)) :
  merge_value (JObj update) (Some (JObj base)) = JObj (deep_merge base update).
Proof.
  simpl. f_equal. revert base. induction update as [|[k v] rest IH]; intros base; simpl.
  - done.
  - apply IH.
Qed.

Lemma merge_value_other (value : json) (old : option json) :
  (forall update base, value = JObj update -> old = Some (JObj base) -> False) ->
  merge_value value old = value.
Proof.
  intros Hno. destruct value; try done.
  destruct old as [[]|]; try done. exfalso. by eapply Hno.
Qed.

Lemma dict_get_not_key {V : Type} (k : string) (d : list (string * V)) :
  k ∉ map fst d -> dict_get k d = None.
Proof.
  induction d as [|[k' v'] d IH]; simpl; [done|].
  intros Hk. apply not_elem_of_cons in Hk as [Hne Hk]. rewrite decide_False by done. auto.
Qed.

(** The value of every key after [deep_merge]. *)
Lemma deep_merge_lookup (base update : list (string * json)) (k : string) :
  NoDup (map fst update) ->
  dict_get k (deep_merge base update)
  = match dict_get k update with
    | None => dict_get k base
    | Some value => Some (merge_value value (dict_get k base))
    end.
Proof.
  revert base. induction update as [|[k0 v0] rest IH]; intros base Hnd; simpl; [done|].
  apply NoDup_cons in Hnd as [Hk0 Hnd]. rewrite IH by done.
  case_decide as Hk.
  - subst k0. rewrite (dict_get_not_key k rest Hk0). apply dict_get_set_eq.
  - by rewrite !dict_get_set_ne.
Qed.

(** ** C7 *)



(** ** Key order *)

Lemma keys_dict_set {V : Type} (k : string) (v : V) (d : list (string * V)) :
  map fst (dict_set k v d)
  = if decide (k ∈ map fst d) then map fst d else (map fst d ++ [k])%list.
Proof.
  induction d as [|[k' v'] d IH].
  - cbn [dict_set map]. rewrite decide_False; [done|]. apply not_elem_of_nil.
  - cbn [dict_set]. destruct (decide (k' = k)) as [Hk|Hk].
    + cbn [map fst]. rewrite decide_True; [done|]. subst k'. left.
    + cbn [map fst]. rewrite IH. destruct (decide (k ∈ map fst d)) as [Hin|Hin].
      * rewrite decide_True; [done|]. by right.
      * rewrite decide_False; [done|].
        intros Hc. apply elem_of_cons in Hc as [->|Hc]; done.
Qed.

Lemma keys_deep_merge (base update : list (string * json)) :
  map fst (deep_merge base update) = Update.fromkeys (map fst base) (map fst update).
Proof.
  revert base. induction update as [|[k v] rest IH]; intros base; cbn [deep_merge]; [done|].
  rewrite IH, keys_dict_set. done.
Qed.

Lemma fromkeys_prefix (acc l : list string) : acc `prefix_of` Update.fromkeys acc l.
Proof.
  revert acc. induction l as [|x l IH]; intros acc; cbn [Update.fromkeys]; [done|].
  case_decide; [apply IH|]. etrans; [|apply IH]. by apply prefix_app_r.
Qed.

Lemma fromkeys_elem (acc l : list string) (x : string) :
  x ∈ Update.fromkeys acc l <-> x ∈ acc \/ x ∈ l.
Proof.
  revert acc. induction l as [|y l IH]; intros acc; cbn [Update.fromkeys].
  - rewrite elem_of_nil. naive_solver.
  - rewrite IH, elem_of_cons. case_decide.
    + naive_solver.
    + rewrite elem_of_app, list_elem_of_singleton. naive_solver.
Qed.

(** [deep_merge] keeps the keys of the existing object where they are
    and puts the keys that are new after them, in the order of the new
    content: the keys of the result start with the keys of [base], hold
    the keys of both and nothing else, and are those of [base] followed
    by the first occurrence of every other key of [update]. *)
Theorem deep_merge_keeps_key_order (base update : list (string * json)) :
  map fst base `prefix_of` map fst (deep_merge base update) /\
  (forall k, k ∈ map fst (deep_merge base update)
             <-> k ∈ map fst base \/ k ∈ map fst update) /\
  map fst (deep_merge base update) = Update.fromkeys (map fst base) (map fst update).
Proof.
  rewrite keys_deep_merge. split_and!; [apply fromkeys_prefix| |done].
  intros k. apply fromkeys_elem.
Qed.

(** ** Merging twice *)

(** The values [json.load] returns and the dictionaries Python builds:
    the keys of every object are distinct. *)
Fixpoint distinct_keys (j : json) : bool :=
  match j with
  | JArr items => forallb distinct_keys items
  | JObj members =>
    bool_decide (NoDup (map fst members))
    && forallb (fun kv : string * json => distinct_keys kv.2) members
  | _ => true
  end.

Lemma json_nested_ind (P : json -> Prop) :
  P JNull -> (forall b, P (JBool b)) -> (forall l, P (JNum l)) -> (forall s, P (JStr s)) ->
  (forall items, Forall P items -> P (JArr items)) ->
  (forall members, Forall (fun kv : string * json => P kv.2) members -> P (JObj members)) ->
  forall j, P j.
Proof.
  intros HNull HBool HNum HStr HArr HObj.
  refine (fix IH (j : json) : P j :=
            match j with
            | JNull => HNull
            | JBool b => HBool b
            | JNum l => HNum l
            | JStr s => HStr s
            | JArr items =>
              HArr items ((fix go (l : list json) : Forall P l :=
                             match l with
                             | [] => List.Forall_nil _
                             | x :: r => List.Forall_cons _ x r (IH x) (go r)
                             end) items)
            | JObj members =>
              HObj members
                ((fix go (l : list (string * json))
                    : Forall (fun kv : string * json => P kv.2) l :=
                    match l with
                    | [] => List.Forall_nil _
                    | kv :: r => List.Forall_cons _ kv r (IH kv.2) (go r)
                    end) members)
            end).
Qed.

Lemma dict_set_same {V : Type} (k : string) (v : V) (d : list (string * V)) :
  dict_get k d = Some v -> dict_set k v d = d.
Proof.
  induction d as [|[k' v'] d IH]; simpl; [done|].
  case_decide; [by intros [= ->]|]. intros Hd. by rewrite IH.
Qed.

Lemma dict_get_member {V : Type} (k : string) (v : V) (d : list (string * V)) :
  NoDup (map fst d) -> (k, v) ∈ d -> dict_get k d = Some v.
Proof.
  induction d as [|[k' v'] d IH]; simpl.
  - by intros _ ?%elem_of_nil.
  - intros [Hk' Hnd]%NoDup_cons Hin. apply elem_of_cons in Hin as [[= <- <-]|Hin].
    + by rewrite decide_True.
    + rewrite decide_False; [by apply IH|]. intros ->. apply Hk'.
      apply list_elem_of_fmap. by exists (k, v).
Qed.

(** Merging [update] into a dictionary that already holds, for every
    key of [update], the value the merge would store, changes nothing. *)
Lemma deep_merge_fixed (result update : list (string * json)) :
  (forall k v, (k, v) ∈ update ->
     exists old, dict_get k result = Some old /\ merge_value v (Some old) = old) ->
  deep_merge result update = result.
Proof.
  induction update as [|[k v] rest IH]; intros Hall; cbn [deep_merge]; [done|].
  destruct (Hall k v) as (old & Hget & Hm); [left|].
  rewrite Hget, Hm, dict_set_same by done. apply IH.
  intros k' v' Hin. apply Hall. by right.
Qed.

Lemma merge_value_twice (value : json) :
  distinct_keys value = true ->
  merge_value value (Some value) = value /\
  forall old, merge_value value (Some (merge_value value old)) = merge_value value old.
Proof.
  induction value as [| | | |items IH|update IH] using json_nested_ind;
    intros Hwf; try (split; [done|]; intros [[]|]; done).
  cbn [distinct_keys] in Hwf. apply andb_prop in Hwf as [Hnd Hwf].
  apply bool_decide_eq_true in Hnd.
  assert (forall k v, (k, v) ∈ update ->
            merge_value v (Some v) = v /\
            forall old, merge_value v (Some (merge_value v old)) = merge_value v old) as Hmem.
  { intros k v Hin. rewrite Forall_forall in IH. apply (IH (k, v)).
    - done.
    - rewrite forallb_forall in Hwf. apply (Hwf (k, v)). by apply list_elem_of_In. }
  assert (forall base, deep_merge (deep_merge base update) update = deep_merge base update)
    as Hidem.
  { intros base. apply deep_merge_fixed. intros k v Hin.
    exists (merge_value v (dict_get k base)). split.
    - rewrite deep_merge_lookup by done. by rewrite (dict_get_member k v update).
    - destruct (dict_get k base) as [old|].
      + apply (Hmem k v Hin).
      + apply (Hmem k v Hin). }
  assert (deep_merge update update = update) as Hself.
  { apply deep_merge_fixed. intros k v Hin. exists v. split.
    - by apply dict_get_member.
    - apply (Hmem k v Hin). }
  assert (forall old, (forall base, old <> Some (JObj base)) ->
            merge_value (JObj update) (Some (merge_value (JObj update) old))
            = merge_value (JObj update) old) as Hnon.
  { intros old Hno.
    rewrite (merge_value_other (JObj update) old) by (intros ? base _ ->; by eapply Hno).
    by rewrite merge_value_obj, Hself. }
  split.
  - by rewrite merge_value_obj, Hself.
  - intros [old|]; [destruct old|]; try (apply Hnon; intros base; discriminate).
    by rewrite !merge_value_obj, Hidem.
Qed.

(** Merging the same new content a second time changes nothing: when
    [merge_json_files] returns [merged], merging the new content into a
    file that holds [merged] returns [merged] again. The new content is
    a Python dictionary: its objects have distinct keys. *)
Theorem merge_json_files_twice (existing : existing_file)
    (new_content : list (string * json)) (merged : json) :
  distinct_keys (JObj new_content) = true ->
  merge_json_files existing new_content = Some merged ->
  merge_json_files (Parsed merged) new_content = Some merged.
Proof.
  intros Hwf Hrun.
  destruct (merge_value_twice (JObj new_content) Hwf) as [Hself Hidem].
  rewrite merge_value_obj in Hself. injection Hself as Hself.
  assert (forall base, deep_merge (deep_merge base new_content) new_content
                       = deep_merge base new_content) as Hbase.
  { intros base. specialize (Hidem (Some (JObj base))).
    rewrite !merge_value_obj in Hidem. by injection Hidem. }
  destruct existing as [| |j]; simpl in Hrun.
  - injection Hrun as <-. simpl. by rewrite Hself.
  - injection Hrun as <-. simpl. by rewrite Hself.
  - destruct j; try discriminate.
    + destruct new_content; [|discriminate]. by injection Hrun as <-.
    + injection Hrun as <-. simpl. by rewrite Hbase.
Qed.

Lemma merge_json_files_twice_witness :
  merge_json_files
    (Parsed (JObj [("editor", JObj [("tabSize", JNum "2"); ("rulers", JArr [])]);
                   ("chat", JObj [("a", JBool true); ("b", JBool false)])]))
    [("chat", JObj [("b", JBool false)]); ("editor", JObj [("rulers", JArr [])])]
  = Some (JObj [("editor", JObj [("tabSize", JNum "2"); ("rulers", JArr [])]);
                ("chat", JObj [("a", JBool true); ("b", JBool false)])]).
Proof.
  apply (merge_json_files_twice
           (Parsed (JObj [("editor", JObj [("tabSize", JNum "2"); ("rulers", JArr [JNum "80"])]);
                          ("chat", JObj [("a", JBool true)])]))).
  - vm_compute. reflexivity.
  - vm_compute. reflexivity.
Defined.


End JsonMergeProps.

(** * Properties of the path rewrite *)

Module RewriteProps.
Import Renderer PyStrFacts.

(** The match, if any, that a pass takes at the head of [s]. *)
Definition site (anchor : option ascii -> bool) (path : string)
    (prev : option ascii) (s : string) : option nat :=
  if anchor prev then match_len path s else None.

(** No position of [s] is taken by the pass. *)
Fixpoint no_site (anchor : option ascii -> bool) (path : string)
    (prev : option ascii) (s : string) : bool :=
  match s with
  | EmptyString => true
  | String c s' =>
    match site anchor path prev s with Some _ => false | None => true end
    && no_site anchor path (Some c) s'
  end.

(** The character before the position that follows [a]. *)
Definition last_opt (prev : option ascii) (a : string) : option ascii :=
  match a with
  | EmptyString => prev
  | String x a' => Some (last_char x a')
  end.

(** A character after which neither pattern is anchored. *)
Definition nonboundary (c : ascii) : bool :=
  negb (line_start (Some c)) && negb (after_delimiter (Some c)).

Definition is_anchor (f : option ascii -> bool) : Prop :=
  f = line_start \/ f = after_delimiter.

(** A directory name made of characters that are neither delimiters
    nor dots. *)
Definition plain (path : string) : bool :=
  all_chars (fun c => nonboundary c && negb (bool_decide (c = "."%char))) path.

Lemma anchor_nonboundary (f : option ascii -> bool) (c : ascii) :
  is_anchor f -> nonboundary c = true -> f (Some c) = false.
Proof.
  unfold nonboundary. intros [-> | ->] Hc; apply andb_true_iff in Hc as [H1 H2];
    by apply negb_true_iff.
Qed.

Lemma all_chars_impl (f g : ascii -> bool) (s : string) :
  (forall c, f c = true -> g c = true) -> all_chars f s = true -> all_chars g s = true.
Proof.
  intros Hfg. induction s as [|c s IH]; simpl; [done|].
  intros H. apply andb_true_iff in H as [H1 H2]. apply andb_true_iff. auto.
Qed.

Lemma last_opt_slash (prev : option ascii) (p : string) :
  last_opt prev (p +:+ "/") = Some "/"%char.
Proof.
  destruct p as [|x p]; [done|]. rewrite str_app_cons. cbn [last_opt].
  by rewrite last_char_app.
Qed.

Section Pass.
Variable anchor : option ascii -> bool.
Variable path : string.

Lemma sub_path_cons (prev : option ascii) (c : ascii) (s' : string) :
  sub_path anchor path O prev (String c s')
  = match site anchor path prev (String c s') with
    | Some n => ".specforge/" +:+ path +:+ "/" +:+ sub_path anchor path (n - 1) (Some c) s'
    | None => String c (sub_path anchor path O (Some c) s')
    end.
Proof. reflexivity. Qed.

Lemma sub_path_skip (a rest : string) (prev : option ascii) :
  sub_path anchor path (String.length a) prev (a +:+ rest)
  = sub_path anchor path O (last_opt prev a) rest.
Proof.
  revert prev. induction a as [|x a IH]; intros prev; [done|].
  rewrite str_app_cons. cbn [String.length sub_path]. rewrite IH. by destruct a.
Qed.

(** A match is one of the two forms of the pattern; the scan resumes
    after it, behind its final slash. *)
Lemma sub_path_hit (prev : option ascii) (s : string) (n : nat) :
  site anchor path prev s = Some n ->
  exists m rest,
    s = m +:+ rest /\ (m = "/" +:+ path +:+ "/" \/ m = path +:+ "/") /\
    sub_path anchor path O prev s
    = ".specforge/" +:+ path +:+ "/" +:+ sub_path anchor path O (Some "/"%char) rest.
Proof.
  intros Hsite.
  assert (Hgen : forall m rest c m', s = m +:+ rest -> m = String c m' ->
            n = String.length m -> last_char c m' = "/"%char ->
            sub_path anchor path O prev s
            = ".specforge/" +:+ path +:+ "/"
                +:+ sub_path anchor path O (Some "/"%char) rest).
  { intros m rest c m' -> -> -> Hlast. rewrite str_app_cons, sub_path_cons.
    rewrite <- str_app_cons, Hsite.
    replace (String.length (String c m') - 1)%nat with (String.length m')
      by (simpl; lia).
    rewrite sub_path_skip. do 4 f_equal.
    destruct m'; simpl in *; congruence. }
  unfold site in Hsite. destruct (anchor prev); [|done]. unfold match_len in Hsite.
  destruct (String.prefix ("/" +:+ path +:+ "/") s) eqn:H1.
  - injection Hsite as <-. apply str_prefix_split in H1 as [rest ->].
    exists ("/" +:+ path +:+ "/"), rest. split_and!; [done|by left|].
    apply (Hgen ("/" +:+ path +:+ "/") rest "/"%char (path +:+ "/")); try done.
    + rewrite str_app_cons, str_app_nil_l. simpl.
      rewrite str_length_app. simpl. lia.
    + by rewrite last_char_app.
  - destruct (String.prefix (path +:+ "/") s) eqn:H2; [|done].
    injection Hsite as <-. apply str_prefix_split in H2 as [rest ->].
    exists (path +:+ "/"), rest. split_and!; [done|by right|].
    destruct path as [|x p'] eqn:Hp.
    + apply (Hgen "/" rest "/"%char ""); done.
    + apply (Hgen (String x p' +:+ "/") rest x (p' +:+ "/")); try done.
      * rewrite str_length_app. simpl. lia.
      * by rewrite last_char_app.
Qed.

(** A pass changes nothing where it has no site. *)
Lemma sub_path_no_site (prev : option ascii) (s : string) :
  no_site anchor path prev s = true -> sub_path anchor path O prev s = s.
Proof.
  revert prev. induction s as [|c s IH]; intros prev; [done|].
  cbn [no_site]. rewrite sub_path_cons. intros H. apply andb_true_iff in H as [H1 H2].
  destruct (site anchor path prev (String c s)); [done|]. by rewrite IH.
Qed.

Lemma no_site_drop (m rest : string) (prev : option ascii) :
  no_site anchor path prev (m +:+ rest) = true ->
  no_site anchor path (last_opt prev m) rest = true.
Proof.
  revert prev. induction m as [|x m IH]; intros prev; [done|].
  rewrite str_app_cons. cbn [no_site]. intros H. apply andb_true_iff in H as [_ H].
  apply IH in H. by destruct m.
Qed.

(** The output of a pass has a dot wherever it differs from the
    input, so a dotless pattern found in the output was in the input. *)
Lemma prefix_sub_path (pat : string) (prev : option ascii) (s : string) :
  all_chars (fun c => negb (bool_decide (c = "."%char))) pat = true ->
  String.prefix pat (sub_path anchor path O prev s) = true ->
  String.prefix pat s = true.
Proof.
  revert pat prev. induction s as [|c s IH]; intros pat prev Hpat; [done|].
  rewrite sub_path_cons. destruct pat as [|a pat]; [done|].
  cbn [all_chars] in Hpat. apply andb_true_iff in Hpat as [Ha Hpat].
  apply negb_true_iff, bool_decide_eq_false in Ha.
  destruct (site anchor path prev (String c s)).
  - change (".specforge/" +:+ ?x) with (String "."%char ("specforge/" +:+ x)).
    rewrite str_prefix_cons. by rewrite decide_False.
  - rewrite !str_prefix_cons. case_decide; [|done]. by apply IH.
Qed.

End Pass.


Section TwoPasses.
Variables anchor anchor' : option ascii -> bool.
Variables path path' : string.
Hypothesis Hanchor' : is_anchor anchor'.
Hypothesis Hpath : plain path = true.
Hypothesis Hpath' : plain path' = true.

Lemma plain_nonboundary (p : string) :
  plain p = true -> all_chars nonboundary p = true.
Proof.
  apply all_chars_impl. intros c Hc. by apply andb_true_iff in Hc as [Hc _].
Qed.

Lemma plain_dotless (p : string) :
  plain p = true -> all_chars (fun c => negb (bool_decide (c = "."%char))) p = true.
Proof.
  apply all_chars_impl. intros c Hc. by apply andb_true_iff in Hc as [_ Hc].
Qed.

(** The patterns of [path'] do not start with a dot. *)
Lemma site_at_dot (prev : option ascii) (w : string) :
  site anchor' path' prev (String "."%char w) = None.
Proof.
  unfold site. destruct (anchor' prev); [|done]. unfold match_len.
  rewrite str_app_cons, str_prefix_cons, decide_False by done.
  destruct path' as [|y p]; [by rewrite str_app_nil_l|].
  rewrite str_app_cons, str_prefix_cons.
  unfold plain in Hpath'. cbn [all_chars] in Hpath'.
  apply andb_true_iff in Hpath' as [Hy _]. apply andb_true_iff in Hy as [_ Hy].
  apply negb_true_iff, bool_decide_eq_false in Hy. by rewrite decide_False.
Qed.

(** Text made of non-boundary characters holds no site of [path']. *)
Lemma no_site_inert (a x : string) (c0 : ascii) :
  nonboundary c0 = true -> all_chars nonboundary a = true ->
  no_site anchor' path' (Some c0) (a +:+ x)
  = no_site anchor' path' (Some (last_char c0 a)) x.
Proof.
  revert c0. induction a as [|y a IH]; intros c0 Hc0 Ha; [done|].
  cbn [all_chars] in Ha. apply andb_true_iff in Ha as [Hy Ha].
  rewrite str_app_cons. cbn [no_site last_char]. rewrite IH by done.
  unfold site. by rewrite (anchor_nonboundary _ _ Hanchor' Hc0).
Qed.

(** The replacement text holds no site of [path']. *)
Lemma no_site_replacement (prev : option ascii) (x : string) :
  no_site anchor' path' prev (".specforge/" +:+ path +:+ "/" +:+ x)
  = no_site anchor' path' (Some "/"%char) x.
Proof.
  change (".specforge/" +:+ ?y) with (String "."%char ("specforge/" +:+ y)).
  cbn [no_site]. rewrite site_at_dot. cbn [andb].
  rewrite <- !str_app_assoc. rewrite no_site_inert.
  - by rewrite !last_char_app.
  - done.
  - rewrite !all_chars_app. rewrite (plain_nonboundary _ Hpath). done.
Qed.

(** A pass leaves no site of its own pattern, and makes no site of
    another plain pattern. *)
Lemma sub_path_makes_no_site (n : nat) (s : string) (prev : option ascii) :
  (String.length s <= n)%nat ->
  (anchor' = anchor /\ path' = path) \/ no_site anchor' path' prev s = true ->
  no_site anchor' path' prev (sub_path anchor path O prev s) = true.
Proof.
  revert s prev. induction n as [|n IH]; intros s prev Hlen Hpre.
  { destruct s; [done|simpl in Hlen; lia]. }
  destruct s as [|c s']; [done|].
  destruct (site anchor path prev (String c s')) as [k|] eqn:Hsite.
  - destruct (sub_path_hit anchor path prev _ k Hsite) as (m & rest & Hs & Hm & ->).
    rewrite no_site_replacement. apply IH.
    + assert (1 <= String.length m)%nat.
      { destruct Hm as [-> | ->]; rewrite ?str_app_cons, ?str_length_app; simpl; lia. }
      rewrite Hs, str_length_app in Hlen. lia.
    + destruct Hpre as [?|Hpre]; [by left|right].
      rewrite Hs in Hpre. apply no_site_drop in Hpre.
      assert (last_opt prev m = Some "/"%char) as <-; [|done].
      destruct Hm as [-> | ->].
      * by rewrite <- str_app_assoc, last_opt_slash.
      * by rewrite last_opt_slash.
  - rewrite sub_path_cons, Hsite. cbn [no_site]. apply andb_true_iff. split.
    + destruct (site anchor' path' prev (String c (sub_path anchor path O (Some c) s')))
        as [k|] eqn:Hsite'; [exfalso|done].
      assert (Hin : site anchor' path' prev (String c s') <> None).
      { assert (Hpat : forall pat,
                  all_chars (fun c => negb (bool_decide (c = "."%char))) pat = true ->
                  String.prefix pat (String c (sub_path anchor path O (Some c) s')) = true ->
                  String.prefix pat (String c s') = true).
        { intros pat Hdot Hp. apply (prefix_sub_path anchor path pat prev); [done|].
          by rewrite sub_path_cons, Hsite. }
        clear Hsite. unfold site in *. destruct (anchor' prev); [|done].
        unfold match_len in *.
        assert (Hd1 : all_chars (fun c => negb (bool_decide (c = "."%char)))
                        ("/" +:+ path' +:+ "/") = true).
        { rewrite !all_chars_app, (plain_dotless _ Hpath'). done. }
        assert (Hd2 : all_chars (fun c => negb (bool_decide (c = "."%char)))
                        (path' +:+ "/") = true).
        { rewrite !all_chars_app, (plain_dotless _ Hpath'). done. }
        destruct (String.prefix ("/" +:+ path' +:+ "/")
                    (String c (sub_path anchor path O (Some c) s'))) eqn:H1.
        { rewrite (Hpat _ Hd1 H1). discriminate. }
        destruct (String.prefix (path' +:+ "/")
                    (String c (sub_path anchor path O (Some c) s'))) eqn:H2; [|done].
        rewrite (Hpat _ Hd2 H2).
        destruct (String.prefix ("/" +:+ path' +:+ "/") (String c s')); discriminate. }
      destruct Hpre as [[-> ->]|Hpre]; [done|].
      cbn [no_site] in Hpre. apply andb_true_iff in Hpre as [Hpre _].
      by destruct (site anchor' path' prev (String c s')).
    + apply IH; [simpl in Hlen; lia|].
      destruct Hpre as [?|Hpre]; [by left|right].
      cbn [no_site] in Hpre. by apply andb_true_iff in Hpre as [_ Hpre].
Qed.

End TwoPasses.


(** ** The six passes *)

(** The passes of [_rewrite_paths_for_bundled], in order. *)
Definition passes : list ((option ascii -> bool) * string) :=
  [ (line_start, "memory"); (after_delimiter, "memory");
    (line_start, "scripts"); (after_delimiter, "scripts");
    (line_start, "templates"); (after_delimiter, "templates") ].

Definition run_passes (l : list ((option ascii -> bool) * string)) (s : string) : string :=
  fold_left (fun s ap => sub_path ap.1 ap.2 O None s) l s.

Lemma rewrite_as_passes (s : string) :
  _rewrite_paths_for_bundled s = run_passes passes s.
Proof. reflexivity. Qed.

Definition valid_pass (ap : (option ascii -> bool) * string) : Prop :=
  is_anchor ap.1 /\ plain ap.2 = true.

Lemma passes_valid (ap : (option ascii -> bool) * string) :
  ap ∈ passes -> valid_pass ap.
Proof.
  unfold passes. intros Hin.
  repeat (apply elem_of_cons in Hin as [->|Hin];
          [split; [by (left + right)|by vm_compute]|]).
  by apply elem_of_nil in Hin.
Qed.

Lemma run_passes_no_site (l done : list ((option ascii -> bool) * string)) (s : string) :
  (forall ap, ap ∈ (done ++ l)%list -> valid_pass ap) ->
  (forall ap, ap ∈ done -> no_site ap.1 ap.2 None s = true) ->
  forall ap, ap ∈ (done ++ l)%list -> no_site ap.1 ap.2 None (run_passes l s) = true.
Proof.
  revert done s. induction l as [|ap0 l IH]; intros done s Hvalid Hdone ap Hap.
  { rewrite app_nil_r in Hap. by apply Hdone. }
  cbn [run_passes fold_left].
  change (no_site ap.1 ap.2 None (run_passes l (sub_path ap0.1 ap0.2 O None s)) = true).
  assert (Heq : (done ++ ap0 :: l)%list = ((done ++ [ap0]) ++ l)%list)
    by by rewrite <- app_assoc.
  rewrite Heq in Hap, Hvalid.
  apply (IH (done ++ [ap0])%list); [done| |done].
  intros ap1 Hap1.
  assert (valid_pass ap0) as [_ Hp0].
  { apply Hvalid, elem_of_app. left. apply elem_of_app. right. left. }
  assert (valid_pass ap1) as [Ha1 Hp1].
  { apply Hvalid, elem_of_app. by left. }
  apply (sub_path_makes_no_site ap0.1 ap1.1 ap0.2 ap1.2 Ha1 Hp0 Hp1 (String.length s));
    [done|].
  apply elem_of_app in Hap1 as [Hap1|Hap1]; [right; by apply Hdone|left].
  apply list_elem_of_singleton in Hap1. by subst.
Qed.

Lemma run_passes_fixed (l : list ((option ascii -> bool) * string)) (s : string) :
  (forall ap, ap ∈ l -> no_site ap.1 ap.2 None s = true) -> run_passes l s = s.
Proof.
  induction l as [|ap0 l IH]; intros Hl; [done|].
  cbn [run_passes fold_left]. rewrite sub_path_no_site by (apply Hl; left).
  apply IH. intros ap Hap. apply Hl. by right.
Qed.

(** The rewrite leaves no site behind. *)
Lemma rewrite_no_site (s : string) (ap : (option ascii -> bool) * string) :
  ap ∈ passes -> no_site ap.1 ap.2 None (_rewrite_paths_for_bundled s) = true.
Proof.
  intros Hap. rewrite rewrite_as_passes.
  apply (run_passes_no_site passes [] s); [apply passes_valid| |done].
  intros ap' Hap'. by apply elem_of_nil in Hap'.
Qed.

(** Applying [_rewrite_paths_for_bundled] twice gives what applying it
    once gives. *)
Theorem rewrite_paths_idempotent (content : string) :
  _rewrite_paths_for_bundled (_rewrite_paths_for_bundled content)
  = _rewrite_paths_for_bundled content.
Proof.
  rewrite (rewrite_as_passes (_rewrite_paths_for_bundled content)).
  apply run_passes_fixed. intros ap Hap. by apply rewrite_no_site.
Qed.

(** A text is returned as it is when none of its positions is at a
    line start or behind a delimiter and followed by [memory/],
    [scripts/] or [templates/], with or without a leading slash. *)
Theorem rewrite_paths_only_at_sites (content : string) :
  (forall path, path ∈ ["memory"; "scripts"; "templates"] ->
     no_site line_start path None content = true /\
     no_site after_delimiter path None content = true) ->
  _rewrite_paths_for_bundled content = content.
Proof.
  intros Hno. rewrite rewrite_as_passes. apply run_passes_fixed.
  destruct (Hno "memory") as [M1 M2]; [left|].
  destruct (Hno "scripts") as [S1 S2]; [right; left|].
  destruct (Hno "templates") as [T1 T2]; [right; right; left|].
  intros ap Hap. unfold passes in Hap.
  repeat (apply elem_of_cons in Hap as [->|Hap]; [assumption|]).
  by apply elem_of_nil in Hap.
Qed.


Lemma rewrite_paths_only_at_sites_witness :
  _rewrite_paths_for_bundled "see a/scripts/x, xmemory/y and .specforge/templates/t"
  = "see a/scripts/x, xmemory/y and .specforge/templates/t".
Proof.
  apply rewrite_paths_only_at_sites. intros path Hin.
  apply elem_of_cons in Hin as [->|Hin]; [vm_compute; split; reflexivity|].
  apply elem_of_cons in Hin as [->|Hin]; [vm_compute; split; reflexivity|].
  apply list_elem_of_singleton in Hin. subst path. vm_compute. split; reflexivity.
Defined.

(** A reference that is the whole text but for one character [d] before
    it: it is relocated behind a delimiter, relocated with [d] dropped
    when [d] is the slash at the start of the text, and kept otherwise.
    A reference already under [.specforge/] is kept whatever [d] is. *)
Theorem rewrite_paths_single_reference (d : ascii) :
  Forall (fun path =>
    _rewrite_paths_for_bundled (String d (path +:+ "/"))
    = (if after_delimiter (Some d) then String d (".specforge/" +:+ path +:+ "/")
       else if bool_decide (d = "/"%char) then ".specforge/" +:+ path +:+ "/"
       else String d (path +:+ "/")) /\
    _rewrite_paths_for_bundled (String d (".specforge/" +:+ path +:+ "/"))
    = String d (".specforge/" +:+ path +:+ "/") /\
    _rewrite_paths_for_bundled (path +:+ "/") = ".specforge/" +:+ path +:+ "/")
    ["memory"; "scripts"; "templates"].
Proof.
  destruct d as [[] [] [] [] [] [] [] []];
    repeat constructor; vm_compute; reflexivity.
Qed.

End RewriteProps.

(** * Properties of agent detection and of the agent list of [update] *)

Module UpdateProps.
Import Update.

(** Every key of [AGENT_COMMAND_DIRS] is a key of [AGENT_CONFIG]. *)
Lemma command_dirs_known (a : string) :
  a ∈ map fst AGENT_COMMAND_DIRS -> is_Some (agent_folder a).
Proof.
  intros Ha. unfold AGENT_COMMAND_DIRS in Ha. cbn [map fst] in Ha.
  repeat (apply elem_of_cons in Ha as [->|Ha]; [vm_compute; eauto|]).
  by apply elem_of_nil in Ha.
Qed.

Lemma detect_sublist (project_path : list string) (fs : gmap (list string) file) :
  detect_installed_agents project_path fs `sublist_of` map fst AGENT_COMMAND_DIRS.
Proof.
  unfold detect_installed_agents.
  induction AGENT_COMMAND_DIRS as [|[k [[cmd ext] arg]] l IH]; cbn [omap list_omap map fst].
  { constructor. }
  destruct (has_entry _ _ _); [by apply sublist_skip|by apply sublist_cons].
Qed.

Lemma has_entry_spec (fs : gmap (list string) file) (dir : list string)
    (name_ok : string -> bool) :
  has_entry fs dir name_ok = true <->
  exists name rest f, fs !! (dir ++ name :: rest)%list = Some f /\ name_ok name = true.
Proof.
  unfold has_entry. rewrite existsb_exists. split.
  - intros ([p f] & Hin & Hok). apply list_elem_of_In, elem_of_map_to_list in Hin.
    cbn [fst] in Hok.
    destruct (WorkingSync.relative_to p dir) as [[|name rest]|] eqn:Hrel; try done.
    apply WorkingSyncProps.relative_to_Some in Hrel. subst p. by exists name, rest, f.
  - intros (name & rest & f & Hf & Hok). exists ((dir ++ name :: rest)%list, f). split.
    + by apply list_elem_of_In, elem_of_map_to_list.
    + cbn [fst].
      assert (WorkingSync.relative_to (dir ++ name :: rest)%list dir = Some (name :: rest))
        as -> by by apply WorkingSyncProps.relative_to_Some.
      done.
Qed.

(** An agent is detected exactly when some file lies in, or below an
    entry of, its command directory whose name starts with
    [specforge.]; the detected agents are distinct, in table order, and
    known to [AGENT_CONFIG]. *)
Theorem detect_installed_agents_spec (project_path : list string)
    (fs : gmap (list string) file) :
  NoDup (detect_installed_agents project_path fs) /\
  detect_installed_agents project_path fs `sublist_of` map fst AGENT_COMMAND_DIRS /\
  (forall a, a ∈ detect_installed_agents project_path fs -> is_Some (agent_folder a)) /\
  (forall a, a ∈ detect_installed_agents project_path fs <->
     exists cmd_dir ext arg name rest f,
       (a, (cmd_dir, ext, arg)) ∈ AGENT_COMMAND_DIRS /\
       fs !! (project_path ++ cmd_dir ++ name :: rest)%list = Some f /\
       String.prefix "specforge." name = true).
Proof.
  split_and!.
  - eapply sublist_NoDup; [|apply detect_sublist].
    apply (bool_decide_unpack _). vm_compute. reflexivity.
  - apply detect_sublist.
  - intros a Ha. apply command_dirs_known.
    eapply elem_of_sublist; [done|apply detect_sublist].
  - intros a. unfold detect_installed_agents. rewrite list_elem_of_omap. split.
    + intros ([k [[cmd ext] arg]] & Hin & Hsel).
      destruct (has_entry fs (project_path ++ cmd)%list _) eqn:Hentry; [|done].
      injection Hsel as ->. apply has_entry_spec in Hentry as (name & rest & f & Hf & Hok).
      exists cmd, ext, arg, name, rest, f. rewrite <- app_assoc in Hf. done.
    + intros (cmd & ext & arg & name & rest & f & Hin & Hf & Hok).
      exists (a, (cmd, ext, arg)). split; [done|].
      assert (has_entry fs (project_path ++ cmd)%list
                (fun name => String.prefix "specforge." name) = true) as ->; [|done].
      apply has_entry_spec. exists name, rest, f. by rewrite <- app_assoc.
Qed.


(** ** The agent list *)

Lemma fromkeys_spec (acc l : list string) :
  NoDup acc ->
  NoDup (fromkeys acc l) /\
  (forall x, x ∈ fromkeys acc l <-> x ∈ acc \/ x ∈ l) /\
  acc `prefix_of` fromkeys acc l.
Proof.
  revert acc. induction l as [|y l IH]; intros acc Hnd; cbn [fromkeys].
  { split_and!; [done| |done]. intros x. rewrite elem_of_nil. naive_solver. }
  destruct (decide (y ∈ acc)) as [Hy|Hy].
  - destruct (IH acc Hnd) as (H1 & H2 & H3). split_and!; [done| |done].
    intros x. rewrite H2, elem_of_cons. naive_solver.
  - destruct (IH (acc ++ [y])%list) as (H1 & H2 & H3).
    { apply NoDup_app. split_and!; [done| |apply NoDup_singleton].
      intros x Hx Hx'. apply list_elem_of_singleton in Hx'. by subst. }
    split_and!; [done| |].
    + intros x. rewrite H2, elem_of_app, list_elem_of_singleton, elem_of_cons.
      naive_solver.
    + etrans; [|done]. by apply prefix_app_r.
Qed.

Lemma fromkeys_NoDup_id (acc l : list string) :
  NoDup (acc ++ l)%list -> fromkeys acc l = (acc ++ l)%list.
Proof.
  revert acc. induction l as [|y l IH]; intros acc Hnd; cbn [fromkeys].
  { by rewrite app_nil_r. }
  assert (y ∉ acc).
  { apply NoDup_app in Hnd as (_ & Hd & _). intros Hy. apply (Hd y Hy). left. }
  rewrite decide_False by done. rewrite IH; rewrite <- app_assoc; done.
Qed.

Lemma agents_to_add_spec (installed add acc : list string) :
  match agents_to_add installed add acc with
  | Some r =>
    (forall x, x ∈ add -> is_Some (dict_get x AGENT_CONFIG)) /\
    (forall x, x ∈ r <-> x ∈ acc \/ (x ∈ add /\ x ∉ installed))
  | None => exists x, x ∈ add /\ dict_get x AGENT_CONFIG = None
  end.
Proof.
  revert acc. induction add as [|y add IH]; intros acc; cbn [agents_to_add].
  { split; [intros x Hx; by apply elem_of_nil in Hx|].
    intros x. rewrite elem_of_nil. naive_solver. }
  destruct (dict_get y AGENT_CONFIG) as [cfg|] eqn:Hy.
  2:{ exists y. split; [left|done]. }
  destruct (decide (y ∈ installed)) as [Hin|Hin].
  - specialize (IH acc). destruct (agents_to_add installed add acc) as [r|].
    + destruct IH as [Hk Hr]. split.
      * intros x Hx. apply elem_of_cons in Hx as [->|Hx]; [by rewrite Hy|auto].
      * intros x. rewrite Hr, elem_of_cons. naive_solver.
    + destruct IH as (x & Hx & Hnone). exists x. split; [by right|done].
  - specialize (IH (acc ++ [y])%list).
    destruct (agents_to_add installed add (acc ++ [y])%list) as [r|].
    + destruct IH as [Hk Hr]. split.
      * intros x Hx. apply elem_of_cons in Hx as [->|Hx]; [by rewrite Hy|auto].
      * intros x. rewrite Hr, elem_of_app, list_elem_of_singleton, elem_of_cons.
        naive_solver.
    + destruct IH as (x & Hx & Hnone). exists x. split; [by right|done].
Qed.

(** [update] stops on an [--add] agent that is not in [AGENT_CONFIG];
    otherwise its agent list has no duplicate, holds exactly the
    detected and the added agents, and starts with the detected ones in
    their order. *)
Theorem all_agents_spec (installed add : list string) :
  match all_agents installed add with
  | Some l =>
    (forall x, x ∈ add -> is_Some (dict_get x AGENT_CONFIG)) /\
    NoDup l /\
    (forall x, x ∈ l <-> x ∈ installed \/ x ∈ add) /\
    (NoDup installed -> installed `prefix_of` l)
  | None => exists x, x ∈ add /\ dict_get x AGENT_CONFIG = None
  end.
Proof.
  unfold all_agents. pose proof (agents_to_add_spec installed add []) as Hadd.
  destruct (agents_to_add installed add []) as [r|]; [|done].
  cbn [mbind option_bind]. destruct Hadd as [Hk Hr].
  destruct (fromkeys_spec [] (installed ++ r)%list) as (H1 & H2 & _); [constructor|].
  split_and!; [done|done| |].
  - intros x. rewrite H2, elem_of_app, Hr, !elem_of_nil.
    destruct (decide (x ∈ installed)); naive_solver.
  - intros Hnd.
    assert (fromkeys [] (installed ++ r)%list = fromkeys installed r) as ->.
    { clear -Hnd. assert (Hgen : forall acc l,
        NoDup (acc ++ l)%list -> forall r, fromkeys acc (l ++ r)%list
                                           = fromkeys (acc ++ l)%list r).
      { intros acc l. revert acc. induction l as [|y l IH]; intros acc Hn r'.
        - by rewrite app_nil_r.
        - cbn [app fromkeys]. assert (y ∉ acc).
          { apply NoDup_app in Hn as (_ & Hd & _). intros Hy. apply (Hd y Hy). left. }
          rewrite decide_False by done. rewrite IH; rewrite <- app_assoc; done. }
      by apply (Hgen [] installed). }
    by apply fromkeys_spec.
Qed.




End UpdateProps.

(** * Properties of the shared-resource updater *)

Module SharedResourcesProps.
Import SharedResources.

(** The files and directories at and below [root] are the same in both
    trees. *)
Definition same_below (root : list string) (t t' : tree) : Prop :=
  forall q, root `prefix_of` q ->
    files t' !! q = files t !! q /\ (q ∈ dirs t' <-> q ∈ dirs t).

(** A computation that leaves everything at and below [root] alone,
    whether it returns or raises. *)
Definition keeps {A : Type} (root : list string) (m : M A) : Prop :=
  forall t, same_below root t (m t).2.

(** Neither path is a prefix of the other. *)
Definition diverges (p root : list string) : Prop :=
  ¬ p `prefix_of` root /\ ¬ root `prefix_of` p.

Lemma same_below_refl root t : same_below root t t.
Proof. by intros q _. Qed.

Lemma same_below_trans root t1 t2 t3 :
  same_below root t1 t2 -> same_below root t2 t3 -> same_below root t1 t3.
Proof.
  intros H12 H23 q Hq. destruct (H12 q Hq) as [? ?], (H23 q Hq) as [? ?].
  split; [congruence|tauto].
Qed.

Section Keeps.
Variable root : list string.

Lemma keeps_ret {A : Type} (a : A) : keeps root (ret a).
Proof. intros t. apply same_below_refl. Qed.

Lemma keeps_raise {A : Type} : keeps root (@raise A).
Proof. intros t. apply same_below_refl. Qed.

Lemma keeps_bind {A B : Type} (m : M A) (k : A -> M B) :
  keeps root m -> (forall a, keeps root (k a)) -> keeps root (bind m k).
Proof.
  intros Hm Hk t. unfold bind. specialize (Hm t).
  destruct (m t) as [[a|] t1]; [|done].
  eapply same_below_trans; [exact Hm|apply Hk].
Qed.

Lemma keeps_get {A : Type} (k : tree -> M A) :
  (forall t, keeps root (k t)) -> keeps root (bind get k).
Proof. intros Hk t. unfold bind, get. apply Hk. Qed.

Lemma keeps_attempt {A : Type} (m : M A) : keeps root m -> keeps root (attempt m).
Proof. intros Hm t. unfold attempt. specialize (Hm t). by destruct (m t) as [[a|] t1]. Qed.

Lemma keeps_for_each {A : Type} (l : list A) (body : A -> M unit) :
  (forall x, keeps root (body x)) -> keeps root (for_each l body).
Proof.
  intros Hb. induction l as [|x l IH]; cbn [for_each]; [apply keeps_ret|].
  apply keeps_bind; [apply Hb|by intros _].
Qed.

Lemma keeps_for_all {A : Type} (l : list A) (body : A -> M bool) :
  (forall x, keeps root (body x)) -> keeps root (for_all l body).
Proof.
  intros Hb. induction l as [|x l IH]; cbn [for_all]; [apply keeps_ret|].
  apply keeps_bind; [apply Hb|]. intros ok.
  apply keeps_bind; [done|]. intros oks. apply keeps_ret.
Qed.

Lemma keeps_when_exists (p : list string) (m : M unit) :
  keeps root m -> keeps root (when_exists p m).
Proof.
  intros Hm. apply keeps_get. intros t. destruct (path_exists t p); [done|apply keeps_ret].
Qed.

Lemma diverges_below (p q : list string) :
  diverges p root -> root `prefix_of` q -> ¬ p `prefix_of` q.
Proof.
  intros [H1 H2] Hq Hp. destruct (prefix_weak_total p root q Hp Hq); done.
Qed.

Lemma diverges_app (p r : list string) : diverges p root -> diverges (p ++ r)%list root.
Proof.
  intros [H1 H2]. split.
  - intros H. apply H1. etrans; [|done]. by apply prefix_app_r.
  - intros H. destruct (prefix_weak_total p root (p ++ r)%list); [by apply prefix_app_r|done|done|done].
Qed.

Lemma keeps_mkdir_p (p : list string) : diverges p root -> keeps root (mkdir_p p).
Proof.
  intros [_ Hd] t q Hq. unfold mkdir_p.
  destruct (existsb _ _); [done|]. cbn [snd files dirs]. split; [done|].
  rewrite elem_of_union, elem_of_list_to_set. split; [|by left].
  intros [?|Hin]; [done|]. exfalso.
  unfold ancestors_and_self in Hin. apply list_elem_of_fmap in Hin as (n & -> & _).
  apply Hd. etrans; [exact Hq|]. apply prefix_take.
Qed.

Lemma keeps_rmtree (p : list string) : diverges p root -> keeps root (rmtree p).
Proof.
  intros Hd t q Hq. unfold rmtree. destruct (is_dir t p); [|done].
  cbn [snd files dirs]. pose proof (diverges_below p q Hd Hq) as Hnp. split.
  - destruct (files t !! q) as [f|] eqn:Hf.
    + by apply map_lookup_filter_Some.
    + apply map_lookup_filter_None. by left.
  - rewrite elem_of_filter. tauto.
Qed.

Lemma keeps_copy2 (src dst : list string) : diverges dst root -> keeps root (copy2 src dst).
Proof.
  intros Hd t q Hq. unfold copy2.
  destruct (files t !! src) as [f|]; [|done].
  destruct (_ || _); [done|]. cbn [snd files dirs]. split; [|done].
  apply lookup_insert_ne. intros <-.
  destruct (is_dir t dst).
  - destruct (last src); [|by destruct Hd].
    by destruct (diverges_app dst [s] Hd).
  - by destruct Hd.
Qed.

Lemma keeps_copytree_depth (depth : nat) (src dst : list string) :
  diverges dst root -> keeps root (copytree_depth depth src dst).
Proof.
  revert src dst. induction depth as [|n IH]; intros src dst Hd; cbn [copytree_depth].
  { apply keeps_raise. }
  apply keeps_get. intros t. destruct (negb (is_dir t src)); [apply keeps_raise|].
  apply keeps_bind; [by apply keeps_mkdir_p|]. intros _.
  apply keeps_bind.
  { apply keeps_for_all. intros name. apply keeps_attempt, keeps_copy2.
    by apply diverges_app. }
  intros ok1. apply keeps_bind.
  { apply keeps_for_all. intros name. apply keeps_attempt, IH. by apply diverges_app. }
  intros ok2. destruct (ok1 && ok2); [apply keeps_ret|apply keeps_raise].
Qed.

Lemma keeps_copytree (src dst : list string) :
  diverges dst root -> keeps root (copytree src dst).
Proof. intros Hd t. unfold copytree. by apply keeps_copytree_depth. Qed.

Lemma keeps_copy_root_files (src_dir dest_dir : list string) :
  diverges dest_dir root -> keeps root (copy_root_files src_dir dest_dir).
Proof.
  intros Hd. apply keeps_get. intros t.
  destruct (negb (is_dir t src_dir)); [apply keeps_raise|].
  apply keeps_for_each. intros name. apply keeps_copy2. by apply diverges_app.
Qed.

Lemma keeps_copy_items (skip src_dir dest_dir : list string) :
  diverges dest_dir root -> keeps root (copy_items skip src_dir dest_dir).
Proof.
  intros Hd. apply keeps_get. intros t.
  destruct (negb (is_dir t src_dir)); [apply keeps_raise|].
  apply keeps_bind.
  - apply keeps_for_each. intros name. apply keeps_copy2. by apply diverges_app.
  - intros _. apply keeps_for_each. intros name. apply keeps_copytree.
    by apply diverges_app.
Qed.

End Keeps.


(** Two different entries of one directory diverge. *)
Lemma siblings_diverge (base : list string) (a b : string) :
  a <> b -> diverges (base ++ [a])%list (base ++ [b])%list.
Proof.
  intros Hab. split; intros [r Hr]; rewrite <- app_assoc in Hr;
    apply app_inv_head in Hr; simpl in Hr; congruence.
Qed.

(** The memory directory of a project. *)
Definition memory_root (project_path : list string) : list string :=
  ((project_path ++ [".specforge"]) ++ ["memory"])%list.

Lemma keeps_update_from_bundle (project_path : list string) (script_type : string)
    (bundled_path : list string) :
  keeps (memory_root project_path)
        (update_from_bundle project_path script_type bundled_path).
Proof.
  unfold update_from_bundle, memory_root.
  assert (Hs := siblings_diverge (project_path ++ [".specforge"]) "scripts" "memory").
  assert (Ht := siblings_diverge (project_path ++ [".specforge"]) "templates" "memory").
  apply keeps_bind; [|intros _; apply keeps_bind; [|intros _; apply keeps_ret]].
  - apply keeps_when_exists, keeps_bind.
    { apply keeps_when_exists, keeps_rmtree. by apply Hs. }
    intros _. apply keeps_bind; [apply keeps_mkdir_p; by apply Hs|]. intros _.
    apply keeps_bind; [|intros _; apply keeps_copy_root_files; by apply Hs].
    repeat case_decide; try apply keeps_ret;
      apply keeps_when_exists, keeps_copytree, diverges_app; by apply Hs.
  - apply keeps_when_exists, keeps_bind; [apply keeps_mkdir_p; by apply Ht|].
    intros _. apply keeps_copy_items. by apply Ht.
Qed.

Lemma keeps_update_from_download (project_path : list string)
    (extracted : option (list string)) :
  keeps (memory_root project_path) (update_from_download project_path extracted).
Proof.
  unfold update_from_download, memory_root. intros t.
  assert (Hs := siblings_diverge (project_path ++ [".specforge"]) "scripts" "memory").
  assert (Ht := siblings_diverge (project_path ++ [".specforge"]) "templates" "memory").
  destruct extracted as [source_dir|]; [|apply same_below_refl].
  destruct (negb (path_exists t _)); [apply same_below_refl|].
  match goal with |- context [bind ?m ?k t] =>
    assert (Hk : keeps ((project_path ++ [".specforge"]) ++ ["memory"])%list (bind m k)) end.
  { apply keeps_bind.
    - apply keeps_when_exists, keeps_bind.
      + apply keeps_when_exists, keeps_rmtree. by apply Hs.
      + intros _. apply keeps_copytree. by apply Hs.
    - intros _. apply keeps_when_exists, keeps_bind; [apply keeps_mkdir_p; by apply Ht|].
      intros _. apply keeps_copy_items. by apply Ht. }
  specialize (Hk t). by destruct (bind _ _ t) as [[[]|] t'].
Qed.

(** [update_shared_resources] never touches [.specforge/memory]: for
    every project, script type and source, whether it returns [True],
    returns [False] or raises, every file at or below the memory
    directory has the content and times it had, none is added or
    removed, and the same holds for the directories there. *)
Theorem update_shared_resources_keeps_memory (project_path : list string)
    (script_type : string) (bundled_path : option (list string)) (force_download : bool)
    (extracted : option (list string)) (t : tree) (q : list string) :
  let t' := (update_shared_resources project_path script_type bundled_path
               force_download extracted t).2 in
  memory_root project_path `prefix_of` q ->
  files t' !! q = files t !! q /\ (q ∈ dirs t' <-> q ∈ dirs t).
Proof.
  intros t' Hq. subst t'. revert q Hq.
  change (same_below (memory_root project_path) t
            (update_shared_resources project_path script_type bundled_path
               force_download extracted t).2).
  unfold update_shared_resources.
  destruct bundled_path as [b|]; [destruct force_download|].
  - apply keeps_update_from_download.
  - apply keeps_update_from_bundle.
  - apply keeps_update_from_download.
Qed.


(** A project with a memory file and a stale script, and a bundle. *)
Definition demo_tree : tree :=
  Tree (<[ ["p"; ".specforge"; "memory"; "constitution.md"] := File "mine" 3 ]>
        (<[ ["p"; ".specforge"; "scripts"; "old.sh"] := File "old" 1 ]>
        (<[ ["b"; "scripts"; "bash"; "run.sh"] := File "#!run" 7 ]>
        (<[ ["b"; "scripts"; "README"] := File "readme" 7 ]>
        (<[ ["b"; "templates"; "spec.md"] := File "spec" 7 ]>
        (<[ ["b"; "memory"; "constitution.md"] := File "fresh" 9 ]> ∅))))))
       (list_to_set [["p"]; ["p"; ".specforge"]; ["p"; ".specforge"; "memory"];
                     ["p"; ".specforge"; "scripts"]; ["b"]; ["b"; "scripts"];
                     ["b"; "scripts"; "bash"]; ["b"; "templates"]; ["b"; "memory"]]).

Lemma update_shared_resources_keeps_memory_witness :
  let t' := (update_shared_resources ["p"] "sh" (Some ["b"]) false None demo_tree).2 in
  files t' !! ["p"; ".specforge"; "memory"; "constitution.md"]
  = files demo_tree !! ["p"; ".specforge"; "memory"; "constitution.md"] /\
  (["p"; ".specforge"; "memory"; "constitution.md"] ∈ dirs t' <->
   ["p"; ".specforge"; "memory"; "constitution.md"] ∈ dirs demo_tree).
Proof.
  apply (update_shared_resources_keeps_memory ["p"] "sh" (Some ["b"]) false None demo_tree
           ["p"; ".specforge"; "memory"; "constitution.md"]).
  exists ["constitution.md"]. reflexivity.
Defined.

End SharedResourcesProps.

(** * Properties of the step tracker *)

Module StepTrackerProps.
Import StepTracker.

Lemma keys_add (k l : string) (steps : list step) :
  map key (add k l steps)
  = if decide (k ∈ map key steps) then map key steps else (map key steps ++ [k])%list.
Proof. unfold add. case_decide; [done|]. by rewrite map_app. Qed.

Lemma keys_update (k st d : string) (steps : list step) :
  map key (_update k st d steps)
  = if decide (k ∈ map key steps) then map key steps else (map key steps ++ [k])%list.
Proof.
  induction steps as [|s rest IH].
  - cbn [_update map]. rewrite decide_False; [done|]. apply not_elem_of_nil.
  - cbn [_update]. destruct (decide (key s = k)) as [Hk|Hk].
    + cbn [map key]. rewrite decide_True; [done|]. subst k. left.
    + cbn [map]. rewrite IH. destruct (decide (k ∈ map key rest)) as [Hin|Hin].
      * rewrite decide_True; [done|]. by right.
      * rewrite decide_False; [done|]. intros Hc. apply elem_of_cons in Hc as [->|Hc]; done.
Qed.

Lemma keys_apply_call (c : call) (steps : list step) :
  map key (apply_call c steps)
  = if decide (call_key c ∈ map key steps) then map key steps
    else (map key steps ++ [call_key c])%list.
Proof. destruct c; simpl; [apply keys_add|apply keys_update..]. Qed.

Lemma keys_fold (calls : list call) (steps : list step) :
  map key (fold_left (fun steps c => apply_call c steps) calls steps)
  = Update.fromkeys (map key steps) (map call_key calls).
Proof.
  revert steps. induction calls as [|c calls IH]; intros steps; simpl; [done|].
  rewrite IH, keys_apply_call. done.
Qed.

(** After any sequence of [add], [start], [complete], [error] and
    [skip] on a new tracker, the steps carry the keys of the calls, each
    once, in the order of their first mention. *)
Theorem tracker_keys_first_mention (calls : list call) :
  map key (run calls) = Update.fromkeys [] (map call_key calls) /\
  NoDup (map key (run calls)).
Proof.
  assert (map key (run calls) = Update.fromkeys [] (map call_key calls)) as Heq
    by apply (keys_fold calls []).
  split; [done|]. rewrite Heq.
  apply (UpdateProps.fromkeys_spec [] (map call_key calls)). constructor.
Qed.

Lemma step_of_add_other (k k' l : string) (steps : list step) :
  is_Some (step_of k steps) -> step_of k (add k' l steps) = step_of k steps.
Proof.
  unfold add. case_decide; [done|]. intros Hs.
  induction steps as [|s rest IH]; simpl in *.
  - by destruct Hs.
  - case_decide; [done|]. apply IH; [|done].
    intros Hin. apply H. by right.
Qed.

Lemma step_of_is_Some (k : string) (steps : list step) :
  is_Some (step_of k steps) <-> k ∈ map key steps.
Proof.
  induction steps as [|s rest IH]; simpl.
  - split; [by intros []|by intros ?%elem_of_nil].
  - case_decide as Hk.
    + split; [|by eauto]. intros _. subst k. left.
    + rewrite IH, elem_of_cons. naive_solver.
Qed.

Lemma step_of_app_one (k : string) (s : step) (steps : list step) :
  step_of k (steps ++ [s])
  = match step_of k steps with
    | Some x => Some x
    | None => if decide (key s = k) then Some s else None
    end.
Proof.
  induction steps as [|s0 rest IH]; simpl; [done|].
  destruct (decide (key s0 = k)); [done|apply IH].
Qed.

Lemma step_of_add_ne (k k' l : string) (steps : list step) :
  k' <> k -> step_of k (add k' l steps) = step_of k steps.
Proof.
  intros Hne. unfold add. case_decide; [done|]. rewrite step_of_app_one.
  destruct (step_of k steps); [done|]. simpl. by rewrite decide_False.
Qed.

Lemma step_of_add_eq (k l : string) (steps : list step) :
  step_of k (add k l steps) = Some (default (Step k l "pending" "") (step_of k steps)).
Proof.
  unfold add. case_decide as Hin.
  - apply step_of_is_Some in Hin as [s Hs]. by rewrite Hs.
  - rewrite step_of_app_one.
    assert (step_of k steps = None) as ->.
    { apply eq_None_not_Some. by rewrite step_of_is_Some. }
    simpl. by rewrite decide_True.
Qed.

Lemma step_of_update_ne (k k' st d : string) (steps : list step) :
  k' <> k -> step_of k (_update k' st d steps) = step_of k steps.
Proof.
  intros Hne. induction steps as [|s rest IH]; simpl.
  - by rewrite decide_False.
  - destruct (decide (key s = k')) as [Hk'|Hk']; simpl.
    + rewrite !decide_False by congruence. done.
    + case_decide; [done|apply IH].
Qed.

Lemma step_of_update_eq (k st d : string) (steps : list step) :
  step_of k (_update k st d steps)
  = Some (match step_of k steps with
          | Some s => Step k (label s) st (if decide (d = "") then detail s else d)
          | None => Step k k st d
          end).
Proof.
  induction steps as [|s rest IH]; simpl.
  - by rewrite decide_True.
  - destruct (decide (key s = k)) as [Hk|Hk]; simpl.
    + rewrite decide_True by done. by subst k.
    + rewrite decide_False by done. apply IH.
Qed.

Lemma update_of_call (c : call) (st : string) (steps : list step) :
  call_status c = Some st ->
  apply_call c steps = _update (call_key c) st (call_detail c) steps.
Proof. destruct c; simpl; intros [= <-]; done. Qed.

(** Calls that set no status on the key keep its step. *)
Lemma step_of_quiet (k : string) (post : list call) (steps : list step) :
  is_Some (step_of k steps) ->
  (forall c, c ∈ post -> call_key c = k -> call_status c = None) ->
  step_of k (fold_left (fun steps c => apply_call c steps) post steps) = step_of k steps.
Proof.
  revert steps. induction post as [|c post IH]; intros steps Hs Hq; simpl; [done|].
  assert (step_of k (apply_call c steps) = step_of k steps) as Hc.
  { destruct (call_status c) as [st|] eqn:Hst.
    - rewrite (update_of_call c st) by done. apply step_of_update_ne.
      intros Hk. specialize (Hq c (list_elem_of_here _ _) Hk). congruence.
    - destruct c; try discriminate. simpl. by apply step_of_add_other. }
  rewrite IH.
  - done.
  - by rewrite Hc.
  - intros c' Hc'. apply Hq. by right.
Qed.

(** The last status set for a key is the one the tracker shows: after
    a call of [start], [complete], [error] or [skip] on a key, followed
    by calls none of which sets a status on that key, the step of the
    key has the status of that call, the label it had before (its key
    when the call created it), and the detail of the call, or the
    detail it had before when the call gave an empty one. *)
Theorem tracker_last_status_wins (calls post : list call) (c : call) (st : string) :
  call_status c = Some st ->
  (forall c', c' ∈ post -> call_key c' = call_key c -> call_status c' = None) ->
  step_of (call_key c) (run (calls ++ c :: post))
  = Some (match step_of (call_key c) (run calls) with
          | Some s => Step (call_key c) (label s) st
                        (if decide (call_detail c = "") then detail s else call_detail c)
          | None => Step (call_key c) (call_key c) st (call_detail c)
          end).
Proof.
  intros Hst Hq. unfold run. rewrite fold_left_app. simpl.
  rewrite step_of_quiet; [|rewrite (update_of_call c st) by done; rewrite step_of_update_eq; eauto|done].
  rewrite (update_of_call c st) by done. apply step_of_update_eq.
Qed.

Lemma tracker_last_status_wins_witness :
  step_of "fetch" (run ([Add "fetch" "Fetch release"; Start "fetch" "contacting"]
                         ++ Complete "fetch" "" :: [Add "fetch" "again"; Start "chmod" ""]))
  = Some (Step "fetch" "Fetch release" "done" "contacting").
Proof.
  apply (tracker_last_status_wins [Add "fetch" "Fetch release"; Start "fetch" "contacting"]
           [Add "fetch" "again"; Start "chmod" ""] (Complete "fetch" "") "done").
  - reflexivity.
  - intros c' Hc' Hk.
    apply elem_of_cons in Hc' as [->|Hc']; [reflexivity|].
    apply list_elem_of_singleton in Hc' as ->. discriminate Hk.
Defined.

(** [add] on a key the tracker already has changes nothing, whatever the
    label: the first label of a key stays. *)
Theorem tracker_add_existing (calls : list call) (k l : string) :
  k ∈ map call_key calls -> run (calls ++ [Add k l]) = run calls.
Proof.
  intros Hk. unfold run. rewrite fold_left_app. simpl. unfold add.
  rewrite decide_True; [done|].
  rewrite (keys_fold calls []).
  apply (UpdateProps.fromkeys_spec [] (map call_key calls)); [constructor|by right].
Qed.

Lemma tracker_add_existing_witness :
  run ([Start "git" "init"] ++ [Add "git" "Initialize git repository"]) = run [Start "git" "init"].
Proof.
  apply (tracker_add_existing [Start "git" "init"] "git" "Initialize git repository").
  vm_compute. left.
Defined.

End StepTrackerProps.

(** * Properties of the execute bits *)

Module ExecutableScriptsProps.
Import ExecutableScripts.

(** ** Mode bits *)

Lemma land_pow2 (m k : Z) :
  0 <= k -> Z.land m (2 ^ k) = if Z.testbit m k then 2 ^ k else 0.
Proof.
  intros Hk. apply Z.bits_inj'. intros n Hn.
  rewrite Z.land_spec, Z.pow2_bits_eqb by done.
  destruct (Z.eqb_spec k n) as [->|Hne].
  - destruct (Z.testbit m n) eqn:Hb; rewrite ?Z.bits_0; [|done].
    rewrite Z.pow2_bits_eqb, Z.eqb_refl by done. done.
  - rewrite andb_false_r. destruct (Z.testbit m k); rewrite ?Z.bits_0; [|done].
    rewrite Z.pow2_bits_eqb by done. symmetry. by apply Z.eqb_neq.
Qed.

Lemma land_pow2_ne (m k : Z) :
  0 <= k -> (Z.land m (2 ^ k) <> 0 <-> Z.testbit m k = true).
Proof.
  intros Hk. rewrite land_pow2 by done. destruct (Z.testbit m k); [|naive_solver].
  split; [done|]. intros _. apply Z.pow_nonzero; lia.
Qed.

Lemma decide_land_ne (m k : Z) {A} (x y : A) :
  0 <= k ->
  (if decide (Z.land m (2 ^ k) <> 0) then x else y) = if Z.testbit m k then x else y.
Proof.
  intros Hk. destruct (decide _) as [H|H].
  - apply land_pow2_ne in H as ->; done.
  - destruct (Z.testbit m k) eqn:Hb; [|done]. exfalso. apply H. by apply land_pow2_ne.
Qed.

Lemma decide_land_eq (m k : Z) {A} (x y : A) :
  0 <= k ->
  (if decide (Z.land m (2 ^ k) = 0) then x else y) = if Z.testbit m k then y else x.
Proof.
  intros Hk. destruct (decide _) as [H|H].
  - destruct (Z.testbit m k) eqn:Hb; [|done]. exfalso. by apply (land_pow2_ne m k).
  - apply land_pow2_ne in H as ->; done.
Qed.

Lemma testbit_const (k n : Z) : 0 <= k -> Z.testbit (2 ^ k) n = bool_decide (n = k).
Proof.
  intros Hk. rewrite Z.pow2_bits_eqb by done.
  destruct (Z.eqb_spec k n); [by rewrite bool_decide_true|by rewrite bool_decide_false].
Qed.

Lemma if_land_256 (m : Z) {A} (x y : A) :
  (if decide (Z.land m 256 <> 0) then x else y) = if Z.testbit m 8 then x else y.
Proof. apply (decide_land_ne m 8). lia. Qed.

Lemma if_land_32 (m : Z) {A} (x y : A) :
  (if decide (Z.land m 32 <> 0) then x else y) = if Z.testbit m 5 then x else y.
Proof. apply (decide_land_ne m 5). lia. Qed.

Lemma if_land_4 (m : Z) {A} (x y : A) :
  (if decide (Z.land m 4 <> 0) then x else y) = if Z.testbit m 2 then x else y.
Proof. apply (decide_land_ne m 2). lia. Qed.

Lemma if_land_64 (m : Z) {A} (x y : A) :
  (if decide (Z.land m 64 = 0) then x else y) = if Z.testbit m 6 then y else x.
Proof. apply (decide_land_eq m 6). lia. Qed.

Lemma testbit_64 (n : Z) : Z.testbit 64 n = bool_decide (n = 6).
Proof. apply (testbit_const 6 n). lia. Qed.

Lemma testbit_8 (n : Z) : Z.testbit 8 n = bool_decide (n = 3).
Proof. apply (testbit_const 3 n). lia. Qed.

Lemma testbit_1 (n : Z) : Z.testbit 1 n = bool_decide (n = 0).
Proof. apply (testbit_const 0 n). lia. Qed.

Lemma new_mode_bits (mode n : Z) :
  Z.testbit (new_mode mode) n
  = Z.testbit mode n
    || bool_decide (n = 6)
    || bool_decide (n = 3) && Z.testbit mode 5
    || bool_decide (n = 0) && Z.testbit mode 2.
Proof.
  unfold new_mode. cbv zeta.
  rewrite if_land_64, if_land_256, if_land_32, if_land_4.
  destruct (Z.testbit mode 8) eqn:H8, (Z.testbit mode 5) eqn:H5, (Z.testbit mode 2) eqn:H2;
    cbv iota;
    match goal with |- context [if ?c then _ else _] => destruct c eqn:E end;
    rewrite ?Z.lor_spec, ?testbit_64, ?testbit_8, ?testbit_1 in *;
    repeat case_bool_decide; subst; try lia;
    rewrite ?H5, ?H2, ?andb_true_r, ?andb_false_r, ?orb_true_r, ?orb_false_r in *;
    try done.
Qed.

Lemma new_mode_has_execute_bit (mode : Z) : Z.land (new_mode mode) 73 <> 0.
Proof.
  intros Hz. assert (Z.testbit (Z.land (new_mode mode) 73) 6 = true) as Hb.
  { rewrite Z.land_spec, new_mode_bits. rewrite (bool_decide_true (6 = 6)) by done.
    by rewrite orb_true_r. }
  rewrite Hz in Hb. by rewrite Z.bits_0 in Hb.
Qed.

(** The mode that [ensure_executable_scripts] gives to [os.chmod], bit
    by bit (bit 6 is 0o100, bit 5 is 0o040, bit 3 is 0o010, bit 2 is
    0o004, bit 0 is 0o001): the owner's execute bit is always set, also
    for a file its owner cannot read; the group's and the others'
    execute bits are set when the matching read bit is; every bit that
    was set stays set, and no other bit is set. *)
Theorem new_mode_adds_execute_bits (mode : Z) :
  Z.testbit (new_mode mode) 6 = true /\
  Z.testbit (new_mode mode) 3 = Z.testbit mode 3 || Z.testbit mode 5 /\
  Z.testbit (new_mode mode) 0 = Z.testbit mode 0 || Z.testbit mode 2 /\
  (forall n, n <> 6 -> n <> 3 -> n <> 0 ->
     Z.testbit (new_mode mode) n = Z.testbit mode n) /\
  Z.land (new_mode mode) 73 <> 0.
Proof.
  assert (Z.testbit (new_mode mode) 6 = true) as H6.
  { rewrite new_mode_bits. rewrite (bool_decide_true (6 = 6)) by done.
    by rewrite orb_true_r. }
  split_and!.
  - done.
  - rewrite new_mode_bits. rewrite (bool_decide_false (3 = 6)), (bool_decide_true (3 = 3)),
      (bool_decide_false (3 = 0)) by done.
    destruct (Z.testbit mode 3), (Z.testbit mode 5), (Z.testbit mode 2); reflexivity.
  - rewrite new_mode_bits. rewrite (bool_decide_false (0 = 6)), (bool_decide_false (0 = 3)),
      (bool_decide_true (0 = 0)) by done.
    destruct (Z.testbit mode 0), (Z.testbit mode 5), (Z.testbit mode 2); reflexivity.
  - intros n ? ? ?. rewrite new_mode_bits. rewrite !bool_decide_false by done.
    destruct (Z.testbit mode n), (Z.testbit mode 5), (Z.testbit mode 2); reflexivity.
  - apply new_mode_has_execute_bit.
Qed.

(** ** The loop *)

#[local] Arguments new_mode : simpl never.

Lemma chmod_scripts_lookup (may_chmod : list string -> bool) (scripts_root : list string)
    (fs : gmap (list string) script) (p : list string) :
  chmod_scripts may_chmod scripts_root fs !! p
  = (fun f => if reaches_chmod scripts_root p f && may_chmod p
              then Script (data f) (new_mode (st_mode f)) else f) <$> fs !! p.
Proof. unfold chmod_scripts. rewrite map_lookup_imap. by destruct (fs !! p). Qed.

Lemma count_zero (sel : list string -> script -> bool) (fs : gmap (list string) script) :
  count sel fs = O <-> forall p f, fs !! p = Some f -> sel p f = false.
Proof.
  unfold count. rewrite length_zero_iff_nil. split.
  - intros Hnil p f Hpf. destruct (sel p f) eqn:Hsel; [|done]. exfalso.
    eapply (filter_nil_not_elem_of _ _ (p, f)); [exact Hnil| |].
    + simpl. by rewrite Hsel.
    + by apply elem_of_map_to_list.
  - intros Hall. destruct (filter _ _) as [|[p f] l] eqn:Hf; [done|]. exfalso.
    assert ((p, f) ∈ filter (fun e : list string * script => sel e.1 e.2) (map_to_list fs))
      as Hin by (rewrite Hf; left).
    apply list_elem_of_filter in Hin as [Hsel Hin]. apply elem_of_map_to_list in Hin.
    simpl in Hsel. by rewrite (Hall p f Hin) in Hsel.
Qed.

Lemma needs_chmod_new_mode (f : script) :
  needs_chmod (Script (data f) (new_mode (st_mode f))) = false.
Proof.
  unfold needs_chmod. simpl. rewrite bool_decide_false; [by rewrite andb_false_r|].
  apply new_mode_has_execute_bit.
Qed.

Lemma files_of_run (posix : bool) (may_chmod : list string -> bool)
    (project_path : list string) (tracker : option (list StepTracker.step))
    (dirs : gset (list string)) (fs : gmap (list string) script) :
  (ensure_executable_scripts posix may_chmod project_path tracker dirs fs).1
  = if posix && bool_decide ((project_path ++ [".specforge"; "scripts"])%list ∈ dirs)
    then chmod_scripts may_chmod (project_path ++ [".specforge"; "scripts"])%list fs
    else fs.
Proof.
  unfold ensure_executable_scripts. destruct posix; [|done]. simpl.
  destruct (bool_decide _); [|done]. simpl. by destruct tracker.
Qed.

(** [ensure_executable_scripts] changes nothing but execute bits. Every
    file stays, with its bytes; no mode bit is cleared and no bit other
    than the three execute bits is set. A file whose mode changes lies
    below [.specforge/scripts] under a name ending in [.sh], starts
    with [#!], had no execute bit, and is executable by its owner
    afterwards. *)
Theorem ensure_executable_scripts_only_adds_execute_bits (posix : bool)
    (may_chmod : list string -> bool) (project_path : list string)
    (tracker : option (list StepTracker.step)) (dirs : gset (list string))
    (fs : gmap (list string) script) (p : list string) :
  let fs' := (ensure_executable_scripts posix may_chmod project_path tracker dirs fs).1 in
  match fs !! p with
  | None => fs' !! p = None
  | Some f =>
    exists f', fs' !! p = Some f' /\ data f' = data f /\
      (forall n, Z.testbit (st_mode f) n = true -> Z.testbit (st_mode f') n = true) /\
      (forall n, n <> 6 -> n <> 3 -> n <> 0 ->
         Z.testbit (st_mode f') n = Z.testbit (st_mode f) n) /\
      (f' <> f ->
         posix = true /\
         rglob_sh (project_path ++ [".specforge"; "scripts"])%list p = true /\
         String.prefix "#!" (data f) = true /\
         Z.land (st_mode f) 73 = 0 /\
         Z.testbit (st_mode f') 6 = true)
  end.
Proof.
  intros fs'. subst fs'. rewrite files_of_run.
  destruct (posix && bool_decide _) eqn:Hrun.
  - rewrite chmod_scripts_lookup. destruct (fs !! p) as [f|]; [|done]. cbn [fmap option_fmap option_map].
    destruct (reaches_chmod _ p f && may_chmod p) eqn:Hsel.
    + eexists. split; [done|]. cbn [data st_mode]. split_and!.
      * done.
      * intros n Hn. rewrite new_mode_bits, Hn. done.
      * intros n ? ? ?. rewrite new_mode_bits, !bool_decide_false by done.
        destruct (Z.testbit (st_mode f) n), (Z.testbit (st_mode f) 5),
          (Z.testbit (st_mode f) 2); reflexivity.
      * intros _. apply andb_prop in Hsel as [Hreach _].
        apply andb_prop in Hreach as [Hglob Hneeds].
        apply andb_prop in Hneeds as [Hbang Hmode].
        apply andb_prop in Hrun as [-> _].
        split_and!; [done|done|done|by apply bool_decide_eq_true in Hmode|].
        rewrite new_mode_bits. rewrite (bool_decide_true (6 = 6)) by done.
        by rewrite orb_true_r.
    + exists f. split_and!; done.
  - destruct (fs !! p) as [f|]; [|done]. exists f. split_and!; done.
Qed.

Lemma chmod_scripts_twice (may_chmod : list string -> bool) (scripts_root : list string)
    (fs : gmap (list string) script) :
  chmod_scripts may_chmod scripts_root (chmod_scripts may_chmod scripts_root fs)
  = chmod_scripts may_chmod scripts_root fs.
Proof.
  apply map_eq. intros p. rewrite !chmod_scripts_lookup.
  destruct (fs !! p) as [f|]; [|done]. cbn [fmap option_fmap option_map]. f_equal.
  destruct (reaches_chmod scripts_root p f && may_chmod p) eqn:Hsel.
  - unfold reaches_chmod at 1. rewrite needs_chmod_new_mode.
    by rewrite andb_false_r.
  - by rewrite Hsel.
Qed.

(** A second call finds nothing to do: it leaves every file as the
    first call left it, and after the loop of the first call no file
    would be counted as updated again. *)
Theorem ensure_executable_scripts_second_run_idle (posix : bool)
    (may_chmod : list string -> bool) (project_path : list string)
    (tracker tracker' : option (list StepTracker.step)) (dirs : gset (list string))
    (fs : gmap (list string) script) :
  let fs1 := (ensure_executable_scripts posix may_chmod project_path tracker dirs fs).1 in
  (ensure_executable_scripts posix may_chmod project_path tracker' dirs fs1).1 = fs1 /\
  updated_count may_chmod (project_path ++ [".specforge"; "scripts"])%list
    (chmod_scripts may_chmod (project_path ++ [".specforge"; "scripts"])%list fs) = O.
Proof.
  intros fs1. subst fs1. split.
  - rewrite !files_of_run. destruct (posix && bool_decide _); [|done].
    apply chmod_scripts_twice.
  - apply count_zero. intros p f'. rewrite chmod_scripts_lookup.
    destruct (fs !! p) as [f|]; [|done]. cbn [fmap option_fmap option_map]. intros [= <-].
    destruct (reaches_chmod _ p f && may_chmod p) eqn:Hsel.
    + unfold reaches_chmod. rewrite needs_chmod_new_mode. by rewrite andb_false_r.
    + done.
Qed.


Lemma ensure_executable_scripts_only_adds_execute_bits_witness :
  exists f',
    (ensure_executable_scripts true (fun _ => true) ["p"] None
       {[ ["p"; ".specforge"; "scripts"] ]}
       {[ ["p"; ".specforge"; "scripts"; "bash"; "setup.sh"] := Script "#!/bin/sh" 33188 ]}).1
      !! ["p"; ".specforge"; "scripts"; "bash"; "setup.sh"] = Some f' /\
    data f' = "#!/bin/sh" /\
    Z.testbit (st_mode f') 8 = true.
Proof.
  pose proof (ensure_executable_scripts_only_adds_execute_bits true (fun _ => true) ["p"] None
                {[ ["p"; ".specforge"; "scripts"] ]}
                {[ ["p"; ".specforge"; "scripts"; "bash"; "setup.sh"] := Script "#!/bin/sh" 33188 ]}
                ["p"; ".specforge"; "scripts"; "bash"; "setup.sh"]) as H.
  cbv zeta in H. rewrite lookup_singleton_eq in H.
  destruct H as (f' & H1 & H2 & H3 & _).
  exists f'. split_and!; [exact H1|exact H2|apply H3; reflexivity].
Defined.

(** ** The report *)

Lemma count_pos (sel : list string -> script -> bool) (fs : gmap (list string) script) :
  count sel fs <> O -> exists p f, fs !! p = Some f /\ sel p f = true.
Proof.
  unfold count. destruct (filter _ _) as [|[p f] l] eqn:Hf; [done|]. intros _.
  assert ((p, f) ∈ filter (fun e : list string * script => sel e.1 e.2) (map_to_list fs))
    as Hin by (rewrite Hf; left).
  apply list_elem_of_filter in Hin as [Hsel Hin]. apply elem_of_map_to_list in Hin.
  exists p, f. split; [done|]. simpl in Hsel. by destruct (sel p f).
Qed.

(** With a tracker, on a POSIX system and with a scripts directory, the
    call leaves a step [chmod] in the tracker: it is [done] when every
    script that reached [os.chmod] was changed, and [error] when
    [os.chmod] failed for one; its label is the one it had, or the
    label of this call when it is new; the steps of the other keys are
    as before. *)
Theorem ensure_executable_scripts_reports_to_tracker (posix : bool)
    (may_chmod : list string -> bool) (project_path : list string)
    (steps : list StepTracker.step) (dirs : gset (list string))
    (fs : gmap (list string) script) :
  let scripts_root := (project_path ++ [".specforge"; "scripts"])%list in
  posix = true -> scripts_root ∈ dirs ->
  exists steps' s,
    (ensure_executable_scripts posix may_chmod project_path (Some steps) dirs fs).2
    = Some steps' /\
    StepTracker.step_of "chmod" steps' = Some s /\
    StepTracker.label s
    = match StepTracker.step_of "chmod" steps with
      | Some s0 => StepTracker.label s0
      | None => "Set script permissions recursively"
      end /\
    ((StepTracker.status s = "done" /\
      forall p f, fs !! p = Some f -> reaches_chmod scripts_root p f = true ->
                  may_chmod p = true) \/
     (StepTracker.status s = "error" /\
      exists p f, fs !! p = Some f /\ reaches_chmod scripts_root p f = true /\
                  may_chmod p = false)) /\
    (forall k, k <> "chmod" -> StepTracker.step_of k steps' = StepTracker.step_of k steps).
Proof.
  intros scripts_root -> Hdir. unfold ensure_executable_scripts.
  cbn [negb]. rewrite bool_decide_true by done. cbn [negb snd].
  fold scripts_root.
  set (detail := (show _ +:+ _)%string).
  set (failures := failure_count may_chmod scripts_root fs).
  assert (forall st,
            StepTracker.step_of "chmod"
              (StepTracker._update "chmod" st detail
                 (StepTracker.add "chmod" "Set script permissions recursively" steps))
            = Some (StepTracker.Step "chmod"
                      (match StepTracker.step_of "chmod" steps with
                       | Some s0 => StepTracker.label s0
                       | None => "Set script permissions recursively"
                       end) st
                      (if decide (detail = "")
                       then match StepTracker.step_of "chmod" steps with
                            | Some s0 => StepTracker.detail s0 | None => "" end
                       else detail))) as Hstep.
  { intros st. rewrite StepTrackerProps.step_of_update_eq, StepTrackerProps.step_of_add_eq.
    by destruct (StepTracker.step_of "chmod" steps). }
  assert (forall st k, k <> "chmod" ->
            StepTracker.step_of k
              (StepTracker._update "chmod" st detail
                 (StepTracker.add "chmod" "Set script permissions recursively" steps))
            = StepTracker.step_of k steps) as Hother.
  { intros st k Hk. rewrite StepTrackerProps.step_of_update_ne by done.
    by apply StepTrackerProps.step_of_add_ne. }
  destruct (failures =? 0)%nat eqn:Hf.
  - apply Nat.eqb_eq in Hf. eexists _, _. split; [done|]. split; [apply Hstep|].
    split; [done|]. split; [|apply Hother]. left. split; [done|].
    intros p f Hpf Hreach. destruct (may_chmod p) eqn:Hmay; [done|].
    pose proof (proj1 (count_zero _ _) Hf p f Hpf) as Hsel. simpl in Hsel.
    by rewrite Hreach, Hmay in Hsel.
  - apply Nat.eqb_neq in Hf. eexists _, _. split; [done|]. split; [apply Hstep|].
    split; [done|]. split; [|apply Hother]. right. split; [done|].
    apply count_pos in Hf as (p & f & Hpf & Hsel).
    apply andb_prop in Hsel as [Hreach Hmay]. exists p, f.
    split_and!; [done|done|by destruct (may_chmod p)].
Qed.

Lemma ensure_executable_scripts_reports_to_tracker_witness :
  exists steps' s,
    (ensure_executable_scripts true (fun _ => false) ["p"]
       (Some [StepTracker.Step "chmod" "Ensure scripts executable" "pending" ""])
       {[ ["p"; ".specforge"; "scripts"] ]}
       {[ ["p"; ".specforge"; "scripts"; "bash"; "setup.sh"] := Script "#!/bin/sh" 33188 ]}).2
    = Some steps' /\
    StepTracker.step_of "chmod" steps' = Some s /\
    StepTracker.label s = "Ensure scripts executable".
Proof.
  destruct (ensure_executable_scripts_reports_to_tracker true (fun _ => false) ["p"]
              [StepTracker.Step "chmod" "Ensure scripts executable" "pending" ""]
              {[ ["p"; ".specforge"; "scripts"] ]}
              {[ ["p"; ".specforge"; "scripts"; "bash"; "setup.sh"] := Script "#!/bin/sh" 33188 ]})
    as (steps' & s & H1 & H2 & H3 & _).
  - reflexivity.
  - apply elem_of_singleton. reflexivity.
  - exists steps', s. split_and!; [exact H1|exact H2|exact H3].
Defined.


End ExecutableScriptsProps.

(** * Properties of the placeholder substitution *)

Module PlaceholderProps.
Import Renderer PyStrFacts.

(** The characters of the placeholder names: the underscore and the
    upper-case letters. *)
Definition name_char (c : ascii) : bool :=
  bool_decide (c = "_"%char)
  || ((65 <=? nat_of_ascii c) && (nat_of_ascii c <=? 90))%nat.

Definition not_underscore (c : ascii) : bool := negb (bool_decide (c = "_"%char)).

(** A text that keeps two placeholders apart: it has no underscore, and
    a character that no placeholder name has. *)
Definition separator (m : string) : bool :=
  all_chars not_underscore m && negb (all_chars name_char m).

(** A placeholder name: between underscores, of underscores and
    upper-case letters. *)
Definition delimited (old : string) : bool :=
  match old with
  | String c _ => bool_decide (c = "_"%char)
  | EmptyString => false
  end
  && bool_decide (last_char "a"%char old = "_"%char)
  && all_chars name_char old.

Lemma prefix_into_separator (x : ascii) (old m s2 : string) :
  old <> "" -> last_char x old = "_"%char -> all_chars name_char old = true ->
  separator m = true ->
  String.prefix old (m +:+ s2) = false.
Proof.
  revert x old. induction m as [|c m IH]; intros x old Hne Hlast Hchars Hsep.
  - done.
  - destruct old as [|o old]; [done|]. rewrite str_app_cons, str_prefix_cons.
    case_decide as Hoc; [|done]. subst o.
    unfold separator in Hsep. cbn [all_chars] in Hsep, Hchars.
    apply andb_prop in Hsep as [Hus Hnot]. apply andb_prop in Hus as [Hc Hus].
    apply andb_prop in Hchars as [Hnc Hchars]. rewrite Hnc in Hnot. cbn [andb] in Hnot.
    destruct old as [|o' old].
    + simpl in Hlast. subst c. done.
    + apply (IH c); [done|exact Hlast|done|].
      unfold separator. by rewrite Hus, Hnot.
Qed.

Lemma prefix_before_separator (x : ascii) (old s1 m s2 : string) :
  old = "" \/ (last_char x old = "_"%char /\ all_chars name_char old = true) ->
  separator m = true ->
  String.prefix old (s1 +:+ m +:+ s2) = String.prefix old s1.
Proof.
  intros Hold Hsep. revert x old Hold. induction s1 as [|c s1 IH]; intros x old Hold.
  - rewrite str_app_nil_l. destruct old as [|o old]; [by rewrite !str_prefix_nil|].
    destruct Hold as [|[Hlast Hchars]]; [done|].
    rewrite str_prefix_cons_nil. by apply (prefix_into_separator x).
  - rewrite str_app_cons. destruct old as [|o old]; [done|].
    rewrite !str_prefix_cons. case_decide; [|done]. subst o.
    destruct Hold as [|[Hlast Hchars]]; [done|]. apply (IH c).
    destruct old as [|o' old]; [by left|]. right. split; [exact Hlast|].
    cbn [all_chars] in Hchars. by apply andb_prop in Hchars as [_ ?].
Qed.

Lemma replace_from_over_separator (old new m s2 : string) :
  delimited old = true -> all_chars not_underscore m = true ->
  replace_from old new O (m +:+ s2) = m +:+ replace_from old new O s2.
Proof.
  intros Hold. induction m as [|c m IH]; intros Hm; [done|].
  cbn [all_chars] in Hm. apply andb_prop in Hm as [Hc Hm].
  rewrite !str_app_cons. cbn [replace_from].
  destruct old as [|o old]; [done|].
  rewrite str_prefix_cons. rewrite decide_False.
  - by rewrite IH.
  - intros ->. unfold delimited in Hold.
    apply andb_prop in Hold as [Hold _]. apply andb_prop in Hold as [Hold _].
    apply bool_decide_eq_true in Hold. subst c. done.
Qed.

Lemma prefix_length (p s : string) :
  String.prefix p s = true -> (String.length p <= String.length s)%nat.
Proof.
  intros [r ->]%str_prefix_split. rewrite str_length_app. lia.
Qed.

Lemma replace_from_split (old new : string) (skip : nat) (s1 m s2 : string) :
  delimited old = true -> separator m = true -> (skip <= String.length s1)%nat ->
  replace_from old new skip (s1 +:+ m +:+ s2)
  = replace_from old new skip s1 +:+ m +:+ replace_from old new O s2.
Proof.
  intros Hold Hsep.
  assert (last_char "a"%char old = "_"%char /\ all_chars name_char old = true) as Hgood.
  { unfold delimited in Hold. apply andb_prop in Hold as [Hold Hchars].
    apply andb_prop in Hold as [_ Hlast]. by apply bool_decide_eq_true in Hlast. }
  revert skip. induction s1 as [|c s1 IH]; intros skip Hskip.
  - simpl in Hskip. assert (skip = O) as -> by lia. rewrite !str_app_nil_l.
    apply replace_from_over_separator; [done|].
    unfold separator in Hsep. by apply andb_prop in Hsep as [? _].
  - rewrite str_app_cons. cbn [replace_from]. destruct skip as [|k].
    + rewrite <- str_app_cons.
      rewrite (prefix_before_separator "a"%char) by (by right || done).
      destruct (String.prefix old (String c s1)) eqn:Hp.
      * rewrite IH, str_app_assoc; [done|].
        apply prefix_length in Hp. simpl in Hp. lia.
      * rewrite IH by lia. by rewrite str_app_cons.
    + rewrite IH; [done|]. simpl in Hskip. lia.
Qed.

Lemma replace_split (old new s1 m s2 : string) :
  delimited old = true -> separator m = true ->
  replace old new (s1 +:+ m +:+ s2) = replace old new s1 +:+ m +:+ replace old new s2.
Proof.
  intros Hold Hsep. destruct old as [|o old]; [done|]. unfold replace.
  apply replace_from_split; [done|done|lia].
Qed.

Lemma fold_replace_split (phs : list (string * string)) (s1 m s2 : string) :
  Forall (fun ph => delimited ph.1 = true) phs -> separator m = true ->
  fold_left (fun content ph => replace ph.1 ph.2 content) phs (s1 +:+ m +:+ s2)
  = fold_left (fun content ph => replace ph.1 ph.2 content) phs s1
    +:+ m +:+ fold_left (fun content ph => replace ph.1 ph.2 content) phs s2.
Proof.
  intros Hphs Hsep. revert s1 s2. induction Hphs as [|ph phs Hph _ IH]; intros s1 s2; [done|].
  cbn [fold_left]. rewrite replace_split by done. apply IH.
Qed.

Lemma agent_placeholders_delimited (ai_assistant : string) (cfg : agent_cfg) :
  Forall (fun ph => delimited ph.1 = true) (agent_placeholders ai_assistant cfg).
Proof. unfold agent_placeholders. repeat constructor. Qed.

(** Substitution is local: around a separator it acts on each side on
    its own. *)
Lemma substitute_split (ai_assistant : string) (cfg : agent_cfg) (s1 m s2 : string) :
  separator m = true ->
  substitute_agent_placeholders ai_assistant cfg (s1 +:+ m +:+ s2)
  = substitute_agent_placeholders ai_assistant cfg s1 +:+ m
    +:+ substitute_agent_placeholders ai_assistant cfg s2.
Proof.
  intros Hsep. unfold substitute_agent_placeholders.
  apply fold_replace_split; [apply agent_placeholders_delimited|done].
Qed.

Lemma substitute_empty (ai_assistant : string) (cfg : agent_cfg) :
  substitute_agent_placeholders ai_assistant cfg "" = "".
Proof. reflexivity. Qed.

(** On a placeholder alone the substitution gives its value, for every
    agent of [AGENT_CONFIG]: no value brings in a later placeholder. *)
Definition values_inert : bool :=
  forallb (fun entry : string * agent_cfg =>
             forallb (fun ph : string * string =>
                        bool_decide (substitute_agent_placeholders entry.1 entry.2 ph.1 = ph.2))
                     (agent_placeholders entry.1 entry.2))
          AGENT_CONFIG.

Lemma values_inert_holds : values_inert = true.
Proof. vm_compute. reflexivity. Qed.

Lemma substitute_placeholder (ai_assistant : string) (cfg : agent_cfg) (name value : string) :
  dict_get ai_assistant AGENT_CONFIG = Some cfg ->
  (name, value) ∈ agent_placeholders ai_assistant cfg ->
  substitute_agent_placeholders ai_assistant cfg name = value.
Proof.
  intros Hcfg%WorkingSyncProps.dict_get_elem Hph.
  pose proof values_inert_holds as H. unfold values_inert in H.
  rewrite forallb_forall in H.
  assert (In (ai_assistant, cfg) AGENT_CONFIG) as Hin by (by apply list_elem_of_In).
  specialize (H (ai_assistant, cfg) Hin). cbn [fst snd] in H.
  rewrite forallb_forall in H.
  assert (In (name, value) (agent_placeholders ai_assistant cfg)) as Hin'
    by (by apply list_elem_of_In).
  specialize (H (name, value) Hin'). cbn [fst snd] in H.
  by apply bool_decide_eq_true in H.
Qed.

(** A template cut into texts and placeholders. *)
Inductive piece : Type :=
| Text (m : string)
| Hole (name value : string).

Definition as_written (p : piece) : string :=
  match p with Text m => m | Hole name _ => name end.

Definition rendered (p : piece) : string :=
  match p with Text m => m | Hole _ value => value end.

Definition text_of (f : piece -> string) (pieces : list piece) : string :=
  fold_right (fun p rest => f p +:+ rest) "" pieces.

(** Every text is a separator, every placeholder is one of [phs] with
    its value, and no two placeholders touch. *)
Fixpoint well_separated (phs : list (string * string)) (after_hole : bool)
    (pieces : list piece) : bool :=
  match pieces with
  | [] => true
  | Text m :: rest => separator m && well_separated phs false rest
  | Hole name value :: rest =>
    negb after_hole && bool_decide ((name, value) ∈ phs) && well_separated phs true rest
  end.

Lemma substitute_pieces (ai_assistant : string) (cfg : agent_cfg) (after_hole : bool)
    (pieces : list piece) :
  dict_get ai_assistant AGENT_CONFIG = Some cfg ->
  well_separated (agent_placeholders ai_assistant cfg) after_hole pieces = true ->
  substitute_agent_placeholders ai_assistant cfg (text_of as_written pieces)
  = text_of rendered pieces.
Proof.
  intros Hcfg. revert after_hole.
  induction pieces as [|p rest IH]; intros after_hole Hws; [done|].
  destruct p as [m|name value]; cbn [well_separated] in Hws.
  - apply andb_prop in Hws as [Hsep Hws]. cbn [text_of fold_right as_written rendered].
    fold (text_of as_written rest). fold (text_of rendered rest).
    rewrite <- (str_app_nil_l (m +:+ text_of as_written rest)).
    rewrite substitute_split by done. rewrite substitute_empty, str_app_nil_l.
    by rewrite (IH false).
  - apply andb_prop in Hws as [Hph Hws]. apply andb_prop in Hph as [_ Hph].
    apply bool_decide_eq_true in Hph.
    cbn [text_of fold_right as_written rendered].
    fold (text_of as_written rest). fold (text_of rendered rest).
    pose proof (IH true Hws) as IHrest.
    destruct rest as [|[m|name' value'] rest'].
    + cbn [text_of fold_right]. rewrite !str_app_nil_r.
      by apply substitute_placeholder.
    + cbn [well_separated] in Hws. apply andb_prop in Hws as [Hsep _].
      cbn [text_of fold_right as_written rendered] in *.
      fold (text_of as_written rest') in *. fold (text_of rendered rest') in *.
      rewrite substitute_split by done.
      rewrite (substitute_placeholder _ _ name value) by done.
      rewrite <- IHrest.
      rewrite <- (str_app_nil_l (m +:+ text_of as_written rest')).
      rewrite substitute_split by done. by rewrite substitute_empty, str_app_nil_l.
    + cbn [well_separated] in Hws. done.
Qed.

(** For every agent of [AGENT_CONFIG] and every template made of texts
    and agent placeholders, in any order and number, in which the texts
    have no underscore and each has a character that is neither an
    upper-case letter nor an underscore, and no two placeholders touch:
    the replacements from [__AGENT_DIR__] to [__AGENT__] put the value
    of every placeholder in its place and keep every text. *)
Theorem substitute_agent_placeholders_in_template (ai_assistant : string) (cfg : agent_cfg)
    (pieces : list piece) :
  dict_get ai_assistant AGENT_CONFIG = Some cfg ->
  well_separated (agent_placeholders ai_assistant cfg) false pieces = true ->
  substitute_agent_placeholders ai_assistant cfg (text_of as_written pieces)
  = text_of rendered pieces.
Proof. apply substitute_pieces. Qed.

Lemma substitute_agent_placeholders_in_template_witness :
  substitute_agent_placeholders "claude"
    (AgentCfg "Claude Code" ".claude/" "CLAUDE.md" "**/*CLAUDE.md" "$CLAUDE_PROJECT_DIR")
    "Run __AGENT__ in __AGENT_DIR__/skills, then __AGENT_PROJECT_DIR_ENV__ (__AGENT__)."
  = "Run claude in .claude/skills, then $CLAUDE_PROJECT_DIR (claude).".
Proof.
  apply (substitute_agent_placeholders_in_template "claude"
           (AgentCfg "Claude Code" ".claude/" "CLAUDE.md" "**/*CLAUDE.md" "$CLAUDE_PROJECT_DIR")
           [Text "Run "; Hole "__AGENT__" "claude"; Text " in ";
            Hole "__AGENT_DIR__" ".claude"; Text "/skills, then ";
            Hole "__AGENT_PROJECT_DIR_ENV__" "$CLAUDE_PROJECT_DIR"; Text " (";
            Hole "__AGENT__" "claude"; Text ")."]).
  - reflexivity.
  - vm_compute. reflexivity.
Defined.

End PlaceholderProps.

(** * Properties of the command generation *)

Module GenerateProps.
Import SharedResources SharedResourcesProps Generate.

(** ** What stays below a directory *)

Lemma diverges_sym (p root : list string) : diverges p root -> diverges root p.
Proof. intros [? ?]. by split. Qed.

Lemma diverges_app_both (p root x y : list string) :
  diverges p root -> diverges (p ++ x)%list (root ++ y)%list.
Proof.
  intros Hd. apply diverges_app, diverges_sym, diverges_app, diverges_sym, Hd.
Qed.

Lemma keeps_read_text (root p : list string) : keeps root (read_text p).
Proof. intros t. unfold read_text. destruct (files t !! p); apply same_below_refl. Qed.

Lemma keeps_glob (root directory : list string) (matches : string -> bool) :
  keeps root (glob directory matches).
Proof. intros t. apply same_below_refl. Qed.

Lemma keeps_write_text (root : list string) (now : Z) (p : list string) (s : string) :
  diverges p root -> keeps root (write_text now p s).
Proof.
  intros [_ Hd] t q Hq. unfold write_text. destruct (_ || _); [done|].
  cbn [snd files dirs]. split; [|done]. apply lookup_insert_ne. by intros <-.
Qed.

(** A file copied to the project root under its own name lands
    outside the memory directory, also when the copy goes into a
    directory of that name. *)
Lemma keeps_copy2_named (target_dir src_dir : list string) (name : string) :
  keeps (memory_root target_dir)
        (copy2 (src_dir ++ [name])%list (target_dir ++ [name])%list).
Proof.
  intros t q [r ->]. unfold copy2, memory_root.
  destruct (files t !! _) as [f|]; [|done].
  destruct (_ || _); [done|]. cbn [snd files dirs]. split; [|done].
  apply lookup_insert_ne. rewrite last_snoc.
  rewrite <- !app_assoc. destruct (is_dir t _).
  - intros Heq%app_inv_head. simpl in Heq. congruence.
  - intros Heq%app_inv_head. simpl in Heq. congruence.
Qed.

Lemma keeps_copy_root_files_named (target_dir src_dir : list string) :
  keeps (memory_root target_dir) (copy_root_files src_dir target_dir).
Proof.
  apply keeps_get. intros t. destruct (negb (is_dir t src_dir)); [apply keeps_raise|].
  apply keeps_for_each. intros name. apply keeps_copy2_named.
Qed.

(** No command directory starts with [.specforge]. *)
Lemma command_dir_head (ai_assistant : string) (cmd_dir : list string) (ext arg : string) :
  dict_get ai_assistant AGENT_COMMAND_DIRS = Some (cmd_dir, ext, arg) ->
  exists a rest, cmd_dir = a :: rest /\ a <> ".specforge".
Proof.
  unfold AGENT_COMMAND_DIRS. cbn [dict_get].
  repeat (case_decide; [intros [= <- <- <-]; eexists _, _; split; [reflexivity|discriminate]|]).
  discriminate.
Qed.

Lemma output_dir_diverges (target_dir : list string) (ai_assistant : string)
    (cmd_dir : list string) (ext arg : string) :
  dict_get ai_assistant AGENT_COMMAND_DIRS = Some (cmd_dir, ext, arg) ->
  diverges (target_dir ++ cmd_dir)%list (memory_root target_dir).
Proof.
  intros (a & rest & -> & Ha)%command_dir_head. unfold memory_root.
  change (a :: rest) with ([a] ++ rest)%list. rewrite app_assoc.
  apply diverges_app_both. by apply siblings_diverge.
Qed.

Lemma root_entry_diverges (target_dir : list string) (a : string) (rest : list string) :
  a <> ".specforge" -> diverges (target_dir ++ a :: rest)%list (memory_root target_dir).
Proof.
  intros Ha. unfold memory_root.
  change (a :: rest) with ([a] ++ rest)%list. rewrite app_assoc.
  apply diverges_app_both. by apply siblings_diverge.
Qed.

Section Codec.
Variable json_load : string -> option JsonMerge.json.
Variable json_dump : JsonMerge.json -> string.

Lemma keeps_load_existing (root p : list string) : keeps root (load_existing json_load p).
Proof.
  intros t. unfold load_existing. destruct (files t !! p); [apply same_below_refl|].
  destruct (is_dir t p); apply same_below_refl.
Qed.

Lemma keeps_handle_vscode_settings (root : list string) (now : Z)
    (sub_item dest_file : list string) :
  diverges dest_file root ->
  keeps root (handle_vscode_settings json_load json_dump now sub_item dest_file).
Proof.
  intros Hd t. unfold handle_vscode_settings.
  match goal with |- context [bind ?m ?k t] => assert (keeps root (bind m k)) as Hbody end.
  { apply keeps_bind; [apply keeps_read_text|]. intros text.
    destruct (json_load text) as [new_settings|]; [|apply keeps_raise].
    apply keeps_get. intros t0. destruct (path_exists t0 dest_file).
    - apply keeps_bind; [apply keeps_load_existing|]. intros existing.
      destruct (merge_settings existing new_settings); [|apply keeps_raise].
      by apply keeps_write_text.
    - by apply keeps_copy2. }
  specialize (Hbody t). destruct (bind _ _ t) as [[u|] t1]; [done|].
  eapply same_below_trans; [exact Hbody|]. by apply keeps_copy2.
Qed.

Lemma keeps_copilot_files (now : Z) (target_dir templates_dir output_dir : list string) :
  keeps (memory_root target_dir)
        (copilot_files json_load json_dump now target_dir templates_dir output_dir).
Proof.
  unfold copilot_files. cbv zeta.
  apply keeps_bind; [apply keeps_mkdir_p; by apply root_entry_diverges|]. intros _.
  apply keeps_bind; [apply keeps_glob|]. intros agent_files.
  apply keeps_bind.
  { apply keeps_for_each. intros file_name. apply keeps_write_text.
    rewrite <- app_assoc. by apply root_entry_diverges. }
  intros _. apply keeps_bind; [apply keeps_mkdir_p; by apply root_entry_diverges|].
  intros _. apply keeps_when_exists, keeps_handle_vscode_settings.
  rewrite <- app_assoc. by apply root_entry_diverges.
Qed.

Lemma keeps_agent_specific_files (ai_assistant : string)
    (target_dir agent_templates_dir : list string) :
  keeps (memory_root target_dir)
        (agent_specific_files ai_assistant target_dir agent_templates_dir).
Proof.
  unfold agent_specific_files.
  apply keeps_when_exists, keeps_when_exists, keeps_copy_root_files_named.
Qed.

Lemma keeps_generate_one (root : list string) (now : Z) (ai_assistant script_type : string)
    (commands_source output_dir : list string) (file_ext arg_format file_name : string) :
  diverges output_dir root ->
  keeps root (generate_one now ai_assistant script_type commands_source output_dir
                file_ext arg_format file_name).
Proof.
  intros Hd. unfold generate_one. apply keeps_bind; [apply keeps_read_text|].
  intros content. destruct (dict_get ai_assistant AGENT_CONFIG) as [cfg|]; [|apply keeps_raise].
  destruct (render_template _ _ _ _ _) as [description content'].
  destruct (artifact _ _ _ _) as [out_name out_content].
  apply keeps_write_text. by apply diverges_app.
Qed.

Lemma keeps_generate_agent_commands (now : Z) (ai_assistant script_type : string)
    (target_dir bundled_path : list string) :
  keeps (memory_root target_dir)
        (generate_agent_commands json_load json_dump now ai_assistant script_type
           target_dir bundled_path).
Proof.
  unfold generate_agent_commands. apply keeps_get. intros t.
  destruct (negb (path_exists t _)); [apply keeps_ret|].
  destruct (dict_get ai_assistant AGENT_COMMAND_DIRS) as [[[cmd_dir ext] arg]|] eqn:Hcmd;
    [|apply keeps_ret].
  pose proof (output_dir_diverges target_dir _ _ _ _ Hcmd) as Hd.
  apply keeps_bind; [by apply keeps_mkdir_p|]. intros _.
  apply keeps_bind; [apply keeps_glob|]. intros templates.
  apply keeps_bind; [apply keeps_for_each; intros name; by apply keeps_generate_one|].
  intros _. apply keeps_bind.
  { case_decide; [apply keeps_copilot_files|apply keeps_ret]. }
  intros _. apply keeps_bind; [apply keeps_agent_specific_files|]. intros _.
  apply keeps_ret.
Qed.

(** [generate_agent_commands] never touches [.specforge/memory] of the
    project: for every agent, script type, project and bundle, whether
    it returns or raises, the files and directories at and below the
    memory directory are the same afterwards. *)
Theorem generate_agent_commands_keeps_memory (now : Z) (ai_assistant script_type : string)
    (target_dir bundled_path : list string) (t : tree) (q : list string) :
  let t' := (generate_agent_commands json_load json_dump now ai_assistant script_type
               target_dir bundled_path t).2 in
  memory_root target_dir `prefix_of` q ->
  files t' !! q = files t !! q /\ (q ∈ dirs t' <-> q ∈ dirs t).
Proof.
  intros t' Hq. subst t'. by apply keeps_generate_agent_commands.
Qed.

(** ** The result [False] *)

Lemma never_false_bind {A : Type} (m : M A) (k : A -> M bool) :
  (forall a t, (k a t).1 <> Some false) -> forall t, (bind m k t).1 <> Some false.
Proof.
  intros Hk t. unfold bind. destruct (m t) as [[a|] t1]; [apply Hk|discriminate].
Qed.

Lemma generate_guard (now : Z) (ai_assistant script_type : string)
    (target_dir bundled_path : list string) (t : tree) :
  path_exists t (bundled_path ++ ["templates"] ++ ["commands"])%list = false \/
  dict_get ai_assistant AGENT_COMMAND_DIRS = None ->
  generate_agent_commands json_load json_dump now ai_assistant script_type
    target_dir bundled_path t = (Some false, t).
Proof.
  intros Hguard. unfold generate_agent_commands. unfold bind at 1, get.
  rewrite <- app_assoc.
  destruct (path_exists t _) eqn:Hex; cbn [negb]; [|done].
  destruct Hguard as [?|Hguard]; [done|]. by rewrite Hguard.
Qed.

Lemma generate_pass (now : Z) (ai_assistant script_type : string)
    (target_dir bundled_path : list string) (t : tree) :
  path_exists t (bundled_path ++ ["templates"] ++ ["commands"])%list = true ->
  is_Some (dict_get ai_assistant AGENT_COMMAND_DIRS) ->
  (generate_agent_commands json_load json_dump now ai_assistant script_type
     target_dir bundled_path t).1 <> Some false.
Proof.
  intros Hex [[[cmd_dir ext] arg] Hcmd]. unfold generate_agent_commands.
  unfold bind at 1, get. rewrite <- app_assoc, Hex, Hcmd. cbn [negb].
  apply never_false_bind. intros _ t1.
  apply never_false_bind. intros templates t2.
  apply never_false_bind. intros _ t3.
  apply never_false_bind. intros _ t4.
  apply never_false_bind. intros _ t5. discriminate.
Qed.

(** [generate_agent_commands] returns [False] exactly when the commands
    directory of the bundle does not exist or the agent has no entry in
    [AGENT_COMMAND_DIRS], and then it has changed nothing; in every
    other case it returns [True] or raises. *)
Theorem generate_agent_commands_false_iff (now : Z) (ai_assistant script_type : string)
    (target_dir bundled_path : list string) (t : tree) :
  let r := generate_agent_commands json_load json_dump now ai_assistant script_type
             target_dir bundled_path t in
  (r.1 = Some false <->
   path_exists t (bundled_path ++ ["templates"] ++ ["commands"])%list = false \/
   dict_get ai_assistant AGENT_COMMAND_DIRS = None) /\
  (r.1 = Some false -> r.2 = t).
Proof.
  intros r.
  destruct (path_exists t (bundled_path ++ ["templates"] ++ ["commands"])%list) eqn:Hex.
  - destruct (dict_get ai_assistant AGENT_COMMAND_DIRS) as [x|] eqn:Hcmd.
    + assert (r.1 <> Some false) as Hne.
      { apply generate_pass; [done|]. rewrite Hcmd. by eexists. }
      split; [|done]. split; [done|]. intros [?|?]; done.
    + assert (r = (Some false, t)) as ->.
      { apply generate_guard. by right. }
      split; [|done]. split; [by right|done].
  - assert (r = (Some false, t)) as ->.
    { apply generate_guard. by left. }
    split; [|done]. split; [by left|done].
Qed.

End Codec.

Lemma generate_agent_commands_false_iff_witness :
  let t := Tree ∅ ∅ in
  let r := generate_agent_commands (fun _ => None) (fun _ => EmptyString) 0 "claude" "sh" ["p"] ["b"] t in
  r.1 = Some false /\ r.2 = t.
Proof.
  intros t r.
  destruct (generate_agent_commands_false_iff (fun _ => None) (fun _ => EmptyString) 0 "claude" "sh" ["p"] ["b"] t) as [Hiff Hsame].
  assert (r.1 = Some false) as Hr.
  { apply Hiff. left. vm_compute. reflexivity. }
  split; [exact Hr|exact (Hsame Hr)].
Defined.

(** ** Files only come *)

(** A computation that removes no file, whether it returns or raises. *)
Definition grows {A : Type} (m : M A) : Prop :=
  forall t p, is_Some (files t !! p) -> is_Some (files (m t).2 !! p).

Lemma grows_ret {A : Type} (a : A) : grows (ret a).
Proof. by intros t p. Qed.

Lemma grows_raise {A : Type} : grows (@raise A).
Proof. by intros t p. Qed.

Lemma grows_bind {A B : Type} (m : M A) (k : A -> M B) :
  grows m -> (forall a, grows (k a)) -> grows (bind m k).
Proof.
  intros Hm Hk t p Hp. unfold bind. specialize (Hm t p Hp).
  destruct (m t) as [[a|] t1]; [by apply Hk|done].
Qed.

Lemma grows_get {A : Type} (k : tree -> M A) :
  (forall t, grows (k t)) -> grows (bind get k).
Proof. intros Hk t p. unfold bind, get. apply Hk. Qed.

Lemma grows_attempt {A : Type} (m : M A) : grows m -> grows (attempt m).
Proof.
  intros Hm t p Hp. unfold attempt. specialize (Hm t p Hp).
  by destruct (m t) as [[a|] t1].
Qed.

Lemma grows_for_each {A : Type} (l : list A) (body : A -> M unit) :
  (forall x, grows (body x)) -> grows (for_each l body).
Proof.
  intros Hb. induction l as [|x l IH]; cbn [for_each]; [apply grows_ret|].
  apply grows_bind; [apply Hb|by intros _].
Qed.

Lemma grows_for_all {A : Type} (l : list A) (body : A -> M bool) :
  (forall x, grows (body x)) -> grows (for_all l body).
Proof.
  intros Hb. induction l as [|x l IH]; cbn [for_all]; [apply grows_ret|].
  apply grows_bind; [apply Hb|]. intros ok.
  apply grows_bind; [done|]. intros oks. apply grows_ret.
Qed.

Lemma grows_when_exists (p : list string) (m : M unit) : grows m -> grows (when_exists p m).
Proof.
  intros Hm. apply grows_get. intros t. destruct (path_exists t p); [done|apply grows_ret].
Qed.

Lemma grows_mkdir_p (p : list string) : grows (mkdir_p p).
Proof. intros t q Hq. unfold mkdir_p. by destruct (existsb _ _). Qed.

Lemma grows_insert (t : tree) (p q : list string) (f : file) :
  is_Some (files t !! q) -> is_Some (<[p := f]> (files t) !! q).
Proof.
  intros Hq. destruct (decide (p = q)) as [->|Hne].
  - rewrite lookup_insert_eq. by eexists.
  - by rewrite lookup_insert_ne.
Qed.

Lemma grows_copy2 (src dst : list string) : grows (copy2 src dst).
Proof.
  intros t q Hq. unfold copy2. destruct (files t !! src) as [f|]; [|done].
  destruct (_ || _); [done|]. cbn [snd files]. by apply grows_insert.
Qed.

Lemma grows_write_text (now : Z) (p : list string) (s : string) : grows (write_text now p s).
Proof.
  intros t q Hq. unfold write_text. destruct (_ || _); [done|].
  cbn [snd files]. by apply grows_insert.
Qed.

Lemma grows_read_text (p : list string) : grows (read_text p).
Proof. intros t q Hq. unfold read_text. by destruct (files t !! p). Qed.

Lemma grows_glob (directory : list string) (matches : string -> bool) :
  grows (glob directory matches).
Proof. by intros t q Hq. Qed.

Lemma grows_copytree_depth (depth : nat) (src dst : list string) :
  grows (copytree_depth depth src dst).
Proof.
  revert src dst. induction depth as [|n IH]; intros src dst; cbn [copytree_depth].
  { apply grows_raise. }
  apply grows_get. intros t. destruct (negb (is_dir t src)); [apply grows_raise|].
  apply grows_bind; [apply grows_mkdir_p|]. intros _.
  apply grows_bind.
  { apply grows_for_all. intros name. apply grows_attempt, grows_copy2. }
  intros ok1. apply grows_bind.
  { apply grows_for_all. intros name. apply grows_attempt, IH. }
  intros ok2. destruct (ok1 && ok2); [apply grows_ret|apply grows_raise].
Qed.

Lemma grows_copytree (src dst : list string) : grows (copytree src dst).
Proof. intros t. unfold copytree. apply grows_copytree_depth. Qed.

Lemma grows_copy_root_files (src_dir dest_dir : list string) :
  grows (copy_root_files src_dir dest_dir).
Proof.
  apply grows_get. intros t. destruct (negb (is_dir t src_dir)); [apply grows_raise|].
  apply grows_for_each. intros name. apply grows_copy2.
Qed.

Lemma grows_copy_items (skip src_dir dest_dir : list string) :
  grows (copy_items skip src_dir dest_dir).
Proof.
  apply grows_get. intros t. destruct (negb (is_dir t src_dir)); [apply grows_raise|].
  apply grows_bind.
  - apply grows_for_each. intros name. apply grows_copy2.
  - intros _. apply grows_for_each. intros name. apply grows_copytree.
Qed.

(** ** Runs that return *)

Lemma bind_returns {A B : Type} (m : M A) (k : A -> M B) (t t' : tree) (b : B) :
  bind m k t = (Some b, t') -> exists a t1, m t = (Some a, t1) /\ k a t1 = (Some b, t').
Proof.
  unfold bind. destruct (m t) as [[a|] t1]; [|discriminate]. intros Hk. by exists a, t1.
Qed.

Lemma for_each_keeps_fact {A : Type} (l : list A) (body : A -> M unit) (Q : tree -> Prop) :
  (forall y t, Q t -> Q (body y t).2) -> forall t, Q t -> Q (for_each l body t).2.
Proof.
  intros Hkeep. induction l as [|x l IH]; intros t Ht; cbn [for_each]; [done|].
  unfold bind. specialize (Hkeep x t Ht). destruct (body x t) as [[u|] t1]; [by apply IH|done].
Qed.

Lemma for_each_returns {A : Type} (l : list A) (body : A -> M unit)
    (Q : A -> tree -> Prop) :
  (forall x t t1, body x t = (Some tt, t1) -> Q x t1) ->
  (forall x y t, Q x t -> Q x (body y t).2) ->
  forall t t', for_each l body t = (Some tt, t') -> forall x, x ∈ l -> Q x t'.
Proof.
  intros Hdone Hkeep. induction l as [|y l IH]; intros t t' Hrun x Hx.
  { by apply elem_of_nil in Hx. }
  cbn [for_each] in Hrun. apply bind_returns in Hrun as ([] & t1 & Hy & Hrest).
  apply elem_of_cons in Hx as [->|Hx].
  - pose proof (for_each_keeps_fact l body (Q y) (Hkeep y) t1 (Hdone _ _ _ Hy)) as Hq.
    by rewrite Hrest in Hq.
  - by apply (IH t1 t').
Qed.

Lemma child_files_elem (t : tree) (d : list string) (name : string) :
  is_Some (files t !! (d ++ [name])%list) -> name ∈ child_files t d.
Proof.
  intros [f Hf]. unfold child_files. apply list_elem_of_omap.
  exists ((d ++ [name])%list, f). split; [by apply elem_of_map_to_list|].
  cbn [fst].
  by assert (WorkingSync.relative_to (d ++ [name])%list d = Some [name]) as ->
    by by apply WorkingSyncProps.relative_to_Some.
Qed.

Lemma child_files_same (t t' : tree) (d : list string) :
  files t' = files t -> child_files t' d = child_files t d.
Proof. unfold child_files. by intros ->. Qed.

Lemma mkdir_p_files (p : list string) (t t' : tree) (r : option unit) :
  mkdir_p p t = (r, t') -> files t' = files t.
Proof. unfold mkdir_p. destruct (existsb _ _); by intros [= _ <-]. Qed.

(** The name of the artifact of a template. *)
Definition artifact_name (file_ext name : string) : string :=
  (artifact file_ext name "" "").1.

Lemma artifact_fst (file_ext name description content : string) :
  (artifact file_ext name description content).1 = artifact_name file_ext name.
Proof. unfold artifact_name, artifact. by repeat case_decide. Qed.

Lemma artifact_name_prefix (file_ext name : string) :
  String.prefix "specforge." (artifact_name file_ext name) = true.
Proof.
  unfold artifact_name, artifact.
  repeat case_decide; cbn [fst]; apply PyStrFacts.str_prefix_app_l.
Qed.

Section Artifacts.
Variable json_load : string -> option JsonMerge.json.
Variable json_dump : JsonMerge.json -> string.

Lemma grows_load_existing (p : list string) : grows (load_existing json_load p).
Proof.
  intros t q Hq. unfold load_existing. destruct (files t !! p); [done|].
  by destruct (is_dir t p).
Qed.

Lemma grows_handle_vscode_settings (now : Z) (sub_item dest_file : list string) :
  grows (handle_vscode_settings json_load json_dump now sub_item dest_file).
Proof.
  intros t q Hq. unfold handle_vscode_settings.
  match goal with |- context [bind ?m ?k t] => assert (grows (bind m k)) as Hbody end.
  { apply grows_bind; [apply grows_read_text|]. intros text.
    destruct (json_load text) as [new_settings|]; [|apply grows_raise].
    apply grows_get. intros t0. destruct (path_exists t0 dest_file).
    - apply grows_bind; [apply grows_load_existing|]. intros existing.
      destruct (merge_settings existing new_settings); [|apply grows_raise].
      apply grows_write_text.
    - apply grows_copy2. }
  specialize (Hbody t q Hq). destruct (bind _ _ t) as [[u|] t1]; [done|].
  by apply grows_copy2.
Qed.

Lemma grows_copilot_files (now : Z) (target_dir templates_dir output_dir : list string) :
  grows (copilot_files json_load json_dump now target_dir templates_dir output_dir).
Proof.
  unfold copilot_files. cbv zeta.
  apply grows_bind; [apply grows_mkdir_p|]. intros _.
  apply grows_bind; [apply grows_glob|]. intros agent_files.
  apply grows_bind; [apply grows_for_each; intros file_name; apply grows_write_text|].
  intros _. apply grows_bind; [apply grows_mkdir_p|]. intros _.
  apply grows_when_exists, grows_handle_vscode_settings.
Qed.

Lemma grows_agent_specific_files (ai_assistant : string)
    (target_dir agent_templates_dir : list string) :
  grows (agent_specific_files ai_assistant target_dir agent_templates_dir).
Proof.
  unfold agent_specific_files.
  apply grows_when_exists, grows_when_exists, grows_copy_root_files.
Qed.

Lemma grows_generate_one (now : Z) (ai_assistant script_type : string)
    (commands_source output_dir : list string) (file_ext arg_format file_name : string) :
  grows (generate_one now ai_assistant script_type commands_source output_dir
           file_ext arg_format file_name).
Proof.
  unfold generate_one. apply grows_bind; [apply grows_read_text|]. intros content.
  destruct (dict_get ai_assistant AGENT_CONFIG) as [cfg|]; [|apply grows_raise].
  destruct (render_template _ _ _ _ _) as [description content'].
  destruct (artifact _ _ _ _) as [out_name out_content].
  apply grows_write_text.
Qed.

Lemma generate_one_returns (now : Z) (ai_assistant script_type : string)
    (commands_source output_dir : list string) (file_ext arg_format file_name : string)
    (t t1 : tree) :
  generate_one now ai_assistant script_type commands_source output_dir
    file_ext arg_format file_name t = (Some tt, t1) ->
  is_Some (files t1 !! (output_dir ++ [artifact_name file_ext (stem file_name)])%list).
Proof.
  unfold generate_one. intros (content & t0 & Hread & Hrun)%bind_returns.
  destruct (dict_get ai_assistant AGENT_CONFIG) as [cfg|]; [|discriminate].
  destruct (render_template _ _ _ _ _) as [description content'].
  pose proof (artifact_fst file_ext (stem file_name) description content') as Hname.
  destruct (artifact _ _ _ _) as [out_name out_content]. cbn [fst] in Hname. subst out_name.
  unfold write_text in Hrun. destruct (_ || _); [discriminate|].
  injection Hrun as <-. cbn [files]. rewrite lookup_insert_eq. by eexists.
Qed.

Lemma grows_generate_agent_commands (now : Z) (ai_assistant script_type : string)
    (target_dir bundled_path : list string) :
  grows (generate_agent_commands json_load json_dump now ai_assistant script_type
           target_dir bundled_path).
Proof.
  unfold generate_agent_commands. apply grows_get. intros t.
  destruct (negb (path_exists t _)); [apply grows_ret|].
  destruct (dict_get ai_assistant AGENT_COMMAND_DIRS) as [[[cmd_dir ext] arg]|];
    [|apply grows_ret].
  apply grows_bind; [apply grows_mkdir_p|]. intros _.
  apply grows_bind; [apply grows_glob|]. intros templates.
  apply grows_bind; [apply grows_for_each; intros name; apply grows_generate_one|].
  intros _. apply grows_bind.
  { case_decide; [apply grows_copilot_files|apply grows_ret]. }
  intros _. apply grows_bind; [apply grows_agent_specific_files|]. intros _.
  apply grows_ret.
Qed.

(** What a run that returns [True] leaves behind. *)
Lemma generate_returns_true (now : Z) (ai_assistant script_type : string)
    (target_dir bundled_path : list string) (t t' : tree) :
  generate_agent_commands json_load json_dump now ai_assistant script_type
    target_dir bundled_path t = (Some true, t') ->
  exists cmd_dir ext arg,
    dict_get ai_assistant AGENT_COMMAND_DIRS = Some (cmd_dir, ext, arg) /\
    forall name,
      is_Some (files t !! (bundled_path ++ ["templates"; "commands"; name])%list) ->
      is_md name = true ->
      is_Some (files t' !! (target_dir ++ cmd_dir ++ [artifact_name ext (stem name)])%list).
Proof.
  unfold generate_agent_commands. unfold bind at 1, get.
  destruct (negb (path_exists t _)); [discriminate|].
  destruct (dict_get ai_assistant AGENT_COMMAND_DIRS) as [[[cmd_dir ext] arg]|];
    [|discriminate].
  intros ([] & t1 & Hmk & Hrun)%bind_returns.
  apply bind_returns in Hrun as (templates & t2 & Hglob & Hrun).
  apply bind_returns in Hrun as ([] & t3 & Hloop & Hrun).
  apply bind_returns in Hrun as ([] & t4 & Hcopilot & Hrun).
  apply bind_returns in Hrun as ([] & t5 & Hspecific & Hrun).
  injection Hrun as <-.
  exists cmd_dir, ext, arg. split; [done|]. intros name Hfile Hmd.
  unfold glob in Hglob. injection Hglob as <- <-.
  assert (name ∈ filter (fun name => is_md name)
                   (child_files t1 ((bundled_path ++ ["templates"]) ++ ["commands"])
                    ++ child_dirs t1 ((bundled_path ++ ["templates"]) ++ ["commands"]))%list)
    as Hin.
  { apply list_elem_of_filter. split; [by rewrite Hmd|].
    apply elem_of_app. left.
    rewrite (child_files_same t t1) by (by eapply mkdir_p_files).
    apply child_files_elem. by rewrite <- !app_assoc. }
  pose proof (for_each_returns _ _
                (fun name t => is_Some (files t !! ((target_dir ++ cmd_dir)
                                 ++ [artifact_name ext (stem name)])%list))
                (fun x t0 t1' Hx => generate_one_returns _ _ _ _ _ _ _ _ _ _ Hx)
                (fun x y t0 Hq => grows_generate_one _ _ _ _ _ _ _ _ _ _ Hq)
                _ _ Hloop name Hin) as Hout.
  cbv beta in Hout. rewrite <- app_assoc in Hout.
  assert (t5 = (agent_specific_files ai_assistant target_dir
                  (bundled_path ++ ["agent_templates"]) t4).2) as -> by by rewrite Hspecific.
  apply grows_agent_specific_files.
  match type of Hcopilot with ?m t3 = _ => assert (t4 = (m t3).2) as -> by by rewrite Hcopilot end.
  case_decide; [by apply grows_copilot_files|done].
Qed.

End Artifacts.


Lemma detect_from_artifact (target_dir : list string) (ai_assistant : string)
    (cmd_dir : list string) (ext arg name : string) (fs : gmap (list string) file) :
  dict_get ai_assistant AGENT_COMMAND_DIRS = Some (cmd_dir, ext, arg) ->
  is_Some (fs !! (target_dir ++ cmd_dir ++ [artifact_name ext name])%list) ->
  ai_assistant ∈ Update.detect_installed_agents target_dir fs.
Proof.
  intros Hcmd [f Hf]. unfold Update.detect_installed_agents. apply list_elem_of_omap.
  exists (ai_assistant, (cmd_dir, ext, arg)). split.
  { by apply WorkingSyncProps.dict_get_elem. }
  assert (Update.has_entry fs (target_dir ++ cmd_dir)%list
            (fun name => String.prefix "specforge." name) = true) as ->; [|done].
  apply UpdateProps.has_entry_spec. exists (artifact_name ext name), [], f.
  split; [by rewrite <- app_assoc|apply artifact_name_prefix].
Qed.

Lemma grows_step {A : Type} (m : M A) (t t1 : tree) (a : option A) (p : list string) :
  grows m -> m t = (a, t1) -> is_Some (files t !! p) -> is_Some (files t1 !! p).
Proof. intros Hm Hrun Hp. specialize (Hm t p Hp). by rewrite Hrun in Hm. Qed.

Section Outcome.
Variable json_load : string -> option JsonMerge.json.
Variable json_dump : JsonMerge.json -> string.

(** When [generate_agent_commands] returns [True], every template
    [*.md] of the commands directory of the bundle has its artifact in
    the command directory of the agent, named [specforge.] and the stem
    of the template with the extension of the agent; and if there was
    a template at all, [detect_installed_agents] finds the agent in the
    project afterwards. *)
Theorem generate_agent_commands_writes_artifacts (now : Z)
    (ai_assistant script_type : string) (target_dir bundled_path : list string)
    (t t' : tree) :
  generate_agent_commands json_load json_dump now ai_assistant script_type
    target_dir bundled_path t = (Some true, t') ->
  exists cmd_dir ext arg,
    dict_get ai_assistant AGENT_COMMAND_DIRS = Some (cmd_dir, ext, arg) /\
    (forall name,
       is_Some (files t !! (bundled_path ++ ["templates"; "commands"; name])%list) ->
       is_md name = true ->
       is_Some (files t' !! (target_dir ++ cmd_dir
                               ++ [artifact_name ext (stem name)])%list)) /\
    ((exists name,
        is_Some (files t !! (bundled_path ++ ["templates"; "commands"; name])%list) /\
        is_md name = true) ->
     ai_assistant ∈ Update.detect_installed_agents target_dir (files t')).
Proof.
  intros (cmd_dir & ext & arg & Hcmd & Hall)%generate_returns_true.
  exists cmd_dir, ext, arg. split_and!; [done|done|].
  intros (name & Hfile & Hmd). eapply detect_from_artifact; [done|]. by apply Hall.
Qed.

(** A project that [build_template_from_bundled] has built with
    success from a bundle with at least one command template is one in
    which [detect_installed_agents] finds the agent. *)
Theorem build_template_from_bundled_detected (now : Z)
    (ai_assistant script_type : string) (target_dir bundled_path : list string)
    (t t' : tree) (name : string) :
  build_template_from_bundled json_load json_dump now ai_assistant script_type
    target_dir bundled_path t = (Some true, t') ->
  is_Some (files t !! (bundled_path ++ ["templates"; "commands"; name])%list) ->
  is_md name = true ->
  ai_assistant ∈ Update.detect_installed_agents target_dir (files t').
Proof.
  unfold build_template_from_bundled. unfold bind at 1, get.
  destruct (negb (path_exists t _)); [discriminate|].
  match goal with |- context [bind ?m ?k t] => destruct (bind m k t) as [[ok|] tx] eqn:Hrun end;
    [|discriminate].
  intros [= -> ->] Hfile Hmd.
  apply bind_returns in Hrun as ([] & t1 & H1 & Hrun).
  apply bind_returns in Hrun as ([] & t2 & H2 & Hrun).
  apply bind_returns in Hrun as ([] & t3 & H3 & Hrun).
  apply bind_returns in Hrun as ([] & t4 & H4 & Hrun).
  apply bind_returns in Hrun as ([] & t5 & H5 & Hrun).
  apply generate_returns_true in Hrun as (cmd_dir & ext & arg & Hcmd & Hall).
  eapply detect_from_artifact; [done|]. apply Hall; [|done].
  eapply grows_step; [|exact H5|]; [apply grows_copy_items|].
  eapply grows_step; [|exact H4|]; [apply grows_mkdir_p|].
  eapply grows_step; [|exact H3|].
  { apply grows_when_exists, grows_bind; [apply grows_mkdir_p|]. intros _.
    apply grows_bind; [|intros _; apply grows_copy_root_files].
    repeat case_decide; try apply grows_ret; apply grows_when_exists, grows_copytree. }
  eapply grows_step; [|exact H2|]; [apply grows_when_exists, grows_copytree|].
  eapply grows_step; [|exact H1|]; [apply grows_mkdir_p|]. done.
Qed.

End Outcome.

(** A bundle with one command template, and a project with a memory
    file. *)
Definition bundle_tree : tree :=
  Tree (<[ ["b"; "templates"; "commands"; "plan.md"] :=
             File ("description: Plan" +:+ PyStr.nl +:+ "Run {SCRIPT} with {ARGS}") 5 ]>
        (<[ ["p"; ".specforge"; "memory"; "constitution.md"] := File "mine" 3 ]> ∅))
       (list_to_set [["b"]; ["b"; "templates"]; ["b"; "templates"; "commands"]; ["p"];
                     ["p"; ".specforge"]; ["p"; ".specforge"; "memory"]]).

Lemma generate_agent_commands_keeps_memory_witness :
  let t' := (generate_agent_commands (fun _ => None) (fun _ => EmptyString) 7
               "claude" "sh" ["p"] ["b"] bundle_tree).2 in
  files t' !! ["p"; ".specforge"; "memory"; "constitution.md"]
  = files bundle_tree !! ["p"; ".specforge"; "memory"; "constitution.md"] /\
  (["p"; ".specforge"; "memory"; "constitution.md"] ∈ dirs t' <->
   ["p"; ".specforge"; "memory"; "constitution.md"] ∈ dirs bundle_tree).
Proof.
  apply (generate_agent_commands_keeps_memory (fun _ => None) (fun _ => EmptyString) 7
           "claude" "sh" ["p"] ["b"] bundle_tree
           ["p"; ".specforge"; "memory"; "constitution.md"]).
  exists ["constitution.md"]. reflexivity.
Defined.

Lemma generate_agent_commands_writes_artifacts_witness :
  let t' := (generate_agent_commands (fun _ => None) (fun _ => EmptyString) 7
               "claude" "sh" ["p"] ["b"] bundle_tree).2 in
  "claude" ∈ Update.detect_installed_agents ["p"] (files t').
Proof.
  intros t'.
  destruct (generate_agent_commands_writes_artifacts (fun _ => None) (fun _ => EmptyString) 7
              "claude" "sh" ["p"] ["b"] bundle_tree t')
    as (cmd_dir & ext & arg & _ & _ & Hdetect).
  - vm_compute. reflexivity.
  - apply Hdetect. exists "plan.md". split; [|reflexivity].
    vm_compute. eexists. reflexivity.
Defined.

Lemma build_template_from_bundled_detected_witness :
  let t' := (build_template_from_bundled (fun _ => None) (fun _ => EmptyString) 7
               "gemini" "sh" ["p"] ["b"] bundle_tree).2 in
  "gemini" ∈ Update.detect_installed_agents ["p"] (files t').
Proof.
  intros t'.
  apply (build_template_from_bundled_detected (fun _ => None) (fun _ => EmptyString) 7
           "gemini" "sh" ["p"] ["b"] bundle_tree t' "plan.md").
  - vm_compute. reflexivity.
  - vm_compute. eexists. reflexivity.
  - reflexivity.
Defined.


End GenerateProps.

(** * Properties of the migration *)

Module MigrateProps.
Import SharedResources Migrate.

Lemma take_parent_ne (p : list string) (n : nat) : p <> [] -> take n (parent p) <> p.
Proof.
  intros Hp Heq. apply (f_equal length) in Heq. unfold parent in Heq.
  rewrite !length_take in Heq. destruct p; [done|]. simpl in Heq. lia.
Qed.

(** One step of the merge leaves a file of the new memory directory as
    it is. *)
Lemma merge_item_keeps (project_path rel r : list string) (f : file) (t : tree) :
  files t !! ((project_path ++ [".specforge"]) ++ "memory" :: r)%list = Some f ->
  files (merge_item (project_path ++ [".specify"]) (project_path ++ [".specforge"]) rel t).2
    !! ((project_path ++ [".specforge"]) ++ "memory" :: r)%list = Some f.
Proof.
  intros Hq. unfold merge_item, bind, get.
  destruct (negb (is_file t _)); [done|].
  destruct (starts_with_memory rel && path_exists t _) eqn:Hskip; [done|].
  destruct (mkdir_p _ t) as [[u|] t1] eqn:Hmk;
    pose proof (GenerateProps.mkdir_p_files _ _ _ _ Hmk) as Hfiles;
    [|cbn [snd]; by rewrite Hfiles].
  unfold copy2. destruct (files t1 !! _) as [g|]; [|cbn [snd]; by rewrite Hfiles].
  destruct (_ || _); [cbn [snd]; by rewrite Hfiles|]. cbn [snd files]. rewrite Hfiles.
  rewrite lookup_insert_ne; [done|].
  apply andb_false_iff in Hskip as [Hmem|Hnew].
  - (* the relative path does not start with "memory" *)
    destruct rel as [|name rest]; cbn [starts_with_memory] in Hmem.
    + rewrite !app_nil_r. destruct (is_dir t1 _).
      * rewrite last_snoc. repeat rewrite <- app_assoc. intros Heq%app_inv_head. discriminate.
      * intros Heq. apply (f_equal length) in Heq. rewrite !length_app in Heq.
        simpl in Heq. lia.
    + assert (name <> "memory") as Hname by (intros ->; discriminate).
      destruct (is_dir t1 _); [destruct (last _)|];
        repeat rewrite <- app_assoc; intros Heq%app_inv_head; simpl in Heq; congruence.
  - (* nothing exists at the destination, so it is not the memory file *)
    assert (is_dir t1 ((project_path ++ [".specforge"]) ++ rel)%list = false) as ->.
    { apply bool_decide_eq_false. intros Hd.
      unfold mkdir_p in Hmk. destruct (existsb _ _); [discriminate|].
      assert (dirs t1 = dirs t ∪ list_to_set
                (ancestors_and_self (parent ((project_path ++ [".specforge"]) ++ rel)%list)))
        as Hdirs by (by inversion Hmk).
      rewrite Hdirs in Hd. apply elem_of_union in Hd as [Hd|Hd].
      - unfold path_exists in Hnew. apply orb_false_iff in Hnew as [_ Hnd].
        by apply bool_decide_eq_false in Hnd.
      - apply elem_of_list_to_set in Hd. unfold ancestors_and_self in Hd.
        apply list_elem_of_fmap in Hd as (n & Heq & _). symmetry in Heq.
        revert Heq. apply take_parent_ne. by destruct project_path. }
    intros Heq. rewrite Heq in Hnew. unfold path_exists, is_file in Hnew.
    rewrite Hq in Hnew. rewrite bool_decide_true in Hnew by by eexists. done.
Qed.

(** Merging [.specify] into an existing [.specforge] never overwrites a
    memory file of [.specforge]: a file at or below
    [.specforge/memory] that exists before the merge is the same after
    it, also when the merge raises on the way, whatever [.specify]
    holds under the same name. *)
Theorem merge_specify_dir_keeps_memory (project_path r : list string) (f : file)
    (t : tree) :
  files t !! (project_path ++ [".specforge"; "memory"] ++ r)%list = Some f ->
  files (merge_specify_dir project_path t).2
    !! (project_path ++ [".specforge"; "memory"] ++ r)%list = Some f.
Proof.
  replace (project_path ++ [".specforge"; "memory"] ++ r)%list
    with ((project_path ++ [".specforge"]) ++ "memory" :: r)%list
    by (by rewrite <- app_assoc).
  intros Hq. unfold merge_specify_dir. unfold bind at 1, get.
  pose proof (GenerateProps.for_each_keeps_fact
                (files_below t (project_path ++ [".specify"]))
                (merge_item (project_path ++ [".specify"]) (project_path ++ [".specforge"]))
                (fun t0 => files t0 !! ((project_path ++ [".specforge"]) ++ "memory" :: r)%list
                           = Some f)
                (fun rel t0 H0 => merge_item_keeps project_path rel r f t0 H0) t Hq) as Hloop.
  unfold bind. destruct (for_each _ _ t) as [[u|] t1]; [|done].
  cbn [snd] in Hloop. unfold rmtree. destruct (is_dir t1 _); [|done].
  cbn [snd files]. apply map_lookup_filter_Some. split; [done|].
  cbn [fst]. intros [x Hx]. rewrite <- !app_assoc in Hx.
  apply app_inv_head in Hx. discriminate.
Qed.

(** A project whose [.specify] and [.specforge] both hold a
    constitution. *)
Definition both_tree : tree :=
  Tree (<[ ["p"; ".specforge"; "memory"; "constitution.md"] := File "mine" 9 ]>
        (<[ ["p"; ".specify"; "memory"; "constitution.md"] := File "old" 2 ]>
        (<[ ["p"; ".specify"; "scripts"; "run.sh"] := File "run" 2 ]> ∅)))
       (list_to_set [["p"]; ["p"; ".specforge"]; ["p"; ".specforge"; "memory"];
                     ["p"; ".specify"]; ["p"; ".specify"; "memory"];
                     ["p"; ".specify"; "scripts"]]).

Lemma merge_specify_dir_keeps_memory_witness :
  files (merge_specify_dir ["p"] both_tree).2
    !! (["p"] ++ [".specforge"; "memory"] ++ ["constitution.md"])%list
  = Some (File "mine" 9).
Proof.
  apply (merge_specify_dir_keeps_memory ["p"] ["constitution.md"] (File "mine" 9) both_tree).
  vm_compute. reflexivity.
Defined.

(** ** Content *)

Lemma replace_from_absent (old new s : string) :
  PyStr.find old s = None -> Renderer.replace_from old new O s = s.
Proof.
  induction s as [|c s IH]; [done|]. cbn [PyStr.find Renderer.replace_from].
  destruct (String.prefix old (String c s)); [done|].
  destruct (PyStr.find old s); [done|]. intros _. by rewrite IH.
Qed.

Lemma find_prefix (sub s : string) :
  String.prefix sub s = true -> PyStr.find sub s = Some O.
Proof. intros Hp. destruct s; cbn [PyStr.find]; by rewrite Hp. Qed.

Lemma replace_absent (old new s : string) :
  old <> "" -> PyStr.find old s = None -> Renderer.replace old new s = s.
Proof.
  intros Hold Hfind. destruct old; [done|]. by apply replace_from_absent.
Qed.

(** A content without [speckit.], [.specify/] and [SPECIFY_FEATURE] is
    returned as it is by the replacements of step 3, so its file is not
    written again. *)
Theorem migrate_content_clean (content : string) :
  PyStr.find "speckit." content = None ->
  PyStr.find ".specify/" content = None ->
  PyStr.find "SPECIFY_FEATURE" content = None ->
  migrate_content content = content.
Proof.
  intros H1 H2 H3. unfold migrate_content.
  assert (PyStr.find "/speckit." content = None) as H0.
  { clear H2 H3. induction content as [|c s IH]; [done|].
    cbn [PyStr.find] in *. destruct (String.prefix "speckit." (String c s)) eqn:Hp; [done|].
    destruct (PyStr.find "speckit." s) eqn:Hf; [done|].
    rewrite IH by done.
    destruct (String.prefix "/speckit." (String c s)) eqn:Hp'; [|done].
    exfalso. apply PyStrFacts.str_prefix_split in Hp' as [rest Hrest].
    change ("/speckit." +:+ rest) with (String "/"%char ("speckit." +:+ rest)) in Hrest.
    injection Hrest as -> ->.
    rewrite (find_prefix "speckit." ("speckit." +:+ rest)) in Hf; [done|].
    apply PyStrFacts.str_prefix_app_l. }
  rewrite (replace_absent "/speckit.") by done.
  rewrite (replace_absent "speckit.") by done.
  rewrite (replace_absent ".specify/") by done.
  by rewrite (replace_absent "SPECIFY_FEATURE").
Qed.

Lemma migrate_content_clean_witness :
  migrate_content "Run /specforge.plan in .specforge/" = "Run /specforge.plan in .specforge/".
Proof.
  apply (migrate_content_clean "Run /specforge.plan in .specforge/"); vm_compute; reflexivity.
Defined.

End MigrateProps.

(** * Properties of the GitHub token *)

Module GithubTokenProps.
Import GithubToken.

Lemma rstrip_head (c : ascii) (s : string) :
  Renderer.is_space c = false -> exists r, Generate.rstrip (String c s) = String c r.
Proof.
  intros Hc. cbn [Generate.rstrip]. destruct (Generate.rstrip s); [|by eexists].
  rewrite Hc. by eexists.
Qed.

Lemma lstrip_head (s : string) :
  Generate.lstrip s = "" \/
  exists c r, Generate.lstrip s = String c r /\ Renderer.is_space c = false.
Proof.
  induction s as [|c s IH]; [by left|]. cbn [Generate.lstrip].
  destruct (Renderer.is_space c) eqn:Hc; [done|]. right. by exists c, s.
Qed.

Lemma rstrip_idem (s : string) : Generate.rstrip (Generate.rstrip s) = Generate.rstrip s.
Proof.
  induction s as [|c s IH]; [done|]. cbn [Generate.rstrip].
  destruct (Generate.rstrip s) as [|c' r] eqn:Hr.
  - destruct (Renderer.is_space c) eqn:Hc; [done|]. cbn [Generate.rstrip]. by rewrite Hc.
  - cbn [Generate.rstrip] in *. by rewrite IH.
Qed.

Lemma strip_idem (s : string) : Generate.strip (Generate.strip s) = Generate.strip s.
Proof.
  unfold Generate.strip. destruct (lstrip_head s) as [->|(c & r & -> & Hc)]; [done|].
  destruct (rstrip_head c r Hc) as [r' Hr']. rewrite Hr'.
  cbn [Generate.lstrip]. rewrite Hc. rewrite <- Hr'. apply rstrip_idem.
Qed.

(** The token [_github_token] returns is never empty and has no white
    space around it; a command-line token that is not empty decides the
    result alone, so one made of white space only gives [None] even
    when [GH_TOKEN] or [GITHUB_TOKEN] is set; and [_github_auth_headers]
    has the [Authorization] item exactly when there is a token. *)
Theorem github_token_clean (cli_token GH_TOKEN GITHUB_TOKEN : option string) :
  (forall token, _github_token cli_token GH_TOKEN GITHUB_TOKEN = Some token ->
     token <> "" /\ Generate.strip token = token) /\
  (forall c s, cli_token = Some (String c s) ->
     _github_token cli_token GH_TOKEN GITHUB_TOKEN = _github_token cli_token None None) /\
  (forall c s, cli_token = Some (String c s) -> Generate.strip (String c s) = "" ->
     _github_token cli_token GH_TOKEN GITHUB_TOKEN = None) /\
  (_github_auth_headers cli_token GH_TOKEN GITHUB_TOKEN = []
   <-> _github_token cli_token GH_TOKEN GITHUB_TOKEN = None).
Proof.
  split_and!.
  - intros token. unfold _github_token.
    destruct (Generate.strip _) as [|c r] eqn:Hs; [done|]. intros [= <-].
    split; [done|]. rewrite <- Hs. apply strip_idem.
  - by intros c s ->.
  - intros c s -> Hs. unfold _github_token. cbn [or_else]. by rewrite Hs.
  - unfold _github_auth_headers.
    by destruct (_github_token cli_token GH_TOKEN GITHUB_TOKEN).
Qed.

Lemma github_token_clean_witness :
  _github_token (Some "  ") (Some "ghp_abc") None = None /\
  _github_token None (Some " ghp_abc ") None = Some "ghp_abc".
Proof.
  split.
  - apply (proj1 (proj2 (proj2 (github_token_clean (Some "  ") (Some "ghp_abc") None)))
             " "%char " "); reflexivity.
  - reflexivity.
Defined.

End GithubTokenProps.
